(** * Streaming audio player: a shallow embedding of [media_handler.AudioPlayer]

    The development follows [src/media_handler.py].  Python [int]s are [Z];
    Python and numpy floats are idealised as real numbers ([R]), so every
    statement below is about exact arithmetic, not about binary64 rounding;
    [threading.Event]s are booleans whose [wait] is a guard of the step
    relation; regions guarded by [self.lock] are single atomic steps. *)

From Stdlib Require Import ZArith List Bool Reals Lra Lia.
From Stdlib Require String.
Import ListNotations.

Local Open Scope Z_scope.

(** ** Python numeric built-ins on reals *)

(** [max(a, b)]: Python keeps the first argument unless the second is
    strictly greater. *)
Definition py_max (a b : R) : R := if Rlt_dec a b then b else a.

(** [min(a, b)]: Python keeps the first argument unless the second is
    strictly smaller. *)
Definition py_min (a b : R) : R := if Rlt_dec b a then b else a.

(** [int(x)]: truncation towards zero. *)
Definition py_int (x : R) : Z :=
  if Rle_dec 0 x then Int_part x else - Int_part (- x).

(** ** The player object *)

(** A chunk of audio as [soundfile] returns it: one entry per frame, one
    sample per channel in each frame. *)
Definition frame := list R.
Definition chunk := list frame.

Record AudioPlayer := mkAudioPlayer {
  volume : R;
  normalization_max : R;
  normalization_min : R;
  normalization_bias : R;
  audio_path : option String.string;
  audio_channels : Z;
  audio_frames : Z;
  audio_sample_rate : Z;
  is_playback_unpaused : bool;
  is_stopped : bool;
  no_audio_loaded : bool;
  is_window_focused : bool;
  display_frame_data : option chunk;
  display_skip_rate : Z;
  display_frame_chunk_ratio : Z;
  current_frame : Z
}.

Definition set_volume_field (v : R) (s : AudioPlayer) : AudioPlayer :=
  mkAudioPlayer v (normalization_max s) (normalization_min s)
    (normalization_bias s) (audio_path s) (audio_channels s) (audio_frames s)
    (audio_sample_rate s) (is_playback_unpaused s) (is_stopped s)
    (no_audio_loaded s) (is_window_focused s) (display_frame_data s)
    (display_skip_rate s) (display_frame_chunk_ratio s) (current_frame s).

Definition set_audio_path (p : option String.string) (s : AudioPlayer) : AudioPlayer :=
  mkAudioPlayer (volume s) (normalization_max s) (normalization_min s)
    (normalization_bias s) p (audio_channels s) (audio_frames s)
    (audio_sample_rate s) (is_playback_unpaused s) (is_stopped s)
    (no_audio_loaded s) (is_window_focused s) (display_frame_data s)
    (display_skip_rate s) (display_frame_chunk_ratio s) (current_frame s).

Definition set_audio_frames (n : Z) (s : AudioPlayer) : AudioPlayer :=
  mkAudioPlayer (volume s) (normalization_max s) (normalization_min s)
    (normalization_bias s) (audio_path s) (audio_channels s) n
    (audio_sample_rate s) (is_playback_unpaused s) (is_stopped s)
    (no_audio_loaded s) (is_window_focused s) (display_frame_data s)
    (display_skip_rate s) (display_frame_chunk_ratio s) (current_frame s).

Definition set_audio_sample_rate (n : Z) (s : AudioPlayer) : AudioPlayer :=
  mkAudioPlayer (volume s) (normalization_max s) (normalization_min s)
    (normalization_bias s) (audio_path s) (audio_channels s) (audio_frames s)
    n (is_playback_unpaused s) (is_stopped s)
    (no_audio_loaded s) (is_window_focused s) (display_frame_data s)
    (display_skip_rate s) (display_frame_chunk_ratio s) (current_frame s).

Definition set_unpaused (b : bool) (s : AudioPlayer) : AudioPlayer :=
  mkAudioPlayer (volume s) (normalization_max s) (normalization_min s)
    (normalization_bias s) (audio_path s) (audio_channels s) (audio_frames s)
    (audio_sample_rate s) b (is_stopped s)
    (no_audio_loaded s) (is_window_focused s) (display_frame_data s)
    (display_skip_rate s) (display_frame_chunk_ratio s) (current_frame s).

Definition set_stopped (b : bool) (s : AudioPlayer) : AudioPlayer :=
  mkAudioPlayer (volume s) (normalization_max s) (normalization_min s)
    (normalization_bias s) (audio_path s) (audio_channels s) (audio_frames s)
    (audio_sample_rate s) (is_playback_unpaused s) b
    (no_audio_loaded s) (is_window_focused s) (display_frame_data s)
    (display_skip_rate s) (display_frame_chunk_ratio s) (current_frame s).

Definition set_no_audio_loaded (b : bool) (s : AudioPlayer) : AudioPlayer :=
  mkAudioPlayer (volume s) (normalization_max s) (normalization_min s)
    (normalization_bias s) (audio_path s) (audio_channels s) (audio_frames s)
    (audio_sample_rate s) (is_playback_unpaused s) (is_stopped s)
    b (is_window_focused s) (display_frame_data s)
    (display_skip_rate s) (display_frame_chunk_ratio s) (current_frame s).

Definition set_display_frame_data (d : option chunk) (s : AudioPlayer)
  : AudioPlayer :=
  mkAudioPlayer (volume s) (normalization_max s) (normalization_min s)
    (normalization_bias s) (audio_path s) (audio_channels s) (audio_frames s)
    (audio_sample_rate s) (is_playback_unpaused s) (is_stopped s)
    (no_audio_loaded s) (is_window_focused s) d
    (display_skip_rate s) (display_frame_chunk_ratio s) (current_frame s).

Definition set_current_frame (n : Z) (s : AudioPlayer) : AudioPlayer :=
  mkAudioPlayer (volume s) (normalization_max s) (normalization_min s)
    (normalization_bias s) (audio_path s) (audio_channels s) (audio_frames s)
    (audio_sample_rate s) (is_playback_unpaused s) (is_stopped s)
    (no_audio_loaded s) (is_window_focused s) (display_frame_data s)
    (display_skip_rate s) (display_frame_chunk_ratio s) n.

(** [AudioPlayer.__init__]: every argument is stored as given, except
    [display_skip_rate], which is raised to at least 1.  Both events that
    start out set are [is_playback_unpaused] and [no_audio_loaded]. *)
Definition init (normalization_max normalization_min normalization_bias
                 volume : R) (inital_audio_path : option String.string)
                (display_frame_chunk_ratio display_skip_rate : Z)
  : AudioPlayer :=
  {| volume := volume;
     normalization_max := normalization_max;
     normalization_min := normalization_min;
     normalization_bias := normalization_bias;
     audio_path := inital_audio_path;
     audio_channels := 0;
     audio_frames := 0;
     audio_sample_rate := 0;
     is_playback_unpaused := true;
     is_stopped := false;
     no_audio_loaded := true;
     is_window_focused := false;
     display_frame_data := None;
     display_skip_rate :=
       if 1 <? display_skip_rate then display_skip_rate else 1;
     display_frame_chunk_ratio := display_frame_chunk_ratio;
     current_frame := 0 |}.

(** The constructor with every default of its signature except [volume]. *)
Definition init_with_volume (volume : R) : AudioPlayer :=
  init (-3) (-20) (1 / 8) volume None 50 1.

(** ** Controls called from the interface thread *)

(** [pause_audio]; the test [is_playback_unpaused is not None] is always
    true, since the attribute is bound to an event in [__init__]. *)
Definition pause_audio (s : AudioPlayer) : AudioPlayer :=
  if 0 <? audio_frames s then set_unpaused false s else s.

Definition unpause_audio (s : AudioPlayer) : AudioPlayer :=
  if 0 <? audio_frames s then set_unpaused true s else s.

Definition toggle_pause (s : AudioPlayer) : AudioPlayer :=
  if is_playback_unpaused s then pause_audio s else unpause_audio s.

(** [seek]: the new cursor is stored exactly as computed. *)
Definition seek (position : R) (percentage : bool) (s : AudioPlayer)
  : AudioPlayer :=
  if 0 <? audio_frames s then
    if percentage
    then set_current_frame (py_int (IZR (audio_frames s) * position)) s
    else set_current_frame (py_int position) s
  else s.

Definition set_volume (target_volume : R) (s : AudioPlayer) : AudioPlayer :=
  set_volume_field (py_min (py_max 0 target_volume) 1) s.

Definition get_display_frames (s : AudioPlayer) : option chunk :=
  if 0 <? audio_frames s then display_frame_data s else None.

(** The three pause controls as commands, to speak about call sequences. *)
Inductive pause_command := CmdPause | CmdUnpause | CmdToggle.

Definition run_pause_command (c : pause_command) : AudioPlayer -> AudioPlayer :=
  match c with
  | CmdPause => pause_audio
  | CmdUnpause => unpause_audio
  | CmdToggle => toggle_pause
  end.

Definition run_pause_commands (cs : list pause_command) (s : AudioPlayer)
  : AudioPlayer :=
  fold_left (fun acc c => run_pause_command c acc) cs s.

(** ** Signal processing *)

Local Open Scope R_scope.

(** The float operator [**] on the domain the player uses it on: a positive
    base with any exponent, and a zero base with a non-negative exponent
    (zero for a positive exponent, one for a zero exponent).  Outside that
    domain Python raises (a zero base with a negative exponent) or leaves
    the reals (a negative base with a fractional exponent); the value given
    here is then arbitrary, and every statement about [py_pow] keeps to the
    domain. *)
Definition py_pow (x y : R) : R :=
  if Req_dec_T x 0 then (if Req_dec_T y 0 then 1 else 0) else Rpower x y.

(** All samples of a chunk, as numpy reductions see them. *)
Definition samples (data : chunk) : list R := concat data.

Definition np_sum (l : list R) : R := fold_right Rplus 0 l.

Definition np_mean (l : list R) : R := np_sum l / INR (length l).

(** [np.std]: the population standard deviation. *)
Definition np_std (l : list R) : R :=
  sqrt (np_mean (map (fun x => Rabs (x - np_mean l) ^ 2) l)).

(** [np.max] of a non-empty array; numpy raises [ValueError] on an empty
    one, which is [None] here. *)
Definition np_max (l : list R) : option R :=
  match l with
  | [] => None
  | x :: t => Some (fold_left Rmax t x)
  end.

(** The keyword defaults of [find_target_loudness]. *)
Record loudness_params := mkLoudnessParams {
  input_range : R;
  target_dynamic_range : R;
  loudness_compression_factor : R;
  loudness_upper_limit : R;
  std__compression_max : R;
  std_compression_factor : R;
  expected_std_max : R
}.

Definition default_params : loudness_params :=
  {| input_range := 70;
     target_dynamic_range := 50;
     loudness_compression_factor := 1;
     loudness_upper_limit := 10;
     std__compression_max := 0.975;
     std_compression_factor := 0.8;
     expected_std_max := 3.5 |}.

(** What the loudness meter of the metering library hands back: a finite
    value, minus infinity for a chunk below its gate, or an exception. *)
Inductive meter_result :=
| MeterRaise
| MeterNegInf
| MeterValue (l : R).

(** [max(min(l, 0), -input_range)] on a measured loudness. *)
Definition loudness_point (p : loudness_params) (m : meter_result)
  : option R :=
  match m with
  | MeterRaise => None
  | MeterNegInf => Some (- input_range p)
  | MeterValue l => Some (py_max (py_min l 0) (- input_range p))
  end.

(** Lines 96-98.  The code divides by [target_dynamic_range] and by
    [loudness_compression_factor] and raises when one of them is zero;
    statements about this function assume them non-zero, and the bases of
    its powers in the domain of [py_pow]: [loudness_point + input_range] is
    never negative, and [input_range - 1] is positive for an [input_range]
    above 1. *)
Definition loudness_point_target_loudness (p : loudness_params) (lp : R) : R :=
  ((target_dynamic_range p - loudness_upper_limit p) / target_dynamic_range p)
  * target_dynamic_range p
  * py_pow (lp + input_range p) (1 / loudness_compression_factor p)
  * py_pow (input_range p - 1) ((-1) / loudness_compression_factor p)
  - target_dynamic_range p.

Definition audio_std (audio_data : chunk) : R :=
  np_std (map Rabs (samples audio_data)).

Definition audio_std_target_loudness (p : loudness_params) (audio_data : chunk)
  : R :=
  (1 - std__compression_max p)
  * py_pow (audio_std audio_data) (std_compression_factor p)
  * py_pow (expected_std_max p) (- std_compression_factor p)
  + std__compression_max p.

(** [data[data == 0] = 1e-12] *)
Definition zero_fix (data : chunk) : chunk :=
  map (map (fun x => if Req_dec_T x 0 then 1e-12 else x)) data.

(** [pyln.normalize.peak] of the metering library: scale the data so that its
    largest magnitude becomes [10 ** (target / 20)]. *)
Definition peak_scale (target : R) : R := Rpower 10 (target / 20).

Definition normalize_peak (data : chunk) (target : R) : option chunk :=
  match np_max (map Rabs (samples data)) with
  | None => None
  | Some current_peak =>
      let gain := peak_scale target / current_peak in
      Some (map (map (fun x => gain * x)) data)
  end.

Fixpoint zip_with {A B C : Type} (f : A -> B -> C) (l1 : list A) (l2 : list B)
  : list C :=
  match l1, l2 with
  | a :: t1, b :: t2 => f a b :: zip_with f t1 t2
  | _, _ => []
  end.

(** [normalized * 0.9 + 0.1 * raw], elementwise. *)
Definition blend (normalized raw : chunk) : chunk :=
  zip_with (zip_with (fun n x => n * 0.9 + 0.1 * x)) normalized raw.

Definition scale (data : chunk) (v : R) : chunk :=
  map (map (fun x => x * v)) data.

(** [a[::k]]: a zero step is a [ValueError], a negative one walks backwards
    from the last element. *)
Fixpoint take_every_aux {A : Type} (k : nat) (skip : nat) (l : list A)
  : list A :=
  match l with
  | [] => []
  | x :: t =>
      match skip with
      | O => x :: take_every_aux k (Nat.pred k) t
      | S n => take_every_aux k n t
      end
  end.

Definition py_slice_step {A : Type} (k : Z) (l : list A) : option (list A) :=
  if (k =? 0)%Z then None
  else if (0 <? k)%Z then Some (take_every_aux (Z.to_nat k) 0 l)
  else Some (take_every_aux (Z.to_nat (- k)) 0 (rev l)).

(** ** The decoded file *)

Record SoundFile := mkSoundFile {
  sf_data : chunk;
  sf_channels : Z;
  sf_samplerate : Z
}.

Definition sf_frames (f : SoundFile) : Z := Z.of_nat (length (sf_data f)).

(** [file.seek(n)]: the decoder refuses a position outside the file. *)
Definition sf_seek (f : SoundFile) (n : Z) : option Z :=
  if ((0 <=? n) && (n <=? sf_frames f))%Z then Some n else None.

(** [file.read(frames=k)] from position [pos]: at most [k] frames, fewer at
    the end of the file; a negative [k] reads everything that is left. *)
Definition sf_read (f : SoundFile) (pos k : Z) : chunk * Z :=
  let rest := skipn (Z.to_nat pos) (sf_data f) in
  let got := if (k <? 0)%Z then rest else firstn (Z.to_nat k) rest in
  (got, (pos + Z.of_nat (length got))%Z).

(** ** The stream callback *)

(** The steps of one callback invocation, in the order they run. *)
Inductive cb_op :=
| OpSeek (n : Z)                 (* file.seek(self.current_frame) *)
| OpAdvance (n : Z)              (* self.current_frame += frame_count *)
| OpRead (got : chunk)           (* file.read(frames=frame_count) *)
| OpTargetLoudness (arg : chunk) (* self.find_target_loudness(data) *)
| OpZeroFix                      (* data[data == 0] = 1e-12 *)
| OpEmptyCheck (empty : bool)    (* len(data) == 0 *)
| OpDisplay                      (* the look-ahead for the visualizer *)
| OpNormalize (arg : chunk).     (* pyln.normalize.peak(data, ...) *)

Inductive pa_status := paContinue | paComplete.

(** What the callback works on: the player, the position of the open file
    and the steps taken so far. *)
Record cb_state := mkCbState {
  cb_player : AudioPlayer;
  cb_pos : Z;
  cb_log : list cb_op
}.

(** State and exceptions: [None] is an exception on its way out of the
    callback. *)
Definition CB (A : Type) : Type := cb_state -> option A * cb_state.

Definition cb_ret {A : Type} (a : A) : CB A := fun st => (Some a, st).

Definition cb_bind {A B : Type} (m : CB A) (k : A -> CB B) : CB B :=
  fun st =>
    match m st with
    | (Some a, st') => k a st'
    | (None, st') => (None, st')
    end.

Declare Scope cb_scope.
Delimit Scope cb_scope with cb.
Notation "x <- m ;; k" := (cb_bind m (fun x => k))
  (at level 61, m at next level, right associativity) : cb_scope.
Notation "m ;;; k" := (cb_bind m (fun _ => k))
  (at level 61, right associativity) : cb_scope.

Definition cb_raise {A : Type} : CB A := fun st => (None, st).

Definition cb_tell (op : cb_op) : CB unit :=
  fun st => (Some tt, mkCbState (cb_player st) (cb_pos st) (cb_log st ++ [op])).

Definition cb_get : CB AudioPlayer := fun st => (Some (cb_player st), st).

Definition cb_modify (f : AudioPlayer -> AudioPlayer) : CB unit :=
  fun st => (Some tt, mkCbState (f (cb_player st)) (cb_pos st) (cb_log st)).

Definition cb_seek (file : SoundFile) (n : Z) : CB unit :=
  fun st =>
    match sf_seek file n with
    | Some pos => (Some tt, mkCbState (cb_player st) pos (cb_log st))
    | None => (None, st)
    end.

Definition cb_read (file : SoundFile) (k : Z) : CB chunk :=
  fun st =>
    let (got, pos) := sf_read file (cb_pos st) k in
    (Some got, mkCbState (cb_player st) pos (cb_log st)).

Definition cb_lift {A : Type} (o : option A) : CB A :=
  match o with
  | Some a => cb_ret a
  | None => cb_raise
  end.

Section Streaming.

(** [pyln.Meter(rate, block_size).integrated_loudness(data)], the loudness
    measurement of the metering library. *)
Variable integrated_loudness : Z -> R -> chunk -> meter_result.

(** What [sf.SoundFile(path)] and [sf.info(path)] find at a path. *)
Variable fs : String.string -> option SoundFile.

(** [find_target_loudness] with its keyword arguments gathered in [p].  The
    block size [len(audio_data) / self.audio_sample_rate] divides by the
    sample rate, which raises when that is zero. *)
Definition find_target_loudness (s : AudioPlayer) (p : loudness_params)
    (audio_data : chunk) : option R :=
  if (audio_sample_rate s =? 0)%Z then None
  else
    let block_size :=
      INR (length audio_data) / IZR (audio_sample_rate s) in
    match loudness_point p
            (integrated_loudness (audio_sample_rate s) block_size audio_data)
    with
    | None => None
    | Some lp =>
        Some (py_min (loudness_point_target_loudness p lp
                      * audio_std_target_loudness p audio_data) 0)
    end.

Local Open Scope cb_scope.

(** Lines 156-162: the look-ahead for the visualizer; a [ValueError] (a zero
    slice step, the peak of an empty array) leaves the display buffer as it
    was. *)
Definition display_update (file : SoundFile) (frame_count : Z)
    (target_loudness : R) : CB unit :=
  s <- cb_get ;;
  display_frame_data <-
    cb_read file (display_frame_chunk_ratio s * frame_count)%Z ;;
  match py_slice_step (display_skip_rate s) display_frame_data with
  | None => cb_ret tt
  | Some sliced =>
      let fixed := zero_fix sliced in
      match normalize_peak fixed target_loudness with
      | None => cb_ret tt
      | Some normalized =>
          cb_modify (set_display_frame_data (Some (blend normalized fixed)))
      end
  end.

(** Lines 145-164: the part of the callback that runs under [self.lock]. *)
Definition callback_locked (file : SoundFile) (frame_count : Z)
  : CB (option chunk * pa_status) :=
  s <- cb_get ;;
  cb_tell (OpSeek (current_frame s)) ;;;
  cb_seek file (current_frame s) ;;;
  cb_tell (OpAdvance frame_count) ;;;
  cb_modify (set_current_frame (current_frame s + frame_count)%Z) ;;;
  data <- cb_read file frame_count ;;
  cb_tell (OpRead data) ;;;
  s <- cb_get ;;
  cb_tell (OpTargetLoudness data) ;;;
  target_loudness <- cb_lift (find_target_loudness s default_params data) ;;
  cb_tell OpZeroFix ;;;
  let data := zero_fix data in
  cb_tell (OpEmptyCheck (length data =? 0)%nat) ;;;
  if (length data =? 0)%nat then cb_ret (None, paComplete)
  else
    (if is_window_focused s
     then cb_tell OpDisplay ;;; display_update file frame_count target_loudness
     else cb_ret tt) ;;;
    cb_tell (OpNormalize data) ;;;
    normalized <- cb_lift (normalize_peak data target_loudness) ;;
    s <- cb_get ;;
    cb_ret (Some (scale (blend normalized data) (volume s)), paContinue).

(** One whole invocation, lines 141-164.  The outer [None] is the callback
    parked in [is_playback_unpaused.wait()]. *)
Definition callback (file : SoundFile) (frame_count : Z) (st : cb_state)
  : option (option (option chunk * pa_status) * cb_state) :=
  if is_playback_unpaused (cb_player st) then
    if is_stopped (cb_player st) then Some (Some (None, paComplete), st)
    else Some (callback_locked file frame_count st)
  else None.

Local Close Scope cb_scope.

(** Two players that agree on every attribute but [display_frame_data]. *)
Definition same_but_display (s s' : AudioPlayer) : Prop :=
  s' = set_display_frame_data (display_frame_data s') s.

(** The callback after an accepted seek, case by case. *)
Inductive locked_result (file : SoundFile) (fc : Z) (st : cb_state)
  : option (option chunk * pa_status) * cb_state -> Prop :=
| locked_meter_raises :
    let s1 := set_current_frame (current_frame (cb_player st) + fc)
                (cb_player st) in
    let rd := sf_read file (current_frame (cb_player st)) fc in
    find_target_loudness s1 default_params (fst rd) = None ->
    locked_result file fc st
      (None, mkCbState s1 (snd rd)
               (cb_log st ++ [OpSeek (current_frame (cb_player st));
                              OpAdvance fc; OpRead (fst rd);
                              OpTargetLoudness (fst rd)]))
| locked_end_of_file : forall target,
    let s1 := set_current_frame (current_frame (cb_player st) + fc)
                (cb_player st) in
    let rd := sf_read file (current_frame (cb_player st)) fc in
    find_target_loudness s1 default_params (fst rd) = Some target ->
    fst rd = [] ->
    locked_result file fc st
      (Some (None, paComplete),
       mkCbState s1 (snd rd)
         (cb_log st ++ [OpSeek (current_frame (cb_player st));
                        OpAdvance fc; OpRead (fst rd);
                        OpTargetLoudness (fst rd);
                        OpZeroFix; OpEmptyCheck true]))
| locked_continue : forall target s2 pos2 shown res,
    let s1 := set_current_frame (current_frame (cb_player st) + fc)
                (cb_player st) in
    let rd := sf_read file (current_frame (cb_player st)) fc in
    find_target_loudness s1 default_params (fst rd) = Some target ->
    fst rd <> [] ->
    same_but_display s1 s2 ->
    shown = (if is_window_focused s1 then [OpDisplay] else []) ->
    res = match normalize_peak (zero_fix (fst rd)) target with
          | Some normalized =>
              Some (Some (scale (blend normalized (zero_fix (fst rd)))
                            (volume s2)), paContinue)
          | None => None
          end ->
    locked_result file fc st
      (res,
       mkCbState s2 pos2
         (cb_log st ++ [OpSeek (current_frame (cb_player st));
                        OpAdvance fc; OpRead (fst rd);
                        OpTargetLoudness (fst rd);
                        OpZeroFix; OpEmptyCheck false]
                    ++ shown ++ [OpNormalize (zero_fix (fst rd))])).

(** Two players that agree on every attribute but [current_frame] and
    [display_frame_data], the two the callback writes. *)
Definition same_but_cursor_display (s s' : AudioPlayer) : Prop :=
  s' = set_display_frame_data (display_frame_data s')
         (set_current_frame (current_frame s') s).

(** ** The stream thread, [start_audio_stream_thread] *)

(** The local [p]: not yet assigned, a live device handle, or a handle on
    which [terminate] has been called. *)
Inductive handle_state := HUnbound | HLive | HTerminated.

(** Where the device's callback stands: in [wait()] (line 141), at the test
    of [is_stopped] (line 142), or about to take the lock (line 145). *)
Inductive cb_pc := CbWait | CbCheck | CbLocked.

(** Program points of the thread function, named by source line. *)
Inductive stream_pc :=
| L134               (* p = pyaudio.PyAudio() *)
| L135               (* with sf.SoundFile(self.audio_path) as file *)
| L136               (* audio_info = sf.info(self.audio_path) *)
| L137               (* self.audio_sample_rate = audio_info.samplerate *)
| L138               (* self.audio_frames = audio_info.frames *)
| L165               (* stream = p.open(...) *)
| L171               (* stream.start_stream() *)
| L172 (cb : cb_pc)  (* while stream.is_active(): the device runs callbacks *)
| L174               (* stream.stop_stream(); stream.close() *)
| L177               (* finally: p.terminate() *)
| L178               (* self.no_audio_loaded.set() *)
| L179               (* with self.lock: self.current_frame = 0 *)
| LExit              (* the finally block ran to its end *)
| LDied.             (* the finally block itself raised *)

(** Whether an external call succeeds or raises. *)
Inductive env := EnvOk | EnvRaise.

Record stream_thread := mkStreamThread {
  st_pc : stream_pc;
  st_p : handle_state;
  st_file : option SoundFile;
  st_info : option SoundFile;
  st_pos : Z;
  st_chunk_size : Z;
  st_log : list cb_op
}.

Definition at_pc (pc : stream_pc) (t : stream_thread) : stream_thread :=
  mkStreamThread pc (st_p t) (st_file t) (st_info t) (st_pos t)
    (st_chunk_size t) (st_log t).

Definition with_p (h : handle_state) (t : stream_thread) : stream_thread :=
  mkStreamThread (st_pc t) h (st_file t) (st_info t) (st_pos t)
    (st_chunk_size t) (st_log t).

Definition with_file (f : SoundFile) (t : stream_thread) : stream_thread :=
  mkStreamThread (st_pc t) (st_p t) (Some f) (st_info t) 0
    (st_chunk_size t) (st_log t).

Definition with_info (f : SoundFile) (t : stream_thread) : stream_thread :=
  mkStreamThread (st_pc t) (st_p t) (st_file t) (Some f) (st_pos t)
    (st_chunk_size t) (st_log t).

Definition with_cb (pos : Z) (log : list cb_op) (t : stream_thread)
  : stream_thread :=
  mkStreamThread (st_pc t) (st_p t) (st_file t) (st_info t) pos
    (st_chunk_size t) log.

Definition new_stream_thread (chunk_size : Z) : stream_thread :=
  mkStreamThread L134 HUnbound None None 0 chunk_size [].

Definition open_path (s : AudioPlayer) : option SoundFile :=
  match audio_path s with
  | Some path => fs path
  | None => None
  end.

(** One step of a stream thread.  [None] means the thread cannot move: it
    has ended, or its callback is parked in [wait()].  An exception in the
    [try] body jumps to the [finally] block at [L177]; an exception inside
    the callback, like a [paComplete] result, makes the device stream
    inactive, which ends the loop of line 172. *)
Definition stream_step (e : env) (t : stream_thread) (s : AudioPlayer)
  : option (stream_thread * AudioPlayer) :=
  match st_pc t with
  | L134 =>
      match e with
      | EnvOk => Some (at_pc L135 (with_p HLive t), s)
      | EnvRaise => Some (at_pc L177 t, s)
      end
  | L135 =>
      match e, open_path s with
      | EnvOk, Some f => Some (at_pc L136 (with_file f t), s)
      | _, _ => Some (at_pc L177 t, s)
      end
  | L136 =>
      match e, open_path s with
      | EnvOk, Some f => Some (at_pc L137 (with_info f t), s)
      | _, _ => Some (at_pc L177 t, s)
      end
  | L137 =>
      match st_info t with
      | Some info =>
          Some (at_pc L138 t, set_audio_sample_rate (sf_samplerate info) s)
      | None => Some (at_pc L177 t, s)
      end
  | L138 =>
      match st_info t with
      | Some info => Some (at_pc L165 t, set_audio_frames (sf_frames info) s)
      | None => Some (at_pc L177 t, s)
      end
  | L165 =>
      match e with
      | EnvOk => Some (at_pc L171 t, s)
      | EnvRaise => Some (at_pc L177 t, s)
      end
  | L171 =>
      match e with
      | EnvOk => Some (at_pc (L172 CbWait) t, s)
      | EnvRaise => Some (at_pc L177 t, s)
      end
  | L172 CbWait =>
      if is_playback_unpaused s then Some (at_pc (L172 CbCheck) t, s)
      else None
  | L172 CbCheck =>
      if is_stopped s then Some (at_pc L174 t, s)
      else Some (at_pc (L172 CbLocked) t, s)
  | L172 CbLocked =>
      match st_file t with
      | Some file =>
          match callback_locked file (st_chunk_size t)
                  (mkCbState s (st_pos t) (st_log t)) with
          | (Some (_, paContinue), st') =>
              Some (at_pc (L172 CbWait) (with_cb (cb_pos st') (cb_log st') t),
                    cb_player st')
          | (_, st') =>
              Some (at_pc L174 (with_cb (cb_pos st') (cb_log st') t),
                    cb_player st')
          end
      | None => Some (at_pc L177 t, s)
      end
  | L174 => Some (at_pc L177 t, s)
  | L177 =>
      match st_p t with
      | HUnbound => Some (at_pc LDied t, s)
      | _ => Some (at_pc L178 (with_p HTerminated t), s)
      end
  | L178 => Some (at_pc L179 t, set_no_audio_loaded true s)
  | L179 => Some (at_pc LExit t, set_current_frame 0 s)
  | LExit => None
  | LDied => None
  end.

(** ** [start_audio_playback], statement by statement *)

Inductive ctrl_pc :=
| C117       (* self.is_stopped.set() *)
| C119       (* is_unpaused = self.is_playback_unpaused.is_set() *)
| C120       (* self.is_playback_unpaused.set() *)
| C122       (* self.no_audio_loaded.wait() *)
| C124       (* finally: if not is_unpaused: ...clear() *)
| C126       (* if audio_path is not None: self.audio_path = audio_path *)
| C129       (* self.no_audio_loaded.clear() *)
| C130       (* self.is_stopped.clear() *)
| C181       (* audio_playing_thread.start() *)
| CReturned.

Record controller := mkController {
  c_pc : ctrl_pc;
  c_audio_path : option String.string;
  c_chunk_size : Z;
  c_is_unpaused : bool
}.

Definition ctrl_at (pc : ctrl_pc) (c : controller) : controller :=
  mkController pc (c_audio_path c) (c_chunk_size c) (c_is_unpaused c).

(** A call that is about to run its first statement. *)
Definition start_call (audio_path : option String.string) (chunk_size : Z)
  : controller :=
  mkController C117 audio_path chunk_size false.

(** One statement of [start_audio_playback]: the caller's next state, the
    player and the thread it spawned, if any.  [None] at [C122] is the
    caller blocked on the barrier. *)
Definition controller_step (c : controller) (s : AudioPlayer)
  : option (controller * AudioPlayer * option stream_thread) :=
  match c_pc c with
  | C117 => Some (ctrl_at C119 c, set_stopped true s, None)
  | C119 =>
      Some (mkController C120 (c_audio_path c) (c_chunk_size c)
              (is_playback_unpaused s), s, None)
  | C120 => Some (ctrl_at C122 c, set_unpaused true s, None)
  | C122 =>
      if no_audio_loaded s then Some (ctrl_at C124 c, s, None) else None
  | C124 =>
      Some (ctrl_at C126 c,
            if negb (c_is_unpaused c) then set_unpaused false s else s, None)
  | C126 =>
      Some (ctrl_at C129 c,
            match c_audio_path c with
            | Some path => set_audio_path (Some path) s
            | None => s
            end, None)
  | C129 => Some (ctrl_at C130 c, set_no_audio_loaded false s, None)
  | C130 => Some (ctrl_at C181 c, set_stopped false s, None)
  | C181 =>
      Some (ctrl_at CReturned c, s, Some (new_stream_thread (c_chunk_size c)))
  | CReturned => None
  end.

(** ** The caller and the stream threads together *)

Record system := mkSystem {
  sys_player : AudioPlayer;
  sys_ctrl : controller;
  sys_threads : list stream_thread
}.

Fixpoint update_nth {A : Type} (i : nat) (x : A) (l : list A) : list A :=
  match l, i with
  | [], _ => []
  | _ :: t, O => x :: t
  | a :: t, S j => a :: update_nth j x t
  end.

(** What a step did: the caller ran the statement at [pc], or thread [i] ran
    the one at its [pc]. *)
Inductive event :=
| EvCtrl (pc : ctrl_pc)
| EvStream (i : nat) (pc : stream_pc).

Inductive step : system -> event -> system -> Prop :=
| step_ctrl : forall sys c' s' spawned,
    controller_step (sys_ctrl sys) (sys_player sys) = Some (c', s', spawned) ->
    step sys (EvCtrl (c_pc (sys_ctrl sys)))
      (mkSystem s' c'
         (sys_threads sys ++
            match spawned with Some t => [t] | None => [] end))
| step_stream : forall sys i e t t' s',
    nth_error (sys_threads sys) i = Some t ->
    stream_step e t (sys_player sys) = Some (t', s') ->
    step sys (EvStream i (st_pc t))
      (mkSystem s' (sys_ctrl sys) (update_nth i t' (sys_threads sys))).

(** Runs, with the events in the order they happened. *)
Inductive run : system -> list event -> system -> Prop :=
| run_nil : forall sys, run sys [] sys
| run_snoc : forall sys0 tr sys ev sys',
    run sys0 tr sys -> step sys ev sys' -> run sys0 (tr ++ [ev]) sys'.

(** A thread on its own, driven by a list of outcomes of its external
    calls; it stays where it is when it cannot move. *)
Fixpoint stream_run (es : list env) (t : stream_thread) (s : AudioPlayer)
  : stream_thread * AudioPlayer :=
  match es with
  | [] => (t, s)
  | e :: es' =>
      match stream_step e t s with
      | Some (t', s') => stream_run es' t' s'
      | None => (t, s)
      end
  end.

(** The caller on its own, for [n] statements, collecting what it spawns. *)
Fixpoint controller_run (n : nat) (c : controller) (s : AudioPlayer)
  : controller * AudioPlayer * list stream_thread :=
  match n with
  | O => (c, s, [])
  | S m =>
      match controller_step c s with
      | Some (c', s', spawned) =>
          let '(c'', s'', ts) := controller_run m c' s' in
          (c'', s'',
           match spawned with Some t => t :: ts | None => ts end)
      | None => (c, s, [])
      end
  end.

End Streaming.

(** A scheduler's choice of who moves next, and runs driven by a list of
    such choices. *)
Inductive choice :=
| ChCtrl
| ChStream (i : nat) (e : env).

Section Scheduling.

Variable integrated_loudness : Z -> R -> chunk -> meter_result.
Variable fs : String.string -> option SoundFile.

Definition sys_step (ch : choice) (sys : system) : option (event * system) :=
  match ch with
  | ChCtrl =>
      match controller_step (sys_ctrl sys) (sys_player sys) with
      | Some (c', s', spawned) =>
          Some (EvCtrl (c_pc (sys_ctrl sys)),
                mkSystem s' c'
                  (sys_threads sys ++
                     match spawned with Some t => [t] | None => [] end))
      | None => None
      end
  | ChStream i e =>
      match nth_error (sys_threads sys) i with
      | Some t =>
          match stream_step integrated_loudness fs e t (sys_player sys) with
          | Some (t', s') =>
              Some (EvStream i (st_pc t),
                    mkSystem s' (sys_ctrl sys)
                      (update_nth i t' (sys_threads sys)))
          | None => None
          end
      | None => None
      end
  end.

(** [None] when the schedule asks a thread to move that cannot. *)
Fixpoint sys_exec (chs : list choice) (tr : list event) (sys : system)
  : option (list event * system) :=
  match chs with
  | [] => Some (tr, sys)
  | ch :: chs' =>
      match sys_step ch sys with
      | Some (ev, sys') => sys_exec chs' (tr ++ [ev]) sys'
      | None => None
      end
  end.

End Scheduling.

(** ** Switching files while paused *)

(** A call of [start_audio_playback] about to run its first statement while
    one stream is active (its thread in the loop of line 172, the device
    handle live) and playback is paused. *)
Definition paused_switch (audio_path_arg : option String.string)
    (chunk_size : Z) (sys : system) : Prop :=
  sys_ctrl sys = start_call audio_path_arg chunk_size
  /\ is_playback_unpaused (sys_player sys) = false
  /\ is_stopped (sys_player sys) = false
  /\ no_audio_loaded (sys_player sys) = false
  /\ exists prior cb,
       sys_threads sys = [prior] /\ st_pc prior = L172 cb
       /\ st_p prior = HLive.

(** The statements of [start_audio_playback] in program order, and how many
    of them a call has run. *)
Definition program_order : list ctrl_pc :=
  [C117; C119; C120; C122; C124; C126; C129; C130; C181].

Definition ctrl_index (pc : ctrl_pc) : nat :=
  match pc with
  | C117 => 0 | C119 => 1 | C120 => 2 | C122 => 3 | C124 => 4
  | C126 => 5 | C129 => 6 | C130 => 7 | C181 => 8 | CReturned => 9
  end.

(** The caller's statements among the events of a run. *)
Definition ctrl_events (tr : list event) : list ctrl_pc :=
  flat_map (fun ev => match ev with EvCtrl pc => [pc] | EvStream _ _ => [] end)
    tr.

(** A thread that has run line 178. *)
Definition signalled (pc : stream_pc) : bool :=
  match pc with
  | L179 | LExit => true
  | _ => false
  end.

(** Where the prior stream can be during the switch, and where the new one
    can be while playback stays paused. *)
Definition prior_pc_ok (pc : stream_pc) : bool :=
  match pc with
  | L172 _ | L174 | L177 | L178 | L179 | LExit => true
  | _ => false
  end.

Definition parked_pc_ok (pc : stream_pc) : bool :=
  match pc with
  | L172 CbCheck | L172 CbLocked | L174 => false
  | _ => true
  end.

(** What holds of every state of a paused switch; [path0] is the path stored
    when the call began. *)
Record switch_inv (path0 audio_path_arg : option String.string)
    (sys : system) : Prop := mkSwitchInv {
  inv_local : c_is_unpaused (sys_ctrl sys) = false;
  inv_arg : c_audio_path (sys_ctrl sys) = audio_path_arg;
  inv_unpaused :
    is_playback_unpaused (sys_player sys)
    = match c_pc (sys_ctrl sys) with
      | C122 | C124 => true
      | _ => false
      end;
  inv_stopped :
    is_stopped (sys_player sys)
    = match c_pc (sys_ctrl sys) with
      | C117 | C181 | CReturned => false
      | _ => true
      end;
  inv_path :
    audio_path (sys_player sys)
    = if (6 <=? ctrl_index (c_pc (sys_ctrl sys)))%nat
      then match audio_path_arg with
           | Some path => Some path
           | None => path0
           end
      else path0;
  inv_threads :
    exists prior spawned,
      sys_threads sys = prior :: spawned
      /\ prior_pc_ok (st_pc prior) = true
      /\ st_p prior <> HUnbound
      /\ ((4 <=? ctrl_index (c_pc (sys_ctrl sys)))%nat = true ->
          signalled (st_pc prior) = true)
      /\ (st_pc prior = LExit -> current_frame (sys_player sys) = 0%Z)
      /\ match spawned with
         | [] =>
             c_pc (sys_ctrl sys) <> CReturned
             /\ no_audio_loaded (sys_player sys)
                = (if (ctrl_index (c_pc (sys_ctrl sys)) <=? 6)%nat
                   then signalled (st_pc prior) else false)
         | [new] =>
             c_pc (sys_ctrl sys) = CReturned
             /\ parked_pc_ok (st_pc new) = true
             /\ st_log new = []
             /\ no_audio_loaded (sys_player sys) = signalled (st_pc new)
         | _ => False
         end
}.

(** A bound on the steps a thread has left during the switch; a callback at
    the test of [is_stopped] goes on to one more chunk only if the flag is
    clear. *)
Definition thread_measure (stopped : bool) (pc : stream_pc) : nat :=
  match pc with
  | L134 => 13 | L135 => 12 | L136 => 11 | L137 => 10 | L138 => 9
  | L165 => 8 | L171 => 7
  | L172 CbWait => 6
  | L172 CbCheck => if stopped then 5 else 8
  | L172 CbLocked => 7
  | L174 => 4 | L177 => 3 | L178 => 2 | L179 => 1
  | LExit => 0 | LDied => 0
  end%nat.

Definition ctrl_measure (pc : ctrl_pc) : nat :=
  match pc with
  | CReturned => 0
  | _ => (9 - ctrl_index pc) + 14
  end%nat.

Definition switch_measure (sys : system) : nat :=
  (ctrl_measure (c_pc (sys_ctrl sys))
   + fold_right
       (fun t acc =>
          thread_measure (is_stopped (sys_player sys)) (st_pc t) + acc)
       0 (sys_threads sys))%nat.

(** ** Concrete data for the examples *)

Module Paths.
Import String.
Local Open Scope string_scope.
Definition a_wav : string := "a.wav".
Definition b_wav : string := "b.wav".
End Paths.

(** A player on which a file of 1000 frames at 44100 Hz has been loaded. *)
Definition loaded_player : AudioPlayer :=
  set_audio_path (Some Paths.a_wav)
    (set_audio_sample_rate 44100 (set_audio_frames 1000 (init_with_volume 1))).

(** A meter that reports -23 for every chunk. *)
Definition steady_meter : Z -> R -> chunk -> meter_result :=
  fun _ _ _ => MeterValue (-23).

(** A mono file of two frames. *)
Definition two_frames : SoundFile :=
  {| sf_data := [[0.5]; [-0.25]]; sf_channels := 1; sf_samplerate := 44100 |}.

(** A file system that holds [two_frames] under both example paths. *)
Definition two_files (path : String.string) : option SoundFile :=
  if String.eqb path Paths.a_wav then Some two_frames
  else if String.eqb path Paths.b_wav then Some two_frames
  else None.

(** A chunk of a float file whose samples leave the range of integer
    audio. *)
Definition loud_chunk : chunk := [[0]; [16]].

(** A player that has loaded [two_frames], and the same player with the
    cursor at the end of the file. *)
Definition small_player : AudioPlayer :=
  set_audio_path (Some Paths.a_wav)
    (set_audio_sample_rate 44100 (set_audio_frames 2 (init_with_volume 1))).

Definition small_player_at_end : AudioPlayer :=
  set_current_frame 2 small_player.

(** The first callback on [small_player]: both frames are read at once. *)
Definition first_chunk_result : option (option chunk * pa_status) * cb_state :=
  callback_locked steady_meter two_frames 2 (mkCbState small_player 0 []).

Definition first_chunk_out : chunk :=
  match fst first_chunk_result with
  | Some (Some out, _) => out
  | _ => []
  end.

(** The player a first [start_audio_playback] leaves behind when it spawns
    its thread. *)
Definition started_player : AudioPlayer :=
  snd (fst (controller_run 9 (start_call (Some Paths.a_wav) 2) (init_with_volume 1))).

(** The stream spawned on [started_player], run on [two_frames] until it
    has played the file to its end and left. *)
Definition played_to_end : stream_thread * AudioPlayer :=
  stream_run steady_meter two_files (repeat EnvOk 17) (new_stream_thread 2)
    started_player.

(** The same stream when creating the device handle fails. *)
Definition died_at_init : stream_thread * AudioPlayer :=
  stream_run steady_meter two_files [EnvRaise; EnvOk] (new_stream_thread 2)
    started_player.

(** File A is streaming, its callback parked in [wait()], playback paused,
    and [start_audio_playback] is called for file B. *)
Definition paused_on_a : system :=
  mkSystem
    (set_unpaused false (set_no_audio_loaded false
       (set_current_frame 2 small_player)))
    (start_call (Some Paths.b_wav) 2)
    [mkStreamThread (L172 CbWait) HLive (Some two_frames) (Some two_frames)
       2 2 []].

(** The next call, for file B, after that thread has ended. *)
Definition call_after_death
  : controller * AudioPlayer * list stream_thread :=
  controller_run 9 (start_call (Some Paths.b_wav) 2) (snd died_at_init).

(** A schedule for [paused_on_a]: the caller runs up to the barrier, the
    prior stream wakes, sees the stop request and leaves, the caller goes on
    and spawns the stream for file B, which starts up and parks in
    [wait()]. *)
Definition switch_schedule : list choice :=
  [ChCtrl; ChCtrl; ChCtrl;
   ChStream 0 EnvOk; ChStream 0 EnvOk; ChStream 0 EnvOk; ChStream 0 EnvOk;
   ChStream 0 EnvOk;
   ChCtrl; ChStream 0 EnvOk;
   ChCtrl; ChCtrl; ChCtrl; ChCtrl; ChCtrl;
   ChStream 1 EnvOk; ChStream 1 EnvOk; ChStream 1 EnvOk; ChStream 1 EnvOk;
   ChStream 1 EnvOk; ChStream 1 EnvOk; ChStream 1 EnvOk].

Definition switched : list event * system :=
  match sys_exec steady_meter two_files switch_schedule [] paused_on_a with
  | Some r => r
  | None => ([], paused_on_a)
  end.

(** * The rest of the player and its callers *)

Definition set_window_focused (b : bool) (s : AudioPlayer) : AudioPlayer :=
  mkAudioPlayer (volume s) (normalization_max s) (normalization_min s)
    (normalization_bias s) (audio_path s) (audio_channels s) (audio_frames s)
    (audio_sample_rate s) (is_playback_unpaused s) (is_stopped s)
    (no_audio_loaded s) b (display_frame_data s)
    (display_skip_rate s) (display_frame_chunk_ratio s) (current_frame s).

(** The window of [k] frames of a file that starts at frame [pos]. *)
Definition window (f : SoundFile) (pos k : Z) : chunk :=
  fst (sf_read f pos k).

(** The callback of lines 145-164 without its display branch: what is
    handed to the device. *)
Definition callback_audio
    (integrated_loudness : Z -> R -> chunk -> meter_result)
    (file : SoundFile) (frame_count : Z) (s : AudioPlayer)
  : option (option chunk * pa_status) :=
  match sf_seek file (current_frame s) with
  | None => None
  | Some pos =>
      let data := window file pos frame_count in
      match find_target_loudness integrated_loudness
              (set_current_frame (current_frame s + frame_count) s)
              default_params data with
      | None => None
      | Some target_loudness =>
          if (length data =? 0)%nat then Some (None, paComplete)
          else
            match normalize_peak (zero_fix data) target_loudness with
            | None => None
            | Some normalized =>
                Some (Some (scale (blend normalized (zero_fix data))
                              (volume s)), paContinue)
            end
      end
  end.

(** ** [UI_Widgets.ProgressBar] *)

Record ProgressBar := mkProgressBar {
  pb_thickness : R;
  pb_hover_thickness : R;
  pb_length : R;
  pb_position : R * R;
  pb_progress : R;
  pb_is_hovered : bool;
  pb_drag_tolerance : R;
  pb_vert_drag_tolerance : R;
  (* [on_progress_click]; the one callback this program registers acts on
     the player *)
  pb_on_progress_click : option (R -> AudioPlayer -> AudioPlayer)
}.

(** The [progress] setter: [self._progress = min(max(value, 0), 1)]. *)
Definition set_progress (value : R) (b : ProgressBar) : ProgressBar :=
  mkProgressBar (pb_thickness b) (pb_hover_thickness b) (pb_length b)
    (pb_position b) (py_min (py_max value 0) 1) (pb_is_hovered b)
    (pb_drag_tolerance b) (pb_vert_drag_tolerance b) (pb_on_progress_click b).

Definition set_is_hovered (h : bool) (b : ProgressBar) : ProgressBar :=
  mkProgressBar (pb_thickness b) (pb_hover_thickness b) (pb_length b)
    (pb_position b) (pb_progress b) h
    (pb_drag_tolerance b) (pb_vert_drag_tolerance b) (pb_on_progress_click b).

Definition Rleb (a b : R) : bool := if Rle_dec a b then true else false.

(** [ProgressBar.handle_mouse]: the bar, the player after the click callback,
    and the returned hover state.  [None] is the division by a zero
    [length]. *)
Definition pb_handle_mouse (mouse_position : R * R) (held_left : bool)
    (b : ProgressBar) (s : AudioPlayer)
  : option (ProgressBar * AudioPlayer * bool) :=
  let rx := fst mouse_position - fst (pb_position b) in
  let ry := snd mouse_position - snd (pb_position b) in
  if (Rleb (- pb_drag_tolerance b) rx
      && Rleb rx (pb_length b + pb_drag_tolerance b)
      && Rleb (- pb_vert_drag_tolerance b) ry
      && Rleb ry (pb_hover_thickness b + pb_vert_drag_tolerance b))%bool
  then
    let b1 := set_is_hovered true b in
    if held_left then
      if Req_dec_T (pb_length b) 0 then None
      else
        let b2 := set_progress (py_min (py_max (rx / pb_length b) 0) 1) b1 in
        match pb_on_progress_click b2 with
        | Some click => Some (b2, click (pb_progress b2) s, true)
        | None => Some (b2, s, true)
        end
    else Some (b1, s, true)
  else Some (set_is_hovered false b, s, false).

(** ** The wiring in [Main_player.py] *)

(** Line 164: [lambda progress: audio_player.seek(progress)]. *)
Definition on_progress_click (progress : R) (s : AudioPlayer) : AudioPlayer :=
  seek progress true s.

(** Lines 202-203: the progress bar follows the cursor once a file is
    loaded. *)
Definition show_playback_progress (s : AudioPlayer) (b : ProgressBar)
  : ProgressBar :=
  if (0 <? audio_frames s)%Z
  then set_progress (IZR (current_frame s) / IZR (audio_frames s)) b
  else b.

(** Line 212: [audio_player.set_volume(volume_bar.progress)]. *)
Definition apply_volume_bar (b : ProgressBar) (s : AudioPlayer) : AudioPlayer :=
  set_volume (pb_progress b) s.

Module Images.
Import String.
Local Open Scope string_scope.
Definition default : string := "default".
Definition hover : string := "hover".
Definition toggle : string := "toggle".
Definition hover_toggle : string := "hover toggle".
End Images.

(** Lines 28-39, [toggle_pause]: the player is toggled and the image of the
    playback button is swapped with its counterpart. *)
Definition main_toggle_pause (display_image : String.string) (s : AudioPlayer)
  : String.string * AudioPlayer :=
  let s' := toggle_pause s in
  if String.eqb display_image Images.default then (Images.toggle, s')
  else if String.eqb display_image Images.hover then (Images.hover_toggle, s')
  else if String.eqb display_image Images.toggle then (Images.default, s')
  else if String.eqb display_image Images.hover_toggle then (Images.hover, s')
  else (display_image, s').

(** ** [YoutubeManager] *)

Module Modes.
Import String.
Local Open Scope string_scope.
Definition full : string := "full".
Definition audio : string := "audio".
Definition video : string := "video".
End Modes.

Record YoutubeManager := mkYoutubeManager {
  supported_modes : list String.string;
  mode : String.string;
  download_progress : R
}.

Definition ym_set_mode (target_mode : String.string) (m : YoutubeManager)
  : YoutubeManager :=
  if existsb (String.eqb target_mode) (supported_modes m)
  then mkYoutubeManager (supported_modes m) target_mode (download_progress m)
  else m.

(** [YoutubeManager.__init__] *)
Definition ym_init (target_mode : String.string) : YoutubeManager :=
  ym_set_mode target_mode
    (mkYoutubeManager [Modes.full; Modes.audio; Modes.video] Modes.full 1).

(** [create_youtube_streams]: which of the two streams the library found are
    kept. *)
Definition create_youtube_streams {S : Type} (first_audio first_video : option S)
    (m : YoutubeManager) : option S * option S :=
  (if (String.eqb (mode m) Modes.full || String.eqb (mode m) Modes.audio)%bool
   then first_audio else None,
   if (String.eqb (mode m) Modes.full || String.eqb (mode m) Modes.video)%bool
   then first_video else None).

(** [progress_callback]: [None] is the division by a zero [filesize]. *)
Definition progress_callback (filesize bytes_remaining : Z)
    (m : YoutubeManager) : option YoutubeManager :=
  if (filesize =? 0)%Z then None
  else
    Some (mkYoutubeManager (supported_modes m) (mode m)
            (IZR (filesize - bytes_remaining) / IZR filesize)).

Definition check_download_progress (m : YoutubeManager) : R :=
  download_progress m.

(** ** [UI_Widgets.ButtonList.sequential_toggle] *)

(** The buttons in the order of [sorted_keys]: the key (a file path) and the
    displayed image of each.  [sorted_keys] is [sorted(button_dict.keys())]
    and every key has a button of its own, so no two entries share a
    button. *)
Definition sorted_buttons := list (String.string * String.string).

Fixpoint find_toggled (i : nat) (bs : sorted_buttons) : option nat :=
  match bs with
  | [] => None
  | (_, image) :: rest =>
      if String.eqb image Images.toggle then Some i
      else find_toggled (S i) rest
  end.

Definition set_image (i : nat) (image : String.string) (bs : sorted_buttons)
  : sorted_buttons :=
  match nth_error bs i with
  | Some (key, _) => update_nth i (key, image) bs
  | None => bs
  end.

(** The buttons after the call and the key handed to [on_button_toggle];
    [None] is the [IndexError] of [sorted_buttons[0]] on an empty list. *)
Definition sequential_toggle (bs : sorted_buttons)
  : option (sorted_buttons * String.string) :=
  match find_toggled 0 bs with
  | Some index =>
      let next_index := Nat.modulo (index + 1) (length bs) in
      match nth_error bs next_index with
      | Some (next_organizer, _) =>
          Some (set_image next_index Images.toggle
                  (set_image index Images.default bs), next_organizer)
      | None => None
      end
  | None =>
      match bs with
      | (first_organizer, _) :: _ =>
          Some (set_image 0%nat Images.toggle bs, first_organizer)
      | [] => None
      end
  end.

(** Lines 204-209 of the main loop with shuffling off: when nothing plays and
    a file has been loaded before, the next button is toggled and its
    callback, [start_audio_playback(path, chunk_size=2048)] (line 162), runs.
    The result is the buttons, the player and the threads spawned; the outer
    [None] is the [IndexError] of an empty button list. *)
Definition auto_advance (bs : sorted_buttons) (s : AudioPlayer)
  : option (sorted_buttons * AudioPlayer * list stream_thread) :=
  if (no_audio_loaded s && (0 <? audio_frames s)%Z)%bool then
    match sequential_toggle bs with
    | Some (bs', key) =>
        let '(_, s', spawned) :=
          controller_run 9 (start_call (Some key) 2048) s in
        Some (bs', s', spawned)
    | None => None
    end
  else Some (bs, s, []).

(** The keys of the buttons that show the [toggle] image. *)
Definition toggled_keys (bs : sorted_buttons) : list String.string :=
  map fst (filter (fun b => String.eqb (snd b) Images.toggle) bs).

(** A schedule in which the caller passes the barrier and returns, the new
    thread runs up to and including its first callback, and only then the
    thread that is leaving resets the cursor. *)
Definition late_reset_schedule : list choice :=
  ChStream 0 EnvOk
  :: repeat ChCtrl 6 ++ repeat (ChStream 1 EnvOk) 10 ++ [ChStream 0 EnvOk].

(** A meter that fails on a block size of 0, as the metering library's does
    (it computes its number of blocks by a division by the block size), and
    reports -23 otherwise. *)
Definition zero_block_meter : Z -> R -> chunk -> meter_result :=
  fun _ block_size _ =>
    if Req_dec_T block_size 0 then MeterRaise else MeterValue (-23).

(** A player built with [AudioPlayer(volume=5)] that has loaded
    [two_frames], and its first callback. *)
Definition loud_player : AudioPlayer :=
  set_audio_path (Some Paths.a_wav)
    (set_audio_sample_rate 44100 (set_audio_frames 2 (init_with_volume 5))).

Definition loud_player_result : option (option chunk * pa_status) * cb_state :=
  callback_locked steady_meter two_frames 2 (mkCbState loud_player 0 []).

Definition loud_player_out : chunk :=
  match fst loud_player_result with
  | Some (Some out, _) => out
  | _ => []
  end.

(** A restart while a file plays: the caller requests the stop and waits,
    the playing thread sees the request and leaves as far as line 178, the
    caller passes the barrier and spawns the new thread, which runs up to
    and including its first callback, and only then the leaving thread
    resets the cursor at line 180. *)
Definition restart_race_schedule : list choice :=
  repeat ChCtrl 3 ++ repeat (ChStream 0 EnvOk) 5 ++ repeat ChCtrl 6
  ++ repeat (ChStream 1 EnvOk) 10 ++ [ChStream 0 EnvOk].

(** [two_frames] plays with a chunk size of 1, unpaused, the first frame
    played, and [start_audio_playback(None, chunk_size=1)] is called. *)
Definition playing_player : AudioPlayer :=
  set_no_audio_loaded false (set_current_frame 1 small_player).

Definition playing_thread : stream_thread :=
  mkStreamThread (L172 CbWait) HLive (Some two_frames) (Some two_frames)
    1 1 [].
(** * Properties *)

(** ** Numeric built-ins *)

Lemma py_max_Rmax (a b : R) : py_max a b = Rmax a b.
Proof.
  unfold py_max, Rmax.
  destruct (Rlt_dec a b), (Rle_dec a b); try reflexivity; lra.
Qed.

Lemma py_min_Rmin (a b : R) : py_min a b = Rmin a b.
Proof.
  unfold py_min, Rmin.
  destruct (Rlt_dec b a), (Rle_dec a b); try reflexivity; lra.
Qed.

Lemma py_clamp_bounds (lo hi v : R) :
  lo <= hi -> lo <= py_min (py_max lo v) hi <= hi.
Proof.
  intros Hlh. unfold py_min, py_max.
  destruct (Rlt_dec lo v); destruct (Rlt_dec hi _); lra.
Qed.

Lemma Int_part_IZR (z : Z) : Int_part (IZR z) = z.
Proof.
  destruct (base_Int_part (IZR z)) as [Hlo Hhi].
  assert (H1 : (Int_part (IZR z) <= z)%Z) by (apply le_IZR; exact Hlo).
  assert (H2 : (z < Int_part (IZR z) + 1)%Z).
  { apply lt_IZR. rewrite plus_IZR. lra. }
  lia.
Qed.

Lemma py_int_IZR (z : Z) : py_int (IZR z) = z.
Proof.
  unfold py_int. destruct (Rle_dec 0 (IZR z)) as [_ | Hneg].
  - apply Int_part_IZR.
  - rewrite <- opp_IZR, Int_part_IZR. lia.
Qed.

Lemma py_int_range (x : R) (n : Z) :
  0 <= x <= IZR n -> (0 <= py_int x <= n)%Z.
Proof.
  intros [Hlo Hhi]. unfold py_int.
  destruct (Rle_dec 0 x) as [_ | Hneg]; [| lra].
  destruct (base_Int_part x) as [Hfloor Hfrac].
  split.
  - assert (H : (-1 < Int_part x)%Z) by (apply lt_IZR; lra). lia.
  - apply le_IZR. lra.
Qed.

(** ** Volume *)

Lemma set_volume_in_range (v : R) (s : AudioPlayer) :
  0 <= volume (set_volume v s) <= 1.
Proof. simpl. apply py_clamp_bounds. lra. Qed.

Lemma set_volume_below (s : AudioPlayer) : volume (set_volume (-1) s) = 0.
Proof.
  simpl. unfold py_min, py_max.
  destruct (Rlt_dec 0 (-1)); [lra |]. destruct (Rlt_dec 1 0); [lra | reflexivity].
Qed.

Lemma set_volume_above (s : AudioPlayer) : volume (set_volume 5 s) = 1.
Proof.
  simpl. unfold py_min, py_max.
  destruct (Rlt_dec 0 5); [| lra]. destruct (Rlt_dec 1 5); [reflexivity | lra].
Qed.

(** C7: the class describes [volume] as lying between 0 and 1 and
    [set_volume] clamps into that range, yet the constructor stores its
    [volume] argument as given: [AudioPlayer(volume=5)] holds the volume 5,
    which is outside [0, 1]. *)
Theorem constructor_stores_volume_unclamped :
  volume (init_with_volume 5) = 5
  /\ ~ (0 <= volume (init_with_volume 5) <= 1)
  /\ volume (set_volume 5 (init_with_volume 5)) = 1.
Proof.
  split; [reflexivity |]. split.
  - simpl. lra.
  - apply set_volume_above.
Qed.

(** ** Pause controls *)

Lemma pause_audio_unloaded (s : AudioPlayer) :
  audio_frames s = 0%Z -> pause_audio s = s.
Proof. intros H. unfold pause_audio. rewrite H. reflexivity. Qed.

Lemma unpause_audio_unloaded (s : AudioPlayer) :
  audio_frames s = 0%Z -> unpause_audio s = s.
Proof. intros H. unfold unpause_audio. rewrite H. reflexivity. Qed.

Lemma toggle_pause_unloaded (s : AudioPlayer) :
  audio_frames s = 0%Z -> toggle_pause s = s.
Proof.
  intros H. unfold toggle_pause.
  destruct (is_playback_unpaused s);
    [apply pause_audio_unloaded | apply unpause_audio_unloaded]; exact H.
Qed.

Lemma pause_audio_idempotent (s : AudioPlayer) :
  pause_audio (pause_audio s) = pause_audio s.
Proof.
  unfold pause_audio. destruct (0 <? audio_frames s)%Z eqn:E; simpl.
  - rewrite E. reflexivity.
  - rewrite E. reflexivity.
Qed.

(** C9: with no file loaded ([audio_frames = 0]) any sequence of
    [pause_audio], [unpause_audio] and [toggle_pause] calls leaves the
    player, and so the unpaused signal, as it was; and on any player two
    [pause_audio] calls in a row leave the state one call leaves. *)
Theorem pause_controls_noop_unloaded_and_idempotent :
  forall (s : AudioPlayer) (cs : list pause_command) (s' : AudioPlayer),
    audio_frames s = 0%Z ->
    run_pause_commands cs s = s
    /\ is_playback_unpaused (run_pause_commands cs s) = is_playback_unpaused s
    /\ pause_audio (pause_audio s') = pause_audio s'.
Proof.
  intros s cs s' H.
  assert (Hrun : run_pause_commands cs s = s).
  { unfold run_pause_commands. induction cs as [| c cs IH]; simpl.
    - reflexivity.
    - replace (run_pause_command c s) with s; [exact IH |].
      destruct c; simpl; symmetry;
        [apply pause_audio_unloaded | apply unpause_audio_unloaded
         | apply toggle_pause_unloaded]; exact H. }
  rewrite Hrun. split; [reflexivity |]. split; [reflexivity |].
  apply pause_audio_idempotent.
Qed.

Lemma pause_controls_noop_unloaded_and_idempotent_witness :
  audio_frames (init_with_volume 1) = 0%Z
  /\ run_pause_commands [CmdPause; CmdUnpause; CmdToggle] (init_with_volume 1)
     = init_with_volume 1
  /\ is_playback_unpaused
       (run_pause_commands [CmdPause; CmdUnpause; CmdToggle]
          (init_with_volume 1))
     = is_playback_unpaused (init_with_volume 1)
  /\ pause_audio (pause_audio loaded_player) = pause_audio loaded_player.
Proof.
  split; [reflexivity |].
  apply (pause_controls_noop_unloaded_and_idempotent (init_with_volume 1)
           [CmdPause; CmdUnpause; CmdToggle] loaded_player).
  reflexivity.
Defined.

(** ** Signal processing *)

Lemma py_pow_nonneg (x y : R) : 0 <= py_pow x y.
Proof.
  unfold py_pow. destruct (Req_dec_T x 0); [destruct (Req_dec_T y 0); lra |].
  unfold Rpower. left. apply exp_pos.
Qed.

Lemma py_pow_ratio_le_1 (a e f : R) :
  0 <= a <= e -> 0 < e -> 0 < f -> py_pow a f * py_pow e (- f) <= 1.
Proof.
  intros [Ha Hae] He Hf. unfold py_pow.
  destruct (Req_dec_T e 0) as [-> | _]; [lra |].
  destruct (Req_dec_T a 0) as [_ | Hnz].
  - destruct (Req_dec_T f 0); [lra |]. rewrite Rmult_0_l. lra.
  - rewrite Rpower_Ropp.
    assert (Hpe : 0 < Rpower e f) by (unfold Rpower; apply exp_pos).
    assert (Hle : Rpower a f <= Rpower e f).
    { apply Rle_Rpower_l; lra. }
    apply (Rmult_le_reg_r (Rpower e f)); [exact Hpe |].
    rewrite Rmult_assoc, Rinv_l by lra. lra.
Qed.

Lemma py_pow_ratio_gt_1 (a e f : R) :
  0 < e < a -> 0 < f -> 1 < py_pow a f * py_pow e (- f).
Proof.
  intros [He Hea] Hf. unfold py_pow.
  destruct (Req_dec_T e 0) as [-> | _]; [lra |].
  destruct (Req_dec_T a 0) as [-> | _]; [lra |].
  rewrite Rpower_Ropp.
  assert (Hpe : 0 < Rpower e f) by (unfold Rpower; apply exp_pos).
  assert (Hlt : Rpower e f < Rpower a f) by (apply Rlt_Rpower_l; lra).
  apply (Rmult_lt_reg_r (Rpower e f)); [exact Hpe |].
  rewrite Rmult_assoc, Rinv_l by lra. lra.
Qed.

Lemma np_std_nonneg (l : list R) : 0 <= np_std l.
Proof. unfold np_std. apply sqrt_pos. Qed.

Lemma audio_std_nonneg (data : chunk) : 0 <= audio_std data.
Proof. apply np_std_nonneg. Qed.

Lemma np_sum_bounds (lo hi : R) (l : list R) :
  Forall (fun x => lo <= x <= hi) l ->
  INR (length l) * lo <= np_sum l <= INR (length l) * hi.
Proof.
  induction 1 as [| x l Hx _ IH].
  - simpl. lra.
  - change (length (x :: l)) with (S (length l)). rewrite S_INR.
    simpl. lra.
Qed.

Lemma np_mean_bounds (lo hi : R) (l : list R) :
  lo <= 0 <= hi ->
  Forall (fun x => lo <= x <= hi) l -> lo <= np_mean l <= hi.
Proof.
  intros H0 Hall. unfold np_mean. destruct l as [| a l].
  - simpl. unfold Rdiv. rewrite Rinv_0, Rmult_0_r. exact H0.
  - assert (Hn : 0 < INR (length (a :: l))) by (apply lt_0_INR; simpl; lia).
    destruct (np_sum_bounds lo hi _ Hall) as [Hlo Hhi].
    split.
    + apply (Rmult_le_reg_r (INR (length (a :: l)))); [exact Hn |].
      unfold Rdiv. rewrite Rmult_assoc, Rinv_l by lra. lra.
    + apply (Rmult_le_reg_r (INR (length (a :: l)))); [exact Hn |].
      unfold Rdiv. rewrite Rmult_assoc, Rinv_l by lra. lra.
Qed.

(** Samples between -1 and 1, the range of decoded integer audio, have an
    amplitude deviation of at most 1. *)
Lemma audio_std_unit_range (data : chunk) :
  Forall (fun x => -1 <= x <= 1) (samples data) -> audio_std data <= 1.
Proof.
  intros Hall. unfold audio_std, np_std.
  set (l := map Rabs (samples data)).
  assert (Hl : Forall (fun x => 0 <= x <= 1) l).
  { unfold l. apply Forall_forall. intros y Hy.
    apply in_map_iff in Hy. destruct Hy as (x & <- & Hx).
    rewrite Forall_forall in Hall. specialize (Hall x Hx).
    split; [apply Rabs_pos |]. apply Rabs_le. exact Hall. }
  assert (Hm : 0 <= np_mean l <= 1) by (apply np_mean_bounds; [lra | exact Hl]).
  rewrite <- sqrt_1. apply sqrt_le_1_alt.
  apply (np_mean_bounds 0 1); [lra |].
  apply Forall_forall. intros y Hy. apply in_map_iff in Hy.
  destruct Hy as (x & <- & Hx). rewrite Forall_forall in Hl.
  specialize (Hl x Hx).
  assert (Hd : Rabs (x - np_mean l) <= 1) by (apply Rabs_le; lra).
  pose proof (Rabs_pos (x - np_mean l)) as Hp.
  split; [nra | nra].
Qed.

Lemma fold_left_Rmax_ge_init (l : list R) (a : R) : a <= fold_left Rmax l a.
Proof.
  revert a. induction l as [| x l IH]; intros a; simpl.
  - lra.
  - apply Rle_trans with (Rmax a x); [apply Rmax_l | apply IH].
Qed.

Lemma fold_left_Rmax_ge_elem (l : list R) (a x : R) :
  In x l -> x <= fold_left Rmax l a.
Proof.
  revert a. induction l as [| y l IH]; intros a Hin; simpl.
  - destruct Hin.
  - destruct Hin as [-> | Hin].
    + apply Rle_trans with (Rmax a x);
        [apply Rmax_r | apply fold_left_Rmax_ge_init].
    + apply IH. exact Hin.
Qed.

Lemma np_max_upper (l : list R) (m x : R) :
  np_max l = Some m -> In x l -> x <= m.
Proof.
  destruct l as [| a t]; simpl; [discriminate |].
  intros [= <-] [<- | Hin].
  - apply fold_left_Rmax_ge_init.
  - apply fold_left_Rmax_ge_elem. exact Hin.
Qed.

Lemma zero_fix_nonzero (data : chunk) (x : R) :
  In x (samples (zero_fix data)) -> x <> 0.
Proof.
  unfold samples, zero_fix. intros Hin.
  apply in_concat in Hin. destruct Hin as (fr & Hfr & Hx).
  apply in_map_iff in Hfr. destruct Hfr as (fr0 & <- & _).
  apply in_map_iff in Hx. destruct Hx as (y & <- & _).
  destruct (Req_dec_T y 0); lra.
Qed.

Lemma peak_scale_pos (target : R) : 0 < peak_scale target.
Proof. unfold peak_scale, Rpower. apply exp_pos. Qed.

Lemma zip_with_map_same {A B : Type} (f : B -> A -> B) (g : A -> B)
    (l : list A) :
  zip_with f (map g l) l = map (fun x => f (g x) x) l.
Proof. induction l as [| a l IH]; simpl; [| rewrite IH]; reflexivity. Qed.

Lemma blend_of_scaled (gain : R) (data : chunk) :
  blend (map (map (fun x => gain * x)) data) data
  = map (map (fun x => gain * x * 0.9 + 0.1 * x)) data.
Proof.
  unfold blend. induction data as [| fr data IH]; simpl; [reflexivity |].
  rewrite IH, zip_with_map_same. reflexivity.
Qed.

Lemma Forall2_map_same {A B : Type} (P : B -> A -> Prop) (h : A -> B)
    (l : list A) :
  (forall x, In x l -> P (h x) x) -> Forall2 P (map h l) l.
Proof.
  induction l as [| a l IH]; simpl; intros H; constructor.
  - apply H. left. reflexivity.
  - apply IH. intros x Hx. apply H. right. exact Hx.
Qed.

(** After peak normalization no sample is larger in magnitude than the peak
    scale of the target, provided no sample of the data is an exact zero. *)
Lemma normalize_peak_spec (data : chunk) (target : R) (normalized : chunk) :
  normalize_peak data target = Some normalized ->
  (forall x, In x (samples data) -> x <> 0) ->
  exists gain,
    normalized = map (map (fun x => gain * x)) data
    /\ forall x, In x (samples data) -> Rabs (gain * x) <= peak_scale target.
Proof.
  unfold normalize_peak. intros H Hnz.
  destruct (np_max (map Rabs (samples data))) as [peak |] eqn:Epeak;
    [| discriminate].
  injection H as <-. eexists. split; [reflexivity |].
  intros x Hx.
  assert (Hle : Rabs x <= peak).
  { apply (np_max_upper _ _ _ Epeak). apply in_map. exact Hx. }
  assert (Hxpos : 0 < Rabs x) by (apply Rabs_pos_lt; apply Hnz; exact Hx).
  assert (Hpeak : 0 < peak) by lra.
  pose proof (peak_scale_pos target) as HP.
  rewrite Rabs_mult. unfold Rdiv. rewrite Rabs_mult.
  rewrite (Rabs_pos_eq (peak_scale target)) by lra.
  rewrite Rabs_inv, (Rabs_pos_eq peak) by lra.
  rewrite Rmult_assoc.
  rewrite <- (Rmult_1_r (peak_scale target)) at 2.
  apply Rmult_le_compat_l; [lra |].
  assert (Hinv : 0 < / peak) by (apply Rinv_0_lt_compat; lra).
  assert (H1 : / peak * Rabs x <= / peak * peak)
    by (apply Rmult_le_compat_l; lra).
  rewrite Rinv_l in H1 by lra. exact H1.
Qed.

(** ** The callback *)

Arguments sf_read : simpl never.
Arguments sf_seek : simpl never.
Arguments zero_fix : simpl never.
Arguments normalize_peak : simpl never.
Arguments py_slice_step : simpl never.
Arguments find_target_loudness : simpl never.

Lemma same_but_display_refl (s : AudioPlayer) : same_but_display s s.
Proof. destruct s; reflexivity. Qed.

Lemma same_but_display_set (d : option chunk) (s : AudioPlayer) :
  same_but_display s (set_display_frame_data d s).
Proof. reflexivity. Qed.

Lemma same_but_display_fields (s s' : AudioPlayer) :
  same_but_display s s' ->
  current_frame s' = current_frame s /\ volume s' = volume s
  /\ audio_path s' = audio_path s /\ audio_frames s' = audio_frames s
  /\ audio_sample_rate s' = audio_sample_rate s
  /\ is_playback_unpaused s' = is_playback_unpaused s
  /\ is_stopped s' = is_stopped s /\ no_audio_loaded s' = no_audio_loaded s.
Proof. intros H. rewrite H. simpl. repeat split. Qed.

Section CallbackFacts.

Variable integrated_loudness : Z -> R -> chunk -> meter_result.

(** The look-ahead never raises, adds no step of its own and touches only
    the display buffer. *)
Lemma display_update_spec (file : SoundFile) (fc : Z) (target : R)
    (st : cb_state) :
  exists st',
    display_update file fc target st = (Some tt, st')
    /\ cb_log st' = cb_log st
    /\ same_but_display (cb_player st) (cb_player st').
Proof.
  unfold display_update, cb_bind, cb_get, cb_read.
  destruct (sf_read file (cb_pos st)
              (display_frame_chunk_ratio (cb_player st) * fc)%Z) as [d pos'].
  destruct (py_slice_step (display_skip_rate (cb_player st)) d) as [sliced |].
  - destruct (normalize_peak (zero_fix sliced) target) as [n |].
    + eexists. split; [reflexivity |]. simpl. split; [reflexivity |].
      apply same_but_display_set.
    + eexists. split; [reflexivity |]. simpl. split; [reflexivity |].
      apply same_but_display_refl.
  - eexists. split; [reflexivity |]. simpl. split; [reflexivity |].
    apply same_but_display_refl.
Qed.

(** A refused seek is an exception before anything else happens. *)
Lemma callback_locked_seek_refused (file : SoundFile) (fc : Z) (st : cb_state) :
  sf_seek file (current_frame (cb_player st)) = None ->
  callback_locked integrated_loudness file fc st
  = (None, mkCbState (cb_player st) (cb_pos st)
             (cb_log st ++ [OpSeek (current_frame (cb_player st))])).
Proof.
  intros H. unfold callback_locked, cb_bind, cb_get, cb_tell, cb_seek.
  simpl. rewrite H. reflexivity.
Qed.


Lemma callback_locked_result (file : SoundFile) (fc : Z) (st : cb_state) :
  sf_seek file (current_frame (cb_player st)) <> None ->
  locked_result integrated_loudness file fc st
    (callback_locked integrated_loudness file fc st).
Proof.
  intros Hseek.
  unfold callback_locked, cb_bind, cb_get, cb_tell, cb_seek, cb_modify,
    cb_read, cb_lift, cb_ret, cb_raise.
  cbn [cb_player cb_pos cb_log].
  destruct (sf_seek file (current_frame (cb_player st))) as [pos |] eqn:Eseek;
    [| congruence].
  assert (Hpos : pos = current_frame (cb_player st)).
  { unfold sf_seek in Eseek.
    destruct (_ && _)%bool; congruence. }
  subst pos. cbn [cb_player cb_pos cb_log].
  destruct (sf_read file (current_frame (cb_player st)) fc) as [data pos1] eqn:Erd.
  cbn [cb_player cb_pos cb_log].
  destruct (find_target_loudness integrated_loudness _ default_params data)
    as [target |] eqn:Eft; simpl.
  - destruct (length (zero_fix data) =? 0)%nat eqn:Elen; simpl.
    + assert (Hd : data = []).
      { apply Nat.eqb_eq in Elen. unfold zero_fix in Elen.
        rewrite length_map in Elen. destruct data; [reflexivity | discriminate]. }
      repeat rewrite <- app_assoc. simpl.
      pose proof (locked_end_of_file integrated_loudness file fc st target) as L.
      cbv zeta in L. rewrite Erd in L. cbn [fst snd] in L. subst data.
      apply L; [exact Eft | reflexivity].
    + assert (Hd : data <> []).
      { intros ->. discriminate. }
      set (s1 := set_current_frame (current_frame (cb_player st) + fc)
                   (cb_player st)) in *.
      pose proof (locked_continue integrated_loudness file fc st target) as L.
      cbv zeta in L. rewrite Erd in L. cbn [fst snd] in L. fold s1 in L.
      destruct (is_window_focused (cb_player st)) eqn:Efoc; simpl.
      * match goal with
        | |- context [display_update file fc target ?x] =>
            destruct (display_update_spec file fc target x)
              as (st' & Hdu & Hlog & Hsame)
        end.
        rewrite Hdu. simpl in Hlog, Hsame. destruct st' as [s2 pos2 log2].
        simpl in *. subst log2. repeat rewrite <- app_assoc. simpl.
        destruct (normalize_peak (zero_fix data) target) as [n |] eqn:En; simpl.
        -- apply (L s2 pos2 [OpDisplay]); auto; try (unfold s1; simpl; rewrite Efoc); reflexivity.
        -- apply (L s2 pos2 [OpDisplay]); auto; try (unfold s1; simpl; rewrite Efoc); reflexivity.
      * repeat rewrite <- app_assoc. simpl.
        destruct (normalize_peak (zero_fix data) target) as [n |] eqn:En; simpl.
        -- apply (L s1 pos1 []); auto using same_but_display_refl;
             try (unfold s1; simpl; rewrite Efoc); reflexivity.
        -- apply (L s1 pos1 []); auto using same_but_display_refl;
             try (unfold s1; simpl; rewrite Efoc); reflexivity.
  - repeat rewrite <- app_assoc. simpl.
    pose proof (locked_meter_raises integrated_loudness file fc st) as L.
    cbv zeta in L. rewrite Erd in L. cbn [fst snd] in L. apply L. exact Eft.
Qed.

Lemma callback_locked_advances (file : SoundFile) (fc : Z) (st : cb_state) :
  sf_seek file (current_frame (cb_player st)) <> None ->
  current_frame
    (cb_player (snd (callback_locked integrated_loudness file fc st)))
  = (current_frame (cb_player st) + fc)%Z.
Proof.
  intros Hseek.
  destruct (callback_locked_result file fc st Hseek)
    as [s1 rd _ | target s1 rd _ _ | target s2 pos2 shown res s1 rd _ _ Hsame _ _];
    simpl; try reflexivity.
  apply same_but_display_fields in Hsame.
  destruct Hsame as (Hcf & _). rewrite Hcf. reflexivity.
Qed.

(** C2, as the code has it: once a file is loaded, [seek] stores the
    truncated target as computed, without clamping; the stored cursor lies
    in [0, audio_frames] when the request does (a percentage between 0 and
    1, a frame index between 0 and [audio_frames]); and a callback whose
    seek is accepted advances the cursor by exactly [frame_count]. *)
Theorem seek_and_callback_move_cursor_unclamped :
  forall (s : AudioPlayer) (position : R) (percentage : bool)
         (file : SoundFile) (frame_count : Z) (st : cb_state),
    (0 < audio_frames s)%Z ->
    sf_seek file (current_frame (cb_player st)) <> None ->
    current_frame (seek position percentage s)
    = (if percentage then py_int (IZR (audio_frames s) * position)
       else py_int position)
    /\ audio_frames (seek position percentage s) = audio_frames s
    /\ (percentage = true -> 0 <= position <= 1 ->
        (0 <= current_frame (seek position percentage s) <= audio_frames s)%Z)
    /\ (percentage = false -> 0 <= position <= IZR (audio_frames s) ->
        (0 <= current_frame (seek position percentage s) <= audio_frames s)%Z)
    /\ current_frame
         (cb_player
            (snd (callback_locked integrated_loudness file frame_count st)))
       = (current_frame (cb_player st) + frame_count)%Z.
Proof.
  intros s position percentage file fc st Hloaded Hseek.
  assert (Hlt : (0 <? audio_frames s)%Z = true) by (apply Z.ltb_lt; exact Hloaded).
  assert (Hcf : current_frame (seek position percentage s)
                = (if percentage then py_int (IZR (audio_frames s) * position)
                   else py_int position)).
  { unfold seek. rewrite Hlt. destruct percentage; reflexivity. }
  split; [exact Hcf |]. split.
  { unfold seek. rewrite Hlt. destruct percentage; reflexivity. }
  split; [| split].
  - intros -> Hpos. rewrite Hcf. apply py_int_range.
    assert (Hn : 0 < IZR (audio_frames s)) by (apply IZR_lt; exact Hloaded).
    split; nra.
  - intros -> Hpos. rewrite Hcf. apply py_int_range. exact Hpos.
  - apply callback_locked_advances. exact Hseek.
Qed.

(** The order of the steps after an accepted seek: the callback reads the
    window, applies the target-loudness computation to the chunk as read,
    and only then replaces zeros and tests for an empty read.  An exception
    from the loudness computation ends the invocation there. *)
Lemma callback_steps_in_order :
  forall (file : SoundFile) (frame_count : Z) (st : cb_state),
    sf_seek file (current_frame (cb_player st)) <> None ->
    let cf := current_frame (cb_player st) in
    let data := fst (sf_read file cf frame_count) in
    let s1 := set_current_frame (cf + frame_count) (cb_player st) in
    let result := callback_locked integrated_loudness file frame_count st in
    exists rest,
      cb_log (snd result)
      = cb_log st ++ [OpSeek cf; OpAdvance frame_count; OpRead data;
                      OpTargetLoudness data] ++ rest
      /\ (find_target_loudness integrated_loudness s1 default_params data = None ->
          rest = [] /\ fst result = None)
      /\ (forall target,
             find_target_loudness integrated_loudness s1 default_params data
             = Some target ->
             exists rest',
               rest = OpZeroFix :: OpEmptyCheck (length data =? 0)%nat :: rest').
Proof.
  intros file fc st Hseek. cbv zeta.
  destruct (callback_locked_result file fc st Hseek)
    as [s1 rd Hft | target s1 rd Hft Hempty
        | target s2 pos2 shown res s1 rd Hft Hne Hsame Hshown Hres];
    subst s1 rd; cbn [fst snd cb_log].
  - exists []. split; [reflexivity |]. split.
    + intros _. split; reflexivity.
    + intros t Ht. rewrite Ht in Hft. discriminate.
  - exists [OpZeroFix; OpEmptyCheck true]. split; [reflexivity |]. split.
    + intros Hn. rewrite Hn in Hft. discriminate.
    + intros t Ht. exists []. rewrite Hempty. reflexivity.
  - eexists. split; [reflexivity |]. split.
    + intros Hn. rewrite Hn in Hft. discriminate.
    + intros t Ht.
      assert (Hlen : (length (fst (sf_read file (current_frame (cb_player st))
                                     fc)) =? 0)%nat = false).
      { destruct (fst (sf_read file (current_frame (cb_player st)) fc));
          [contradiction Hne; reflexivity | reflexivity]. }
      rewrite Hlen. eexists. reflexivity.
Qed.

Lemma blend_sample_bound (gain x v P : R) :
  0 <= v <= 1 -> 0 < P -> Rabs (gain * x) <= P ->
  Rabs ((gain * x * 0.9 + 0.1 * x) * v) <= P + 0.1 * Rabs x.
Proof.
  intros Hv HP Hg.
  rewrite Rabs_mult, (Rabs_pos_eq v) by lra.
  pose proof (Rabs_triang (gain * x * 0.9) (0.1 * x)) as Ht.
  rewrite (Rabs_mult (gain * x) 0.9), (Rabs_mult 0.1 x) in Ht.
  rewrite (Rabs_pos_eq 0.9), (Rabs_pos_eq 0.1) in Ht by lra.
  pose proof (Rabs_pos x) as Hx.
  pose proof (Rabs_pos (gain * x)) as Hgx.
  pose proof (Rabs_pos (gain * x * 0.9 + 0.1 * x)) as Hs.
  nra.
Qed.

(** C5, as the code has it.  For keyword values on which the formulas are
    defined ([input_range] above 1, [target_dynamic_range] non-zero,
    [loudness_compression_factor], [std_compression_factor] and
    [expected_std_max] positive, [std__compression_max] at most 1, as the
    defaults are) [find_target_loudness] clamps the measured loudness into
    [-input_range, 0]; the deviation multiplier is at least
    [std__compression_max]; it is at most 1 when the amplitude deviation of
    the chunk does not exceed [expected_std_max], and above 1 when it does
    and [std__compression_max] is below 1; the deviation of a chunk whose
    samples lie between -1 and 1 is at most 1, so its multiplier is at most
    1 when [expected_std_max] is at least 1; the result is
    [min(loudness_target * multiplier, 0)] and so never positive. *)
Theorem find_target_loudness_ranges :
  forall (s : AudioPlayer) (p : loudness_params) (audio_data : chunk),
    1 < input_range p ->
    target_dynamic_range p <> 0 ->
    0 < loudness_compression_factor p ->
    std__compression_max p <= 1 ->
    0 < std_compression_factor p ->
    0 < expected_std_max p ->
    (forall m lp, loudness_point p m = Some lp -> - input_range p <= lp <= 0)
    /\ std__compression_max p <= audio_std_target_loudness p audio_data
    /\ (audio_std audio_data <= expected_std_max p ->
        audio_std_target_loudness p audio_data <= 1)
    /\ (std__compression_max p < 1 ->
        expected_std_max p < audio_std audio_data ->
        1 < audio_std_target_loudness p audio_data)
    /\ (Forall (fun x => -1 <= x <= 1) (samples audio_data) ->
        audio_std audio_data <= 1
        /\ (1 <= expected_std_max p ->
            audio_std_target_loudness p audio_data <= 1))
    /\ (forall target,
           find_target_loudness integrated_loudness s p audio_data = Some target ->
           exists lp,
             loudness_point p
               (integrated_loudness (audio_sample_rate s)
                  (INR (length audio_data) / IZR (audio_sample_rate s))
                  audio_data) = Some lp
             /\ target
                = py_min (loudness_point_target_loudness p lp
                          * audio_std_target_loudness p audio_data) 0
             /\ target <= 0).
Proof.
  intros s p data Hir Htdr Hlcf Hscm Hf He.
  assert (Hupper : audio_std data <= expected_std_max p ->
                   audio_std_target_loudness p data <= 1).
  { intros Hstd. unfold audio_std_target_loudness.
    pose proof (py_pow_ratio_le_1 (audio_std data) (expected_std_max p)
                  (std_compression_factor p)
                  (conj (audio_std_nonneg data) Hstd) He Hf) as Hr.
    rewrite Rmult_assoc. nra. }
  split; [| split; [| split; [| split; [| split]]]].
  - intros m lp Hlp. destruct m as [| | l]; simpl in Hlp.
    + discriminate.
    + injection Hlp as <-. lra.
    + injection Hlp as <-. unfold py_max, py_min.
      destruct (Rlt_dec 0 l); destruct (Rlt_dec _ (- input_range p)); lra.
  - unfold audio_std_target_loudness.
    pose proof (py_pow_nonneg (audio_std data) (std_compression_factor p)) as H1.
    pose proof (py_pow_nonneg (expected_std_max p)
                  (- std_compression_factor p)) as H2.
    rewrite Rmult_assoc.
    assert (H3 : 0 <= py_pow (audio_std data) (std_compression_factor p)
                      * py_pow (expected_std_max p) (- std_compression_factor p))
      by (apply Rmult_le_pos; assumption).
    nra.
  - exact Hupper.
  - intros Hlt Hstd. unfold audio_std_target_loudness.
    pose proof (py_pow_ratio_gt_1 (audio_std data) (expected_std_max p)
                  (std_compression_factor p) (conj He Hstd) Hf) as Hr.
    rewrite Rmult_assoc. nra.
  - intros Hall.
    assert (H1 : audio_std data <= 1) by (apply audio_std_unit_range; exact Hall).
    split; [exact H1 |]. intros He1. apply Hupper. lra.
  - intros target Ht. unfold find_target_loudness in Ht.
    destruct (audio_sample_rate s =? 0)%Z; [discriminate |].
    destruct (loudness_point p _) as [lp |]; [| discriminate].
    injection Ht as <-. exists lp. split; [reflexivity |].
    split; [reflexivity |].
    unfold py_min. destruct (Rlt_dec 0 _); lra.
Qed.

End CallbackFacts.

(** ** The examples of the specification, evaluated *)

Example seek_half_of_1000 :
  current_frame (seek 0.5 true loaded_player) = 500%Z.
Proof.
  cbn. replace (1000 * 0.5) with (IZR 500) by lra. apply py_int_IZR.
Qed.

Lemma seek_and_callback_move_cursor_unclamped_witness :
  (0 < audio_frames loaded_player)%Z
  /\ sf_seek two_frames
       (current_frame (cb_player (mkCbState small_player 0 []))) <> None
  /\ current_frame (seek 0.5 true loaded_player)
     = py_int (IZR (audio_frames loaded_player) * 0.5)
  /\ audio_frames (seek 0.5 true loaded_player) = audio_frames loaded_player
  /\ (true = true -> 0 <= 0.5 <= 1 ->
      (0 <= current_frame (seek 0.5 true loaded_player)
       <= audio_frames loaded_player)%Z)
  /\ (true = false -> 0 <= 0.5 <= IZR (audio_frames loaded_player) ->
      (0 <= current_frame (seek 0.5 true loaded_player)
       <= audio_frames loaded_player)%Z)
  /\ current_frame
       (cb_player
          (snd (callback_locked steady_meter two_frames 1024
                  (mkCbState small_player 0 []))))
     = (current_frame (cb_player (mkCbState small_player 0 [])) + 1024)%Z.
Proof.
  split; [reflexivity |]. split; [discriminate |].
  apply (seek_and_callback_move_cursor_unclamped steady_meter loaded_player
           0.5 true two_frames 1024 (mkCbState small_player 0 []));
    [reflexivity | discriminate].
Defined.

(** C2, refuted as stated: with 1000 frames loaded, [seek(1500,
    percentage=False)] leaves the cursor at 1500, outside [0, 1000]; and a
    callback for 1024 frames on a file of 2 frames moves the cursor from 0
    to 1024. *)
Lemma seek_past_end_leaves_range :
  audio_frames (seek 1500 false loaded_player) = 1000%Z
  /\ current_frame (seek 1500 false loaded_player) = 1500%Z
  /\ ~ (0 <= current_frame (seek 1500 false loaded_player)
        <= audio_frames (seek 1500 false loaded_player))%Z
  /\ audio_frames small_player = 2%Z
  /\ current_frame
       (cb_player
          (snd (callback_locked steady_meter two_frames 1024
                  (mkCbState small_player 0 []))))
     = 1024%Z.
Proof.
  assert (H : current_frame (seek 1500 false loaded_player) = 1500%Z).
  { cbn. apply py_int_IZR. }
  split; [reflexivity |]. split; [exact H |]. split.
  - rewrite H. cbn. lia.
  - split; [reflexivity |].
    rewrite callback_locked_advances by discriminate. reflexivity.
Qed.

Section EmptyRead.

Variable integrated_loudness : Z -> R -> chunk -> meter_result.

(** On an empty chunk the block size handed to the meter is 0. *)
Lemma find_target_loudness_empty (s : AudioPlayer) (p : loudness_params) :
  (forall rate data, integrated_loudness rate 0 data = MeterRaise) ->
  find_target_loudness integrated_loudness s p [] = None.
Proof.
  intros Hmeter. unfold find_target_loudness.
  destruct (audio_sample_rate s =? 0)%Z; [reflexivity |].
  cbv zeta.
  replace (INR (length (@nil frame)) / IZR (audio_sample_rate s)) with 0
    by (cbn [length INR]; unfold Rdiv; ring).
  rewrite Hmeter. reflexivity.
Qed.

(** C4: the callback applies the target-loudness computation (line 149) to
    the chunk as read, before it replaces zeros (line 151) and tests for an
    empty read (line 152).  The meter of the metering library divides by
    its block size, which the player sets to the length of the chunk: for
    every meter that raises on a block size of 0, a callback whose read
    returns no frames raises in the loudness computation, the cursor
    already advanced; the zero replacement and the empty-read test do not
    run, and the end-of-stream result of line 153 is not returned. *)
Theorem empty_read_raises_before_the_check :
  forall (file : SoundFile) (frame_count : Z) (st : cb_state),
    (forall rate data, integrated_loudness rate 0 data = MeterRaise) ->
    sf_seek file (current_frame (cb_player st)) <> None ->
    fst (sf_read file (current_frame (cb_player st)) frame_count) = [] ->
    let cf := current_frame (cb_player st) in
    let result := callback_locked integrated_loudness file frame_count st in
    fst result = None
    /\ fst result <> Some (None, paComplete)
    /\ cb_player (snd result) = set_current_frame (cf + frame_count) (cb_player st)
    /\ cb_log (snd result)
       = cb_log st ++ [OpSeek cf; OpAdvance frame_count; OpRead [];
                       OpTargetLoudness []].
Proof.
  intros file fc st Hmeter Hseek Hempty cf result. subst cf result.
  pose proof (find_target_loudness_empty
                (set_current_frame (current_frame (cb_player st) + fc)
                   (cb_player st)) default_params Hmeter) as Hnone.
  destruct (callback_locked_result integrated_loudness file fc st Hseek)
    as [s1 rd Hft | target s1 rd Hft _
        | target s2 pos2 shown res s1 rd Hft _ _ _ _];
    subst s1 rd; rewrite Hempty in Hft.
  - cbn [fst snd cb_player cb_log]. rewrite Hempty.
    split; [reflexivity |]. split; [discriminate |].
    split; reflexivity.
  - rewrite Hnone in Hft. discriminate Hft.
  - rewrite Hnone in Hft. discriminate Hft.
Qed.

End EmptyRead.

Lemma empty_read_raises_before_the_check_witness :
  (forall rate data, zero_block_meter rate 0 data = MeterRaise)
  /\ fst (sf_read two_frames 2 2) = []
  /\ fst (callback_locked zero_block_meter two_frames 2
            (mkCbState small_player_at_end 0 [])) = None
  /\ cb_log (snd (callback_locked zero_block_meter two_frames 2
                    (mkCbState small_player_at_end 0 [])))
     = [OpSeek 2; OpAdvance 2; OpRead []; OpTargetLoudness []].
Proof.
  assert (Hmeter : forall rate data, zero_block_meter rate 0 data = MeterRaise).
  { intros rate data. unfold zero_block_meter.
    destruct (Req_dec_T 0 0) as [_ | Hne]; [reflexivity | contradiction Hne].
    reflexivity. }
  assert (Hempty : fst (sf_read two_frames
                          (current_frame
                             (cb_player (mkCbState small_player_at_end 0 [])))
                          2) = []) by reflexivity.
  split; [exact Hmeter |]. split; [exact Hempty |].
  destruct (empty_read_raises_before_the_check zero_block_meter two_frames 2
              (mkCbState small_player_at_end 0 []) Hmeter)
    as (Hres & _ & _ & Hlog).
  - discriminate.
  - exact Hempty.
  - split; [exact Hres | exact Hlog].
Defined.

Lemma fold_left_Rmax_in (l : list R) (a : R) : In (fold_left Rmax l a) (a :: l).
Proof.
  revert a. induction l as [| b l IH]; intros a; [left; reflexivity |].
  cbn [fold_left]. destruct (IH (Rmax a b)) as [H | H].
  - rewrite <- H. unfold Rmax. destruct (Rle_dec a b).
    + right. left. reflexivity.
    + left. reflexivity.
  - right. right. exact H.
Qed.

Lemma np_max_in (l : list R) (m : R) : np_max l = Some m -> In m l.
Proof.
  destruct l as [| a t]; cbn [np_max]; [discriminate |].
  intros [= <-]. apply fold_left_Rmax_in.
Qed.

(** [pyln.normalize.peak] spelled out: every sample is multiplied by
    [10 ** (target / 20) / peak], [peak] the largest magnitude in the
    data. *)
Lemma normalize_peak_exact (data : chunk) (target : R) (normalized : chunk) :
  normalize_peak data target = Some normalized ->
  exists peak,
    In peak (map Rabs (samples data))
    /\ (forall x, In x (samples data) -> Rabs x <= peak)
    /\ normalized = map (map (fun x => Rpower 10 (target / 20) / peak * x)) data.
Proof.
  unfold normalize_peak, peak_scale. intros H.
  destruct (np_max (map Rabs (samples data))) as [peak |] eqn:Epeak;
    [| discriminate].
  injection H as <-. exists peak.
  split; [apply (np_max_in _ _ Epeak) |]. split; [| reflexivity].
  intros x Hx. apply (np_max_upper _ _ _ Epeak). apply in_map. exact Hx.
Qed.

(** The blend of a sample with its normalization, before and after the
    volume is applied. *)
Lemma mixed_sample_bounds (P peak x v : R) :
  0 < P -> 0 < peak -> Rabs x <= peak ->
  Rabs (P / peak * x * 0.9 + 0.1 * x) <= 0.9 * P + 0.1 * Rabs x
  /\ (Rabs v <= 1 ->
      Rabs ((P / peak * x * 0.9 + 0.1 * x) * v) <= P + 0.1 * Rabs x).
Proof.
  intros HP Hpeak Hx.
  assert (Hg : Rabs (P / peak * x) <= P).
  { rewrite Rabs_mult, (Rabs_pos_eq (P / peak)).
    - apply Rmult_le_reg_r with (/ P * peak).
      + apply Rmult_lt_0_compat; [apply Rinv_0_lt_compat |]; lra.
      + replace (P / peak * Rabs x * (/ P * peak)) with (Rabs x) by (field; lra).
        replace (P * (/ P * peak)) with peak by (field; lra). exact Hx.
    - unfold Rdiv. apply Rmult_le_pos; [lra |].
      left. apply Rinv_0_lt_compat. exact Hpeak. }
  assert (Hmix : Rabs (P / peak * x * 0.9 + 0.1 * x) <= 0.9 * P + 0.1 * Rabs x).
  { pose proof (Rabs_triang (P / peak * x * 0.9) (0.1 * x)) as Ht.
    rewrite (Rabs_mult (P / peak * x) 0.9), (Rabs_mult 0.1 x) in Ht.
    rewrite (Rabs_pos_eq 0.9), (Rabs_pos_eq 0.1) in Ht by lra. lra. }
  split; [exact Hmix |].
  intros Hv. rewrite Rabs_mult.
  pose proof (Rabs_pos v) as Hv0.
  pose proof (Rabs_pos x) as Hx0.
  pose proof (Rabs_pos (P / peak * x * 0.9 + 0.1 * x)) as Hm0.
  nra.
Qed.

(** At the sample of largest magnitude the blend reaches its bound. *)
Lemma mixed_peak_sample (P peak x : R) :
  0 < P -> 0 < peak -> Rabs x = peak ->
  Rabs (P / peak * x * 0.9 + 0.1 * x) = 0.9 * P + 0.1 * peak.
Proof.
  intros HP Hpeak Hx.
  replace (P / peak * x * 0.9 + 0.1 * x) with ((P / peak * 0.9 + 0.1) * x)
    by ring.
  rewrite Rabs_mult, Hx, Rabs_pos_eq.
  - field. lra.
  - assert (H : 0 < P / peak)
      by (unfold Rdiv; apply Rmult_lt_0_compat;
          [lra | apply Rinv_0_lt_compat; lra]).
    lra.
Qed.

Section Blend.

Variable integrated_loudness : Z -> R -> chunk -> meter_result.

(** C8: a callback that continues playback returns, sample by sample,
    [(P / peak * x * 0.9 + 0.1 * x) * volume], where [x] runs over the
    chunk read with its exact zeros replaced by [1e-12], [P] is
    [10 ** (target / 20)] for the target loudness of the chunk and [peak]
    is the largest magnitude in the chunk.  Before the volume is applied
    every sample is within [0.9 * P + 0.1 * |x|]; the sample returned is
    within [P + 0.1 * |x|] when the volume is at most 1 in magnitude, as
    the docstring of the class and [set_volume] have it, and the sample of
    largest magnitude is beyond it when the volume is 10/9 or more in
    magnitude, which the constructor lets through. *)
Theorem callback_output_is_scaled_blend :
  forall (file : SoundFile) (frame_count : Z) (st st' : cb_state)
         (out : chunk),
    callback_locked integrated_loudness file frame_count st
    = (Some (Some out, paContinue), st') ->
    exists target peak,
      let raw := fst (sf_read file (current_frame (cb_player st)) frame_count) in
      let data := map (map (fun x => if Req_dec_T x 0 then 1e-12 else x)) raw in
      let P := Rpower 10 (target / 20) in
      let v := volume (cb_player st) in
      find_target_loudness integrated_loudness
        (set_current_frame (current_frame (cb_player st) + frame_count)
           (cb_player st)) default_params raw = Some target
      /\ In peak (map Rabs (samples data))
      /\ (forall x, In x (samples data) -> Rabs x <= peak)
      /\ out = map (map (fun x => (P / peak * x * 0.9 + 0.1 * x) * v)) data
      /\ (forall x, In x (samples data) ->
          Rabs (P / peak * x * 0.9 + 0.1 * x) <= 0.9 * P + 0.1 * Rabs x
          /\ (Rabs v <= 1 ->
              Rabs ((P / peak * x * 0.9 + 0.1 * x) * v) <= P + 0.1 * Rabs x))
      /\ (10 / 9 <= Rabs v ->
          exists x,
            In x (samples data)
            /\ P + 0.1 * Rabs x < Rabs ((P / peak * x * 0.9 + 0.1 * x) * v)).
Proof.
  intros file fc st st' out Hres.
  assert (Hseek : sf_seek file (current_frame (cb_player st)) <> None).
  { intros Hn.
    rewrite (callback_locked_seek_refused integrated_loudness file fc st Hn)
      in Hres. discriminate. }
  pose proof (callback_locked_result integrated_loudness file fc st Hseek) as L.
  rewrite Hres in L.
  inversion L as [| | target s2 pos2 shown res s1 rd Hft Hne Hsame Hshown Hnorm Hr].
  clear L. subst s1 rd.
  change (map (map (fun x => if Req_dec_T x 0 then 1e-12 else x)))
    with zero_fix.
  set (raw := fst (sf_read file (current_frame (cb_player st)) fc)) in *.
  destruct (normalize_peak (zero_fix raw) target) as [normalized |] eqn:En;
    [| congruence].
  assert (Hout : out = scale (blend normalized (zero_fix raw)) (volume s2))
    by congruence.
  apply same_but_display_fields in Hsame. destruct Hsame as (_ & Hv & _).
  cbn [volume set_current_frame] in Hv. rewrite Hv in Hout.
  destruct (normalize_peak_exact _ _ _ En) as (peak & Hin & Hup & ->).
  assert (HP : 0 < Rpower 10 (target / 20)) by (unfold Rpower; apply exp_pos).
  assert (Hpeak : 0 < peak).
  { apply in_map_iff in Hin. destruct Hin as (x & <- & Hx).
    apply Rabs_pos_lt. apply (zero_fix_nonzero raw x Hx). }
  exists target, peak. cbv zeta.
  split; [exact Hft |]. split; [exact Hin |]. split; [exact Hup |].
  split.
  { rewrite Hout, blend_of_scaled. unfold scale. rewrite map_map.
    apply map_ext. intros fr. rewrite map_map. reflexivity. }
  split.
  { intros x Hx. apply mixed_sample_bounds; [exact HP | exact Hpeak |].
    apply Hup. exact Hx. }
  intros Hv'. apply in_map_iff in Hin. destruct Hin as (x & Hxp & Hx).
  exists x. split; [exact Hx |].
  rewrite Rabs_mult, (mixed_peak_sample _ _ _ HP Hpeak Hxp), Hxp.
  pose proof (Rabs_pos (volume (cb_player st))) as Hv0.
  nra.
Qed.

End Blend.

(** The first callback of the player built with a volume of 5 continues
    with [loud_player_out]. *)
Lemma loud_callback_continues :
  callback_locked steady_meter two_frames 2 (mkCbState loud_player 0 [])
  = (Some (Some loud_player_out, paContinue), snd loud_player_result).
Proof.
  unfold loud_player_out, loud_player_result.
  unfold callback_locked, cb_bind, cb_get, cb_tell, cb_seek, cb_modify,
    cb_read, cb_lift, cb_ret, cb_raise.
  cbn [cb_player cb_pos cb_log fst snd]. reflexivity.
Qed.

Lemma callback_output_is_scaled_blend_witness :
  volume loud_player = 5
  /\ callback_locked steady_meter two_frames 2 (mkCbState loud_player 0 [])
     = (Some (Some loud_player_out, paContinue), snd loud_player_result)
  /\ exists target peak x,
       find_target_loudness steady_meter (set_current_frame 2 loud_player)
         default_params (sf_data two_frames) = Some target
       /\ In peak (map Rabs (samples (sf_data two_frames)))
       /\ loud_player_out
          = map (map (fun y => (Rpower 10 (target / 20) / peak * y * 0.9
                                + 0.1 * y) * 5))
              (sf_data two_frames)
       /\ In x (samples (sf_data two_frames))
       /\ Rpower 10 (target / 20) + 0.1 * Rabs x
          < Rabs ((Rpower 10 (target / 20) / peak * x * 0.9 + 0.1 * x) * 5).
Proof.
  split; [reflexivity |]. split; [exact loud_callback_continues |].
  destruct (callback_output_is_scaled_blend steady_meter two_frames 2
              (mkCbState loud_player 0 []) (snd loud_player_result)
              loud_player_out loud_callback_continues)
    as (target & peak & Hft & Hpeak & _ & Hout & _ & Hbeyond).
  change (volume (cb_player (mkCbState loud_player 0 []))) with 5
    in Hout, Hbeyond.
  destruct Hbeyond as (x & Hx & Hlt); [rewrite Rabs_pos_eq; lra |].
  assert (Hdata : map (map (fun y => if Req_dec_T y 0 then 1e-12 else y))
                    (fst (sf_read two_frames
                            (current_frame
                               (cb_player (mkCbState loud_player 0 []))) 2))
                  = sf_data two_frames).
  { change (fst (sf_read two_frames
                   (current_frame (cb_player (mkCbState loud_player 0 []))) 2))
      with (sf_data two_frames).
    cbn [sf_data two_frames map].
    destruct (Req_dec_T 0.5 0) as [E | _]; [lra |].
    destruct (Req_dec_T (-0.25) 0) as [E | _]; [lra |]. reflexivity. }
  rewrite Hdata in Hx, Hpeak, Hout.
  exists target, peak, x.
  split; [exact Hft |]. split; [exact Hpeak |]. split; [exact Hout |].
  split; [exact Hx | exact Hlt].
Defined.

Lemma find_target_loudness_ranges_witness :
  1 < input_range default_params
  /\ target_dynamic_range default_params <> 0
  /\ 0 < loudness_compression_factor default_params
  /\ std__compression_max default_params <= 1
  /\ 0 < std_compression_factor default_params
  /\ 0 < expected_std_max default_params
  /\ std__compression_max default_params
     <= audio_std_target_loudness default_params (sf_data two_frames).
Proof.
  assert (H1 : 1 < input_range default_params) by (simpl; lra).
  assert (H2 : target_dynamic_range default_params <> 0) by (simpl; lra).
  assert (H3 : 0 < loudness_compression_factor default_params) by (simpl; lra).
  assert (H4 : std__compression_max default_params <= 1) by (simpl; lra).
  assert (H5 : 0 < std_compression_factor default_params) by (simpl; lra).
  assert (H6 : 0 < expected_std_max default_params) by (simpl; lra).
  repeat (split; [assumption |]).
  apply (find_target_loudness_ranges steady_meter small_player default_params
           (sf_data two_frames) H1 H2 H3 H4 H5 H6).
Defined.

Lemma audio_std_loud_chunk : audio_std loud_chunk = 8.
Proof.
  unfold audio_std, loud_chunk, samples. simpl concat. simpl map.
  rewrite Rabs_R0, (Rabs_pos_eq 16) by lra.
  unfold np_std.
  assert (Hm : np_mean [0; 16] = 8) by (unfold np_mean; simpl; lra).
  simpl map. rewrite !Hm.
  assert (Ha : Rabs (0 - 8) = 8) by (rewrite Rabs_left; lra).
  assert (Hb : Rabs (16 - 8) = 8) by (rewrite Rabs_pos_eq; lra).
  rewrite Ha, Hb.
  assert (Hv : np_mean [8 * (8 * 1); 8 * (8 * 1)] = 8 * 8)
    by (unfold np_mean; simpl; lra).
  rewrite Hv. apply sqrt_square. lra.
Qed.

(** C5, refuted as stated: for the chunk [[0], [16]], whose amplitude
    deviation is 8, the deviation multiplier is larger than 1. *)
Lemma deviation_multiplier_above_one :
  ~ (std__compression_max default_params
     <= audio_std_target_loudness default_params loud_chunk <= 1).
Proof.
  intros [_ Hle]. unfold audio_std_target_loudness in Hle.
  rewrite audio_std_loud_chunk in Hle. simpl in Hle.
  unfold py_pow in Hle.
  destruct (Req_dec_T 8 0) as [E | _]; [lra |].
  destruct (Req_dec_T 3.5 0) as [E | _]; [lra |].
  rewrite Rpower_Ropp in Hle.
  assert (Hlt : Rpower 3.5 0.8 < Rpower 8 0.8).
  { apply Rlt_Rpower_l; lra. }
  assert (Hpos : 0 < Rpower 3.5 0.8) by (unfold Rpower; apply exp_pos).
  assert (Hratio : 1 < Rpower 8 0.8 * / Rpower 3.5 0.8).
  { apply (Rmult_lt_reg_r (Rpower 3.5 0.8)); [exact Hpos |].
    rewrite Rmult_assoc, Rinv_l by lra. lra. }
  nra.
Qed.

(** ** The stream thread *)

Arguments callback_locked : simpl never.

Section StreamFacts.

Variable integrated_loudness : Z -> R -> chunk -> meter_result.
Variable fs : String.string -> option SoundFile.

Lemma same_but_cursor_display_fields (s s' : AudioPlayer) :
  same_but_cursor_display s s' ->
  volume s' = volume s /\ audio_path s' = audio_path s
  /\ audio_frames s' = audio_frames s
  /\ audio_sample_rate s' = audio_sample_rate s
  /\ is_playback_unpaused s' = is_playback_unpaused s
  /\ is_stopped s' = is_stopped s /\ no_audio_loaded s' = no_audio_loaded s.
Proof. intros H. rewrite H. simpl. repeat split. Qed.

(** The locked part of the callback writes the cursor and the display
    buffer only, and its log starts with the seek to the cursor. *)
Lemma callback_locked_frame (file : SoundFile) (fc : Z) (st : cb_state) :
  same_but_cursor_display (cb_player st)
    (cb_player (snd (callback_locked integrated_loudness file fc st)))
  /\ exists rest,
       cb_log (snd (callback_locked integrated_loudness file fc st))
       = cb_log st ++ OpSeek (current_frame (cb_player st)) :: rest.
Proof.
  destruct (sf_seek file (current_frame (cb_player st))) eqn:Eseek.
  - assert (Hseek : sf_seek file (current_frame (cb_player st)) <> None)
      by congruence.
    destruct (callback_locked_result integrated_loudness file fc st Hseek)
      as [s1 rd _ | target s1 rd _ _
          | target s2 pos2 shown res s1 rd _ _ Hsame _ _];
      cbn [snd cb_player cb_log]; (split; [| eexists; reflexivity]).
    + destruct (cb_player st); reflexivity.
    + destruct (cb_player st); reflexivity.
    + rewrite Hsame. destruct (cb_player st); reflexivity.
  - rewrite (callback_locked_seek_refused integrated_loudness file fc st Eseek).
    cbn [snd cb_player cb_log]. split; [| eexists; reflexivity].
    destruct (cb_player st); reflexivity.
Qed.

(** What a step of a stream thread can do to the player. *)
Lemma stream_step_player (e : env) (t t' : stream_thread) (s s' : AudioPlayer) :
  stream_step integrated_loudness fs e t s = Some (t', s') ->
  match st_pc t with
  | L137 => exists n, s' = set_audio_sample_rate n s \/ s' = s
  | L138 => exists n, s' = set_audio_frames n s \/ s' = s
  | L172 CbLocked => same_but_cursor_display s s'
  | L178 => s' = set_no_audio_loaded true s
  | L179 => s' = set_current_frame 0 s
  | _ => s' = s
  end.
Proof.
  unfold stream_step. intros H.
  destruct (st_pc t) as [| | | | | | | [| |] | | | | | |];
    try (destruct e); try (destruct (open_path fs s));
    try (destruct (st_info t)); try (destruct (is_playback_unpaused s));
    try (destruct (is_stopped s)); try (destruct (st_p t));
    try discriminate;
    try (injection H as <- <-; try reflexivity;
         try (eexists; left; reflexivity); try (exists 0%Z; right; reflexivity)).
  all: destruct (st_file t) as [file |];
    [| injection H as <- <-; destruct s; reflexivity].
  all: pose proof (callback_locked_frame file (st_chunk_size t)
                     (mkCbState s (st_pos t) (st_log t))) as [Hsame _];
    destruct (callback_locked integrated_loudness file (st_chunk_size t)
                (mkCbState s (st_pos t) (st_log t))) as [[[o [|]] |] st'];
    injection H as <- <-; exact Hsame.
Qed.

Lemma stream_step_keeps_file_fields (e : env) (t t' : stream_thread)
    (s s' : AudioPlayer) :
  stream_step integrated_loudness fs e t s = Some (t', s') ->
  audio_path s' = audio_path s
  /\ (st_pc t <> L137 -> audio_sample_rate s' = audio_sample_rate s)
  /\ (st_pc t <> L138 -> audio_frames s' = audio_frames s).
Proof.
  intros H. apply stream_step_player in H.
  destruct (st_pc t) as [| | | | | | | [| |] | | | | | |];
    try (subst s'; simpl; repeat split; reflexivity).
  - destruct H as (n & [-> | ->]); simpl; repeat split; congruence.
  - destruct H as (n & [-> | ->]); simpl; repeat split; congruence.
  - apply same_but_cursor_display_fields in H.
    destruct H as (_ & Hp & Hf & Hr & _). repeat split; intros; assumption.
Qed.

(** The [finally] block, entered with the handle bound, runs to its end
    whatever the environment does. *)
Lemma finally_block_runs (t : stream_thread) (s : AudioPlayer) (e1 e2 e3 : env) :
  st_pc t = L177 -> st_p t <> HUnbound ->
  stream_run integrated_loudness fs [e1; e2; e3] t s
  = (at_pc LExit (with_p HTerminated t),
     set_current_frame 0 (set_no_audio_loaded true s)).
Proof.
  intros Hpc Hp. destruct t as [pc p file info pos size log].
  simpl in Hpc, Hp. subst pc.
  destruct p; [contradiction Hp; reflexivity | reflexivity | reflexivity].
Qed.

(** An exception from any external call of the [try] body enters the
    [finally] block. *)
Lemma raise_enters_finally (t t' : stream_thread) (s s' : AudioPlayer) :
  In (st_pc t) [L134; L135; L136; L165; L171; L174] ->
  stream_step integrated_loudness fs EnvRaise t s = Some (t', s') ->
  st_pc t' = L177 /\ s' = s /\ st_p t' = st_p t.
Proof.
  intros Hin H. unfold stream_step in H. simpl in Hin.
  destruct Hin as [E | [E | [E | [E | [E | [E | []]]]]]];
    rewrite <- E in H; injection H as <- <-; repeat split.
Qed.

(** C3, as the code has it: the [finally] block of a stream whose device
    handle is bound sets [no_audio_loaded] and resets [current_frame] to 0,
    and leaves [audio_path], [audio_sample_rate] and [audio_frames] as they
    were; no step of a stream thread changes [audio_path], and the sample
    rate and the frame count change only where a file is loaded (lines 137
    and 138). *)
Theorem stream_exit_resets_only_the_cursor :
  forall (t : stream_thread) (s : AudioPlayer) (e1 e2 e3 : env),
    st_pc t = L177 -> st_p t <> HUnbound ->
    (let '(t', s') := stream_run integrated_loudness fs [e1; e2; e3] t s in
     st_pc t' = LExit
     /\ current_frame s' = 0%Z /\ no_audio_loaded s' = true
     /\ audio_path s' = audio_path s
     /\ audio_sample_rate s' = audio_sample_rate s
     /\ audio_frames s' = audio_frames s)
    /\ (forall e u u' v v',
           stream_step integrated_loudness fs e u v = Some (u', v') ->
           audio_path v' = audio_path v
           /\ (st_pc u <> L137 -> audio_sample_rate v' = audio_sample_rate v)
           /\ (st_pc u <> L138 -> audio_frames v' = audio_frames v)).
Proof.
  intros t s e1 e2 e3 Hpc Hp. split.
  - rewrite (finally_block_runs t s e1 e2 e3 Hpc Hp). simpl. repeat split.
  - intros e u u' v v'. apply stream_step_keeps_file_fields.
Qed.

End StreamFacts.

Lemma stream_exit_resets_only_the_cursor_witness :
  st_pc (at_pc L177 (with_p HLive (new_stream_thread 2))) = L177
  /\ st_p (at_pc L177 (with_p HLive (new_stream_thread 2))) <> HUnbound
  /\ (let '(t', s') :=
        stream_run steady_meter two_files [EnvOk; EnvOk; EnvOk]
          (at_pc L177 (with_p HLive (new_stream_thread 2))) small_player in
      st_pc t' = LExit
      /\ current_frame s' = 0%Z /\ no_audio_loaded s' = true
      /\ audio_path s' = audio_path small_player
      /\ audio_sample_rate s' = audio_sample_rate small_player
      /\ audio_frames s' = audio_frames small_player).
Proof.
  split; [reflexivity |]. split; [discriminate |].
  apply (stream_exit_resets_only_the_cursor steady_meter two_files
           (at_pc L177 (with_p HLive (new_stream_thread 2))) small_player
           EnvOk EnvOk EnvOk); [reflexivity | discriminate].
Defined.

(** C3, refuted as stated: a stream that played [two_frames] to its end and
    left through its [finally] block leaves the path, the sample rate and
    the frame count of that file in the player; only the cursor is back
    at 0. *)
Lemma file_fields_survive_stream_end :
  st_pc (fst played_to_end) = LExit
  /\ current_frame (snd played_to_end) = 0%Z
  /\ audio_path (snd played_to_end) = Some Paths.a_wav
  /\ audio_sample_rate (snd played_to_end) = 44100%Z
  /\ audio_frames (snd played_to_end) = 2%Z
  /\ ~ (audio_path (snd played_to_end) = None
        /\ audio_sample_rate (snd played_to_end) = 0%Z
        /\ audio_frames (snd played_to_end) = 0%Z).
Proof.
  assert (Hf : audio_frames (snd played_to_end) = 2%Z) by reflexivity.
  repeat (split; [reflexivity |]).
  intros (_ & _ & H0). rewrite Hf in H0. discriminate.
Qed.

(** C6: when creating the device handle raises (line 134, the first
    statement of the [try] body), the [finally] block fails on the unbound
    [p] and the thread ends there: the handle is not terminated,
    [no_audio_loaded] is never set, and the next [start_audio_playback]
    stays blocked on it at line 122. *)
Theorem cleanup_skipped_when_device_init_raises :
  st_pc (fst died_at_init) = LDied
  /\ st_p (fst died_at_init) = HUnbound
  /\ snd died_at_init = started_player
  /\ no_audio_loaded (snd died_at_init) = false
  /\ stream_step steady_meter two_files EnvOk (fst died_at_init)
       (snd died_at_init) = None
  /\ c_pc (fst (fst call_after_death)) = C122
  /\ controller_step (fst (fst call_after_death))
       (snd (fst call_after_death)) = None.
Proof. repeat split. Qed.

(** ** Restarting the current file *)

Section RestartFacts.

Variable integrated_loudness : Z -> R -> chunk -> meter_result.
Variable fs : String.string -> option SoundFile.

(** With the barrier open, a call runs its nine statements without
    blocking and spawns one thread. *)
Lemma controller_run_open_barrier (audio_path_arg : option String.string)
    (chunk_size : Z) (s : AudioPlayer) :
  no_audio_loaded s = true ->
  controller_run 9 (start_call audio_path_arg chunk_size) s
  = (mkController CReturned audio_path_arg chunk_size (is_playback_unpaused s),
     set_stopped false
       (set_no_audio_loaded false
          (match audio_path_arg with
           | Some path => set_audio_path (Some path)
           | None => fun x => x
           end
             ((if negb (is_playback_unpaused s) then set_unpaused false
               else fun x => x)
                (set_unpaused true (set_stopped true s))))),
     [new_stream_thread chunk_size]).
Proof.
  intros Hnal. destruct s. simpl in Hnal. subst.
  destruct audio_path_arg; destruct is_playback_unpaused0; reflexivity.
Qed.

(** A blocked or finished thread stays so whatever the environment. *)
Lemma stream_step_none_any_env (e e' : env) (t : stream_thread)
    (s : AudioPlayer) :
  stream_step integrated_loudness fs e t s = None ->
  stream_step integrated_loudness fs e' t s = None.
Proof.
  unfold stream_step.
  destruct (st_pc t) as [| | | | | | | [| |] | | | | | |];
    destruct e, e'; try (intros H; exact H);
    try (destruct (open_path fs s)); try (destruct (st_info t));
    try (destruct (st_file t)); try discriminate;
    try (destruct (callback_locked integrated_loudness _ _ _)
           as [[[o [|]] |] st']); discriminate.
Qed.

Lemma stream_run_blocked (es : list env) (e : env) (t : stream_thread)
    (s : AudioPlayer) :
  stream_step integrated_loudness fs e t s = None ->
  stream_run integrated_loudness fs es t s = (t, s).
Proof.
  intros H. destruct es as [| e' es]; [reflexivity |]. simpl.
  rewrite (stream_step_none_any_env e e' t s H). reflexivity.
Qed.

Lemma stream_run_app (es1 es2 : list env) (t : stream_thread)
    (s : AudioPlayer) :
  stream_run integrated_loudness fs (es1 ++ es2) t s
  = stream_run integrated_loudness fs es2
      (fst (stream_run integrated_loudness fs es1 t s))
      (snd (stream_run integrated_loudness fs es1 t s)).
Proof.
  revert t s. induction es1 as [| e es1 IH]; intros t s; simpl.
  - reflexivity.
  - destruct (stream_step integrated_loudness fs e t s) as [[t' s'] |] eqn:E.
    + apply IH.
    + simpl. symmetry. apply (stream_run_blocked es2 e). exact E.
Qed.

(** A freshly spawned thread whose external calls succeed opens the stored
    path and, with playback unpaused and no stop requested, comes to its
    first callback with the file loaded. *)
Lemma new_stream_reaches_callback (s : AudioPlayer) (path : String.string)
    (file : SoundFile) (chunk_size : Z) :
  audio_path s = Some path -> fs path = Some file ->
  is_playback_unpaused s = true -> is_stopped s = false ->
  stream_run integrated_loudness fs (repeat EnvOk 9)
    (new_stream_thread chunk_size) s
  = (mkStreamThread (L172 CbLocked) HLive (Some file) (Some file) 0
       chunk_size [],
     set_audio_frames (sf_frames file)
       (set_audio_sample_rate (sf_samplerate file) s)).
Proof.
  intros Hpath Hfile Hunp Hstop.
  cbn [repeat stream_run].
  unfold stream_step at 1. cbn [st_pc new_stream_thread].
  unfold stream_step at 1. cbn [st_pc at_pc]. unfold open_path at 1.
  rewrite Hpath, Hfile.
  unfold stream_step at 1. cbn [st_pc at_pc]. unfold open_path at 1.
  rewrite Hpath, Hfile.
  unfold stream_step at 1. cbn [st_pc at_pc st_info with_info].
  unfold stream_step at 1. cbn [st_pc at_pc st_info with_info].
  unfold stream_step at 1. cbn [st_pc at_pc].
  unfold stream_step at 1. cbn [st_pc at_pc].
  unfold stream_step at 1.
  cbn [st_pc at_pc is_playback_unpaused set_audio_frames set_audio_sample_rate].
  rewrite Hunp.
  unfold stream_step at 1.
  cbn [st_pc at_pc is_stopped set_audio_frames set_audio_sample_rate].
  rewrite Hstop. reflexivity.
Qed.

Lemma new_stream_reaches_first_chunk (s : AudioPlayer) (path : String.string)
    (file : SoundFile) (chunk_size : Z) :
  audio_path s = Some path -> fs path = Some file ->
  is_playback_unpaused s = true -> is_stopped s = false ->
  let play :=
    stream_run integrated_loudness fs (repeat EnvOk 10)
      (new_stream_thread chunk_size) s in
  st_file (fst play) = Some file
  /\ audio_path (snd play) = Some path
  /\ exists rest, st_log (fst play) = OpSeek (current_frame s) :: rest.
Proof.
  intros Hpath Hfile Hunp Hstop play. subst play.
  change (repeat EnvOk 10) with (repeat EnvOk 9 ++ [EnvOk]).
  rewrite stream_run_app.
  rewrite (new_stream_reaches_callback s path file chunk_size
             Hpath Hfile Hunp Hstop).
  cbn [fst snd stream_run]. unfold stream_step.
  cbn [st_pc st_file st_pos st_log st_chunk_size].
  match goal with
  | |- context [callback_locked integrated_loudness file chunk_size ?st] =>
      pose proof (callback_locked_frame integrated_loudness file chunk_size st)
        as [Hsame [rest Hlog]];
      destruct (callback_locked integrated_loudness file chunk_size st)
        as [[[o [|]] |] st']
  end;
    cbn [snd fst cb_player cb_log app current_frame set_audio_frames
         set_audio_sample_rate] in Hsame, Hlog;
    apply same_but_cursor_display_fields in Hsame;
    destruct Hsame as (_ & Hp' & _);
    cbn [audio_path set_audio_frames set_audio_sample_rate] in Hp';
    cbn [fst snd st_file st_log at_pc with_cb];
    (split; [reflexivity |]); (split; [congruence |]);
    exists rest; exact Hlog.
Qed.

End RestartFacts.

(** ** Switching files while paused *)

Section SwitchFacts.

Variable integrated_loudness : Z -> R -> chunk -> meter_result.
Variable fs : String.string -> option SoundFile.

Lemma controller_step_next (c c' : controller) (s s' : AudioPlayer)
    (sp : option stream_thread) :
  controller_step c s = Some (c', s', sp) ->
  ctrl_index (c_pc c') = S (ctrl_index (c_pc c))
  /\ firstn (S (ctrl_index (c_pc c))) program_order
     = firstn (ctrl_index (c_pc c)) program_order ++ [c_pc c]
  /\ c_audio_path c' = c_audio_path c.
Proof.
  unfold controller_step. intros H.
  destruct (c_pc c); try (destruct (no_audio_loaded s)); try discriminate;
    injection H as <- _ _; repeat split.
Qed.

Lemma ctrl_events_app (tr1 tr2 : list event) :
  ctrl_events (tr1 ++ tr2) = ctrl_events tr1 ++ ctrl_events tr2.
Proof. unfold ctrl_events. apply flat_map_app. Qed.

(** The caller's statements appear in a run in program order. *)
Lemma ctrl_events_in_program_order (sys0 sys : system) (tr : list event) :
  run integrated_loudness fs sys0 tr sys ->
  c_pc (sys_ctrl sys0) = C117 ->
  ctrl_events tr = firstn (ctrl_index (c_pc (sys_ctrl sys))) program_order.
Proof.
  induction 1 as [sys | sys0 tr sys ev sys' Hrun IH Hstep]; intros H0.
  - rewrite H0. reflexivity.
  - rewrite ctrl_events_app, (IH H0).
    destruct Hstep as [sys c' s' sp Hc | sys i e t t' s' Hnth Hs]; simpl.
    + destruct (controller_step_next _ _ _ _ _ Hc) as (Hidx & Hfirst & _).
      rewrite Hidx, Hfirst. reflexivity.
    + rewrite app_nil_r. reflexivity.
Qed.

Lemma switch_inv_init (audio_path_arg : option String.string)
    (chunk_size : Z) (sys0 : system) :
  paused_switch audio_path_arg chunk_size sys0 ->
  switch_inv (audio_path (sys_player sys0)) audio_path_arg sys0.
Proof.
  intros (Hc & Hunp & Hstop & Hnal & prior & cb & Hth & Hpc & Hp).
  destruct sys0 as [p c ths]. simpl in *. subst c ths.
  constructor; simpl; try assumption; try reflexivity.
  exists prior, []. rewrite Hpc, Hp. simpl.
  repeat split; try assumption; try discriminate.
Qed.

Lemma switch_inv_ctrl (path0 audio_path_arg : option String.string)
    (sys : system) (c' : controller) (s' : AudioPlayer)
    (sp : option stream_thread) :
  switch_inv path0 audio_path_arg sys ->
  controller_step (sys_ctrl sys) (sys_player sys) = Some (c', s', sp) ->
  switch_inv path0 audio_path_arg
    (mkSystem s' c'
       (sys_threads sys ++ match sp with Some t => [t] | None => [] end)).
Proof.
  intros [Hloc Harg Hunp Hstop Hpath
            (prior & spawned & Hth & Hok & Hp & Hsig & Hcf & Hsp)] Hstep.
  destruct sys as [p [pc a ch loc] ths]. simpl in *. subst ths a loc.
  unfold controller_step in Hstep. simpl in Hstep.
  destruct spawned as [| new [| extra rest]]; [| | contradiction].
  2: { destruct Hsp as (Hret & _). subst pc. discriminate. }
  destruct Hsp as (Hnr & Hnal).
  destruct pc; simpl in *;
    try (destruct (no_audio_loaded p) eqn:En; [| discriminate]);
    try discriminate; injection Hstep as <- <- <-; simpl.
  all: constructor; simpl; try assumption; try reflexivity.
  all: try (destruct audio_path_arg; simpl; assumption).
  all: try (exists prior; eexists; split; [reflexivity |]; simpl;
            repeat split; try assumption; try discriminate; try reflexivity;
            try (intros; congruence); try (intros; auto)).
  all: destruct audio_path_arg; simpl; auto.
Qed.

Lemma update_nth_0 {A : Type} (x a : A) (l : list A) :
  update_nth 0 x (a :: l) = x :: l.
Proof. reflexivity. Qed.

Ltac break_step H :=
  repeat match type of H with
         | context [match ?x with _ => _ end] => destruct x eqn:?
         end;
  try discriminate H; injection H as <- <-.

Ltac use_same H :=
  apply same_but_cursor_display_fields in H;
  destruct H as (_ & ? & _ & _ & ? & ? & ?).

Lemma switch_inv_stream (path0 audio_path_arg : option String.string)
    (sys : system) (i : nat) (e : env) (t t' : stream_thread)
    (s' : AudioPlayer) :
  switch_inv path0 audio_path_arg sys ->
  nth_error (sys_threads sys) i = Some t ->
  stream_step integrated_loudness fs e t (sys_player sys) = Some (t', s') ->
  switch_inv path0 audio_path_arg
    (mkSystem s' (sys_ctrl sys) (update_nth i t' (sys_threads sys))).
Proof.
  intros [Hloc Harg Hunp Hstop Hpath
            (prior & spawned & Hth & Hok & Hp & Hsig & Hcf & Hsp)] Hnth Hstep.
  destruct sys as [p [pc a ch loc] ths].
  cbn [sys_player sys_ctrl sys_threads c_pc c_audio_path c_is_unpaused] in *.
  subst ths a loc.
  pose proof (stream_step_player integrated_loudness fs e t t' p s' Hstep)
    as Hpl.
  destruct i as [| [| i]].
  - (* the prior stream moves *)
    cbn [nth_error] in Hnth. injection Hnth as <-.
    unfold stream_step in Hstep.
    destruct (st_pc prior) as [| | | | | | | [| |] | | | | | |] eqn:Epc;
      try discriminate Hok.
    all: break_step Hstep.
    all: try (use_same Hpl).
    all: destruct spawned as [| new [| extra rest]]; [| | contradiction].
    all: destruct pc; cbn in Hsig, Hsp, Hunp, Hstop, Hpath;
      try discriminate Hunp;
      try (specialize (Hsig eq_refl); discriminate Hsig);
      try (destruct Hsp as (Hret & _); discriminate Hret);
      try (destruct Hsp as (Hret & _); contradiction Hret; reflexivity).
    all: constructor; cbn; try reflexivity; try congruence.
    all: eexists; eexists; (split; [reflexivity |]); cbn;
      repeat split; try assumption; try discriminate; try reflexivity;
      try tauto; try congruence.
    all: destruct Hsp; congruence.
  - (* the spawned stream moves *)
    destruct spawned as [| new [| extra rest]]; [discriminate | | contradiction].
    cbn [nth_error] in Hnth. injection Hnth as <-.
    destruct Hsp as (Hret & Hpark & Hlog & Hnal). subst pc.
    cbn in Hunp, Hstop, Hpath, Hsig. specialize (Hsig eq_refl).
    unfold stream_step in Hstep.
    destruct (st_pc new) as [| | | | | | | [| |] | | | | | |] eqn:Epc;
      try discriminate Hpark.
    all: break_step Hstep.
    all: try congruence.
    all: constructor; cbn; try reflexivity; try congruence.
    all: eexists; eexists; (split; [reflexivity |]); cbn;
      repeat split; try assumption; try discriminate; try reflexivity;
      try tauto; try congruence.
  - (* there is no third thread *)
    destruct spawned as [| new [| extra rest]]; [| | contradiction];
      cbn in Hnth; try discriminate Hnth.
    destruct i; discriminate Hnth.
Qed.

Lemma switch_inv_step (path0 audio_path_arg : option String.string)
    (sys sys' : system) (ev : event) :
  switch_inv path0 audio_path_arg sys ->
  step integrated_loudness fs sys ev sys' ->
  switch_inv path0 audio_path_arg sys'.
Proof.
  intros Hinv Hstep.
  destruct Hstep as [sys c' s' sp Hc | sys i e t t' s' Hnth Hs].
  - apply switch_inv_ctrl; assumption.
  - apply (switch_inv_stream _ _ _ _ e t); assumption.
Qed.

(** Every step of a paused switch uses up some of the measure. *)
Lemma switch_measure_step (path0 audio_path_arg : option String.string)
    (sys sys' : system) (ev : event) :
  switch_inv path0 audio_path_arg sys ->
  step integrated_loudness fs sys ev sys' ->
  (switch_measure sys' < switch_measure sys)%nat.
Proof.
  intros [Hloc Harg Hunp Hstop Hpath
            (prior & spawned & Hth & Hok & Hp & Hsig & Hcf & Hsp)] Hstep.
  destruct Hstep as [sys c' s' sp Hc | sys i e t t' s' Hnth Hs];
    destruct sys as [p [pc a ch loc] ths];
    cbn [sys_player sys_ctrl sys_threads c_pc c_audio_path c_is_unpaused] in *;
    subst ths a loc; unfold switch_measure;
    cbn [sys_player sys_ctrl sys_threads c_pc].
  - destruct spawned as [| new [| extra rest]]; [| | contradiction].
    2: { destruct Hsp as (Hret & _). subst pc. discriminate. }
    unfold controller_step in Hc. cbn [c_pc] in Hc.
    destruct (st_pc prior) as [| | | | | | | [| |] | | | | | |] eqn:Epc;
      try discriminate Hok.
    all: destruct pc; cbn in Hsig, Hc;
      try (specialize (Hsig eq_refl); discriminate Hsig);
      try (destruct (no_audio_loaded p); [| discriminate Hc]);
      try discriminate Hc; injection Hc as <- <- <-;
      cbn; rewrite ?Epc; cbn; try rewrite Hstop; cbn; lia.
  - pose proof (stream_step_player integrated_loudness fs e t t' p s' Hs)
      as Hpl.
    destruct i as [| [| i]].
    + cbn [nth_error] in Hnth. injection Hnth as <-.
      unfold stream_step in Hs.
      destruct (st_pc prior) as [| | | | | | | [| |] | | | | | |] eqn:Epc;
        try discriminate Hok.
      all: break_step Hs.
      all: try (use_same Hpl).
      all: destruct pc; cbn in Hunp, Hstop; try discriminate Hunp.
      all: cbn [update_nth fold_right st_pc at_pc with_cb with_p is_stopped
                set_no_audio_loaded set_current_frame set_audio_frames
                set_audio_sample_rate];
        rewrite ?Epc;
        repeat match goal with
               | H : is_stopped ?x = _ |- context [is_stopped ?x] => rewrite H
               end;
        cbn [thread_measure]; lia.
    + destruct spawned as [| new [| extra rest]];
        [discriminate | | contradiction].
      cbn [nth_error] in Hnth. injection Hnth as <-.
      destruct Hsp as (Hret & Hpark & Hlog & Hnal). subst pc.
      cbn in Hunp, Hstop.
      unfold stream_step in Hs.
      destruct (st_pc new) as [| | | | | | | [| |] | | | | | |] eqn:Epc;
        try discriminate Hpark.
      all: break_step Hs.
      all: try congruence.
      all: cbn [update_nth fold_right st_pc at_pc with_cb with_p with_file
                with_info is_stopped
                set_no_audio_loaded set_current_frame set_audio_frames
                set_audio_sample_rate];
        rewrite ?Epc;
        repeat match goal with
               | H : is_stopped ?x = _ |- context [is_stopped ?x] => rewrite H
               end;
        cbn [thread_measure]; lia.
    + destruct spawned as [| new [| extra rest]]; [| | contradiction];
        cbn in Hnth; try discriminate Hnth.
      destruct i; discriminate Hnth.
Qed.

(** Until the caller has returned and the prior stream has left, some
    thread can move. *)
Lemma switch_progress (path0 audio_path_arg : option String.string)
    (sys : system) :
  switch_inv path0 audio_path_arg sys ->
  c_pc (sys_ctrl sys) <> CReturned
  \/ (exists prior rest,
        sys_threads sys = prior :: rest /\ st_pc prior <> LExit) ->
  exists ev sys', step integrated_loudness fs sys ev sys'.
Proof.
  intros [Hloc Harg Hunp Hstop Hpath
            (prior & spawned & Hth & Hok & Hp & Hsig & Hcf & Hsp)] Hnot.
  assert (Hprior : st_pc prior <> LExit ->
                   (st_pc prior = L172 CbWait ->
                    is_playback_unpaused (sys_player sys) = true) ->
                   exists ev sys', step integrated_loudness fs sys ev sys').
  { intros Hne Hwait.
    assert (Hs : exists r,
               stream_step integrated_loudness fs EnvOk prior (sys_player sys)
               = Some r).
    { unfold stream_step.
      destruct (st_pc prior) as [| | | | | | | [| |] | | | | | |] eqn:Epc;
        try discriminate Hok; try (contradiction Hne; reflexivity).
      - rewrite (Hwait eq_refl). eexists; reflexivity.
      - destruct (is_stopped (sys_player sys)); eexists; reflexivity.
      - destruct (st_file prior); [| eexists; reflexivity].
        destruct (callback_locked _ _ _ _) as [[[o [|]] |] st'];
          eexists; reflexivity.
      - eexists; reflexivity.
      - destruct (st_p prior); eexists; reflexivity.
      - eexists; reflexivity.
      - eexists; reflexivity. }
    destruct Hs as ([t' s'] & Hs).
    eexists. eexists. apply (step_stream integrated_loudness fs sys 0 EnvOk prior t' s').
    - rewrite Hth. reflexivity.
    - exact Hs. }
  destruct (controller_step (sys_ctrl sys) (sys_player sys))
    as [[[c' s'] sp] |] eqn:Ec.
  - eexists. eexists. apply (step_ctrl integrated_loudness fs sys c' s' sp Ec).
  - unfold controller_step in Ec.
    destruct (c_pc (sys_ctrl sys)) eqn:Epc; try discriminate Ec.
    + (* blocked on the barrier: the prior stream has not signalled *)
      destruct (no_audio_loaded (sys_player sys)) eqn:En; [discriminate Ec |].
      destruct spawned as [| new [| extra rest]]; [| | contradiction].
      * destruct Hsp as (_ & Hnal). cbn in Hnal. rewrite ?En in Hnal.
        apply Hprior.
        -- intros E. rewrite E in Hnal. discriminate.
        -- intros _. exact Hunp.
      * destruct Hsp as (Hret & _). discriminate.
    + (* the caller has returned: the prior stream is at its last step *)
      destruct Hnot as [Hnot | (prior' & rest & Hth' & Hne)];
        [contradiction Hnot; reflexivity |].
      rewrite Hth in Hth'. injection Hth' as <- <-.
      apply Hprior; [exact Hne |].
      intros E. specialize (Hsig eq_refl). rewrite E in Hsig. discriminate.
Qed.



Lemma stream_step_signals (e : env) (t t' : stream_thread) (s s' : AudioPlayer) :
  stream_step integrated_loudness fs e t s = Some (t', s') ->
  signalled (st_pc t') = true ->
  signalled (st_pc t) = true \/ st_pc t = L178.
Proof.
  unfold stream_step. intros H Hs.
  destruct (st_pc t) as [| | | | | | | [| |] | | | | | |];
    try (right; reflexivity); try (left; reflexivity);
    break_step H; discriminate Hs.
Qed.

Lemma sys_step_step (ch : choice) (sys sys' : system) (ev : event) :
  sys_step integrated_loudness fs ch sys = Some (ev, sys') ->
  step integrated_loudness fs sys ev sys'.
Proof.
  unfold sys_step. intros H. destruct ch as [| i e].
  - destruct (controller_step (sys_ctrl sys) (sys_player sys))
      as [[[c' s'] sp] |] eqn:E; [| discriminate].
    injection H as <- <-. apply step_ctrl. exact E.
  - destruct (nth_error (sys_threads sys) i) as [t |] eqn:En; [| discriminate].
    destruct (stream_step integrated_loudness fs e t (sys_player sys))
      as [[t' s'] |] eqn:E; [| discriminate].
    injection H as <- <-. apply (step_stream _ _ sys i e t t' s' En E).
Qed.

Lemma sys_exec_run (chs : list choice) (sys0 sys sys' : system)
    (tr tr' : list event) :
  run integrated_loudness fs sys0 tr sys ->
  sys_exec integrated_loudness fs chs tr sys = Some (tr', sys') ->
  run integrated_loudness fs sys0 tr' sys'.
Proof.
  revert tr sys. induction chs as [| ch chs IH]; intros tr sys Hrun H.
  - injection H as <- <-. exact Hrun.
  - cbn [sys_exec] in H.
    destruct (sys_step integrated_loudness fs ch sys) as [[ev sys1] |] eqn:E;
      [| discriminate].
    apply sys_step_step in E.
    apply (IH (tr ++ [ev]) sys1); [| exact H].
    apply (run_snoc _ _ sys0 tr sys ev sys1 Hrun E).
Qed.

(** What holds along every run of a paused switch. *)
Lemma switch_run_inv (audio_path_arg : option String.string) (chunk_size : Z)
    (sys0 sys : system) (tr : list event) :
  paused_switch audio_path_arg chunk_size sys0 ->
  run integrated_loudness fs sys0 tr sys ->
  switch_inv (audio_path (sys_player sys0)) audio_path_arg sys
  /\ (length tr + switch_measure sys <= switch_measure sys0)%nat
  /\ (forall prior rest,
         sys_threads sys = prior :: rest ->
         signalled (st_pc prior) = true -> In (EvStream 0 L178) tr)
  /\ (forall tr1 tr2,
         tr = tr1 ++ EvCtrl C122 :: tr2 -> In (EvStream 0 L178) tr1).
Proof.
  intros Hinit Hrun.
  induction Hrun as [sys | sys0 tr sys ev sys' Hrun IH Hstep].
  - split; [apply (switch_inv_init _ chunk_size); exact Hinit |].
    split; [simpl; lia |]. split.
    + intros prior rest Hth Hsig.
      destruct Hinit as (_ & _ & _ & _ & prior0 & cb & Hth0 & Hpc & _).
      rewrite Hth0 in Hth. injection Hth as <- _.
      rewrite Hpc in Hsig. discriminate.
    + intros [| x tr1] tr2 H; discriminate.
  - destruct (IH Hinit) as (Hinv & Hmeas & Hsig & Hbar). clear IH.
    split; [apply (switch_inv_step _ _ _ _ _ Hinv Hstep) |].
    split.
    { pose proof (switch_measure_step _ _ _ _ _ Hinv Hstep) as Hlt.
      rewrite length_app. simpl. lia. }
    assert (Hsig' : forall prior rest,
               sys_threads sys' = prior :: rest ->
               signalled (st_pc prior) = true ->
               In (EvStream 0 L178) (tr ++ [ev])).
    { intros prior rest Hth Hs. apply in_or_app.
      destruct Hinv as [_ _ _ _ _ (prior0 & spawned & Hth0 & _)].
      destruct Hstep as [sys c' s' sp Hc | sys i e t t' s' Hnth Hst];
        cbn [sys_threads] in Hth.
      - rewrite Hth0 in Hth. cbn in Hth. injection Hth as <- _.
        left. apply (Hsig prior0 spawned Hth0 Hs).
      - rewrite Hth0 in Hth, Hnth. destruct i as [| i].
        + cbn in Hth, Hnth. injection Hth as <- _. injection Hnth as <-.
          destruct (stream_step_signals e prior0 t' _ _ Hst Hs) as [Hb | Hb].
          * left. apply (Hsig prior0 spawned Hth0 Hb).
          * right. rewrite Hb. left. reflexivity.
        + cbn in Hth. injection Hth as <- _.
          left. apply (Hsig prior0 spawned Hth0 Hs). }
    split; [exact Hsig' |].
    intros tr1 tr2 Heq.
    destruct tr2 as [| x tr2] using rev_ind.
    + apply app_inj_tail in Heq. destruct Heq as [<- ->].
      remember (EvCtrl C122) as ev0 eqn:Eev in Hstep.
      destruct Hstep as [sys c' s' sp Hc | sys i e t t' s' Hnth Hst];
        [injection Eev as Hev | discriminate Eev].
      unfold controller_step in Hc. rewrite Hev in Hc.
      destruct (no_audio_loaded (sys_player sys)) eqn:En; [| discriminate].
      destruct Hinv as [_ _ _ _ _ (prior0 & spawned & Hth0 & _ & _ & _ & _ & Hsp)].
      rewrite Hev in Hsp.
      destruct spawned as [| new [| extra rest]]; [| | contradiction].
      * destruct Hsp as (_ & Hnal). cbn in Hnal.
        apply (Hsig prior0 [] Hth0). congruence.
      * destruct Hsp as (Hret & _). discriminate.
    + clear IHtr2.
      change (tr1 ++ EvCtrl C122 :: tr2 ++ [x])
        with (tr1 ++ (EvCtrl C122 :: tr2) ++ [x]) in Heq.
      rewrite app_assoc in Heq. apply app_inj_tail in Heq.
      destruct Heq as [Heq _]. apply (Hbar tr1 tr2 Heq).
Qed.


Lemma paused_switch_measure (audio_path_arg : option String.string)
    (chunk_size : Z) (sys0 : system) :
  paused_switch audio_path_arg chunk_size sys0 ->
  (switch_measure sys0 <= 31)%nat.
Proof.
  intros (Hc & _ & Hstop & _ & prior & cb & Hth & Hpc & _).
  unfold switch_measure. rewrite Hc, Hth, Hstop. cbn. rewrite Hpc.
  destruct cb; cbn; lia.
Qed.

(** C1: when [start_audio_playback] is called while a stream is active and
    playback is paused, every run of the caller and the stream threads has
    these properties.  The caller's statements happen in program order:
    stop is signalled first, then the unpaused signal is forced, then the
    caller waits, then it restores the pause.  It passes the barrier only
    after the prior stream has set [no_audio_loaded] on its way out, and
    while it waits both the stop and the unpaused signal are set.  No run
    has more than 31 steps, and until the caller has returned and the prior
    stream has left some thread can move, so the call completes in every
    run.  Once the caller has returned, playback is paused again, the stop
    flag is clear, the path is the requested one, the new stream has read
    nothing, and with the prior stream gone [current_frame] is 0. *)
Theorem paused_switch_completes :
  forall (audio_path_arg : option String.string) (chunk_size : Z)
         (sys0 sys : system) (tr : list event),
    paused_switch audio_path_arg chunk_size sys0 ->
    run integrated_loudness fs sys0 tr sys ->
    ctrl_events tr = firstn (ctrl_index (c_pc (sys_ctrl sys))) program_order
    /\ (forall tr1 tr2,
           tr = tr1 ++ EvCtrl C122 :: tr2 -> In (EvStream 0 L178) tr1)
    /\ (c_pc (sys_ctrl sys) = C122 ->
        is_stopped (sys_player sys) = true
        /\ is_playback_unpaused (sys_player sys) = true)
    /\ (length tr <= 31)%nat
    /\ (c_pc (sys_ctrl sys) <> CReturned
        \/ (exists prior rest,
              sys_threads sys = prior :: rest /\ st_pc prior <> LExit) ->
        exists ev sys', step integrated_loudness fs sys ev sys')
    /\ (c_pc (sys_ctrl sys) = CReturned ->
        is_playback_unpaused (sys_player sys) = false
        /\ is_stopped (sys_player sys) = false
        /\ audio_path (sys_player sys)
           = match audio_path_arg with
             | Some path => Some path
             | None => audio_path (sys_player sys0)
             end
        /\ exists prior new,
             sys_threads sys = [prior; new]
             /\ signalled (st_pc prior) = true
             /\ st_log new = []
             /\ (st_pc prior = LExit ->
                 current_frame (sys_player sys) = 0%Z)).
Proof.
  intros audio_path_arg chunk_size sys0 sys tr Hinit Hrun.
  destruct (switch_run_inv _ _ _ _ _ Hinit Hrun) as (Hinv & Hmeas & _ & Hbar).
  split.
  { apply (ctrl_events_in_program_order sys0 sys tr Hrun).
    destruct Hinit as (Hc & _). rewrite Hc. reflexivity. }
  split; [exact Hbar |]. split.
  { intros Hpc. destruct Hinv as [_ _ Hunp Hstop _ _].
    rewrite Hpc in Hunp, Hstop. split; assumption. }
  split.
  { pose proof (paused_switch_measure _ _ _ Hinit). lia. }
  split; [apply (switch_progress _ _ _ Hinv) |].
  intros Hret.
  destruct Hinv as [_ _ Hunp Hstop Hpath
                      (prior & spawned & Hth & _ & _ & Hsig & Hcf & Hsp)].
  rewrite Hret in Hunp, Hstop, Hpath, Hsig, Hsp. cbn in Hpath, Hsig.
  split; [exact Hunp |]. split; [exact Hstop |]. split; [exact Hpath |].
  destruct spawned as [| new [| extra rest]]; [| | contradiction].
  - destruct Hsp as (Hne & _). contradiction Hne. reflexivity.
  - destruct Hsp as (_ & _ & Hlog & _).
    exists prior, new. repeat split; auto.
Qed.

End SwitchFacts.

Lemma paused_switch_completes_witness :
  paused_switch (Some Paths.b_wav) 2 paused_on_a
  /\ run steady_meter two_files paused_on_a (fst switched) (snd switched)
  /\ ctrl_events (fst switched) = program_order
  /\ c_pc (sys_ctrl (snd switched)) = CReturned
  /\ is_playback_unpaused (sys_player (snd switched)) = false
  /\ audio_path (sys_player (snd switched)) = Some Paths.b_wav
  /\ current_frame (sys_player (snd switched)) = 0%Z
  /\ (length (fst switched) <= 31)%nat.
Proof.
  assert (Hinit : paused_switch (Some Paths.b_wav) 2 paused_on_a).
  { repeat split. eexists. exists CbWait. repeat split. }
  assert (Hexec : sys_exec steady_meter two_files switch_schedule []
                    paused_on_a = Some switched).
  { unfold switched.
    destruct (sys_exec steady_meter two_files switch_schedule [] paused_on_a)
      as [r |] eqn:E; [reflexivity |].
    vm_compute in E. discriminate E. }
  assert (Hrun : run steady_meter two_files paused_on_a (fst switched)
                   (snd switched)).
  { apply (sys_exec_run steady_meter two_files switch_schedule paused_on_a
             paused_on_a (snd switched) [] (fst switched)).
    - apply run_nil.
    - rewrite Hexec. destruct switched. reflexivity. }
  split; [exact Hinit |]. split; [exact Hrun |].
  destruct (paused_switch_completes steady_meter two_files
              (Some Paths.b_wav) 2 paused_on_a (snd switched) (fst switched)
              Hinit Hrun)
    as (Hord & _ & _ & Hlen & _ & Hend).
  assert (Hret : c_pc (sys_ctrl (snd switched)) = CReturned)
    by (vm_compute; reflexivity).
  split; [rewrite Hord, Hret; reflexivity |].
  destruct (Hend Hret) as (Hunp & _ & Hpath & prior & new & Hth & _ & _ & Hcf).
  split; [exact Hret |]. split; [exact Hunp |]. split; [exact Hpath |].
  split; [| exact Hlen].
  apply Hcf.
  assert (Hpc : option_map st_pc (nth_error (sys_threads (snd switched)) 0)
                = Some LExit) by (vm_compute; reflexivity).
  rewrite Hth in Hpc. cbn in Hpc. injection Hpc as Hpc. exact Hpc.
Defined.

Local Close Scope Z_scope.

(** * Further properties of the player and its callers *)

(** ** Controls *)

(** X1: [set_volume] stores a value in [0, 1] whatever it is given: the
    argument itself when that lies in [0, 1], 0 below and 1 above; storing
    the stored volume again changes nothing, and no attribute but [volume]
    is touched. *)
Theorem set_volume_clamps :
  forall (v : R) (s : AudioPlayer),
    0 <= volume (set_volume v s) <= 1
    /\ (0 <= v <= 1 -> volume (set_volume v s) = v)
    /\ (v < 0 -> volume (set_volume v s) = 0)
    /\ (1 < v -> volume (set_volume v s) = 1)
    /\ set_volume (volume (set_volume v s)) (set_volume v s) = set_volume v s
    /\ set_volume_field (volume s) (set_volume v s) = s.
Proof.
  intros v s. split; [apply set_volume_in_range |].
  unfold set_volume. cbn [volume set_volume_field].
  assert (Hclamp : forall x, 0 <= x <= 1 -> py_min (py_max 0 x) 1 = x).
  { intros x Hx. unfold py_min, py_max.
    destruct (Rlt_dec 0 x); destruct (Rlt_dec 1 _); lra. }
  split; [exact (Hclamp v) |]. split; [| split; [| split]].
  - intros Hv. unfold py_min, py_max.
    destruct (Rlt_dec 0 v); destruct (Rlt_dec 1 _); lra.
  - intros Hv. unfold py_min, py_max.
    destruct (Rlt_dec 0 v); destruct (Rlt_dec 1 _); lra.
  - cbn [volume].
    rewrite (Hclamp (py_min (py_max 0 v) 1)) by (apply py_clamp_bounds; lra).
    destruct s; reflexivity.
  - destruct s; reflexivity.
Qed.

Lemma set_volume_clamps_witness :
  0 <= volume (set_volume (1 / 2) loaded_player) <= 1
  /\ volume (set_volume (1 / 2) loaded_player) = 1 / 2.
Proof.
  destruct (set_volume_clamps (1 / 2) loaded_player) as (Hr & Hid & _).
  split; [exact Hr |]. apply Hid. lra.
Defined.

(** X2: with no file loaded ([audio_frames <= 0]) [seek] leaves the player
    as it is; with a file loaded it changes the cursor and nothing else. *)
Theorem seek_ignored_when_unloaded :
  forall (position : R) (percentage : bool) (s : AudioPlayer),
    ((audio_frames s <= 0)%Z -> seek position percentage s = s)
    /\ set_current_frame (current_frame s) (seek position percentage s) = s.
Proof.
  intros position percentage s. unfold seek. split.
  - intros H. destruct (0 <? audio_frames s)%Z eqn:E; [| reflexivity].
    apply Z.ltb_lt in E. lia.
  - destruct (0 <? audio_frames s)%Z; destruct percentage; destruct s;
      reflexivity.
Qed.

Lemma seek_ignored_when_unloaded_witness :
  (audio_frames (init_with_volume 1) <= 0)%Z
  /\ seek (1 / 2) true (init_with_volume 1) = init_with_volume 1.
Proof.
  assert (H : (audio_frames (init_with_volume 1) <= 0)%Z) by (cbn; lia).
  split; [exact H |].
  exact (proj1 (seek_ignored_when_unloaded (1 / 2) true (init_with_volume 1)) H).
Defined.

(** X3: with a file loaded [toggle_pause] flips the unpaused signal and
    nothing else, so two calls in a row restore the player; [pause_audio]
    followed by [unpause_audio] leaves playback unpaused. *)
Theorem toggle_pause_flips_when_loaded :
  forall s : AudioPlayer,
    (0 < audio_frames s)%Z ->
    toggle_pause s = set_unpaused (negb (is_playback_unpaused s)) s
    /\ toggle_pause (toggle_pause s) = s
    /\ is_playback_unpaused (unpause_audio (pause_audio s)) = true
    /\ is_playback_unpaused (pause_audio (unpause_audio s)) = false.
Proof.
  intros s H. apply Z.ltb_lt in H.
  unfold toggle_pause, pause_audio, unpause_audio.
  destruct s as [vol nmax nmin nbias apath chans frames rate unp stp nal foc
                   disp skip ratio cf].
  cbn in H |- *. rewrite H. destruct unp; cbn; rewrite H; cbn; rewrite ?H;
    repeat split.
Qed.

Lemma toggle_pause_flips_when_loaded_witness :
  (0 < audio_frames loaded_player)%Z
  /\ toggle_pause (toggle_pause loaded_player) = loaded_player.
Proof.
  assert (H : (0 < audio_frames loaded_player)%Z) by (cbn; lia).
  split; [exact H |].
  apply (toggle_pause_flips_when_loaded loaded_player H).
Defined.

(** X4: whatever [display_skip_rate] the constructor is given, the player
    it builds has a skip rate of at least 1, so the slice
    [display_frame_data[::display_skip_rate]] of the look-ahead neither
    fails on a zero step nor walks backwards. *)
Theorem constructor_skip_rate_at_least_one :
  forall (nmax nmin nbias vol : R) (path : option String.string)
         (ratio skip : Z) (l : chunk),
    let s := init nmax nmin nbias vol path ratio skip in
    (1 <= display_skip_rate s)%Z
    /\ display_skip_rate s = Z.max 1 skip
    /\ py_slice_step (display_skip_rate s) l
       = Some (take_every_aux (Z.to_nat (display_skip_rate s)) 0 l).
Proof.
  intros nmax nmin nbias vol path ratio skip l s.
  assert (H : (1 <= display_skip_rate s)%Z /\ display_skip_rate s = Z.max 1 skip).
  { subst s. cbn. destruct (1 <? skip)%Z eqn:E.
    - apply Z.ltb_lt in E. lia.
    - apply Z.ltb_ge in E. lia. }
  destruct H as [H1 H2]. split; [exact H1 |]. split; [exact H2 |].
  unfold py_slice_step.
  destruct (display_skip_rate s =? 0)%Z eqn:E0; [apply Z.eqb_eq in E0; lia |].
  destruct (0 <? display_skip_rate s)%Z eqn:E1; [reflexivity |].
  apply Z.ltb_ge in E1. lia.
Qed.

(** ** The audio path of the callback *)

Lemma sf_seek_some (file : SoundFile) (n pos : Z) :
  sf_seek file n = Some pos -> pos = n /\ (0 <= n <= sf_frames file)%Z.
Proof.
  unfold sf_seek. intros H.
  destruct (0 <=? n)%Z eqn:E1; destruct (n <=? sf_frames file)%Z eqn:E2;
    try discriminate.
  injection H as <-. apply Z.leb_le in E1. apply Z.leb_le in E2. lia.
Qed.

Lemma length_zero_fix (data : chunk) : length (zero_fix data) = length data.
Proof. unfold zero_fix. apply length_map. Qed.

Section AudioPath.

Variable integrated_loudness : Z -> R -> chunk -> meter_result.

(** The value the callback returns is that of the display-free pipeline. *)
Lemma callback_locked_audio (file : SoundFile) (fc : Z) (st : cb_state) :
  fst (callback_locked integrated_loudness file fc st)
  = callback_audio integrated_loudness file fc (cb_player st).
Proof.
  unfold callback_audio.
  destruct (sf_seek file (current_frame (cb_player st))) as [pos |] eqn:Es.
  - destruct (sf_seek_some _ _ _ Es) as [-> _].
    assert (Hs : sf_seek file (current_frame (cb_player st)) <> None)
      by congruence.
    unfold window.
    destruct (callback_locked_result integrated_loudness file fc st Hs)
      as [s1 rd Hft | target s1 rd Hft Hempty
          | target s2 pos2 shown res s1 rd Hft Hne Hsame Hshown Hres];
      subst s1 rd; cbn [fst]; rewrite Hft.
    + reflexivity.
    + rewrite Hempty. reflexivity.
    + destruct (fst (sf_read file (current_frame (cb_player st)) fc))
        as [| fr rest] eqn:Ed; [contradiction Hne; reflexivity |].
      cbn [length Nat.eqb]. rewrite Hres.
      apply same_but_display_fields in Hsame.
      destruct Hsame as (_ & Hv & _). cbn [volume set_current_frame] in Hv.
      rewrite Hv. reflexivity.
  - rewrite (callback_locked_seek_refused integrated_loudness file fc st Es).
    reflexivity.
Qed.

(** X5: what the callback hands to the device, and where it leaves the
    cursor, does not depend on whether the window is focused, nor on the
    file position or the log it starts from: the look-ahead for the display
    never changes, delays or aborts the audio. *)
Theorem callback_audio_ignores_display :
  forall (file : SoundFile) (frame_count : Z) (s : AudioPlayer)
         (focused : bool) (pos pos' : Z) (log log' : list cb_op),
    let shown :=
      callback_locked integrated_loudness file frame_count
        (mkCbState (set_window_focused focused s) pos log) in
    let plain :=
      callback_locked integrated_loudness file frame_count
        (mkCbState s pos' log') in
    fst shown = fst plain
    /\ current_frame (cb_player (snd shown))
       = current_frame (cb_player (snd plain)).
Proof.
  intros file fc s focused pos pos' log log' shown plain. subst shown plain.
  split.
  - rewrite !callback_locked_audio. cbn [cb_player].
    destruct s; reflexivity.
  - destruct (sf_seek file (current_frame s)) as [p |] eqn:Es.
    + rewrite !callback_locked_advances; cbn [cb_player]; try congruence.
      * destruct s; reflexivity.
      * destruct s; cbn in *; congruence.
    + rewrite (callback_locked_seek_refused integrated_loudness file fc
                 (mkCbState s pos' log') Es).
      rewrite (callback_locked_seek_refused integrated_loudness file fc
                 (mkCbState (set_window_focused focused s) pos log)).
      * destruct s; reflexivity.
      * destruct s; exact Es.
Qed.

Lemma find_target_loudness_nonpos (s : AudioPlayer) (p : loudness_params)
    (data : chunk) (target : R) :
  find_target_loudness integrated_loudness s p data = Some target ->
  target <= 0.
Proof.
  unfold find_target_loudness.
  destruct (audio_sample_rate s =? 0)%Z; [discriminate |].
  destruct (loudness_point p _); [| discriminate].
  intros [= <-]. unfold py_min. destruct (Rlt_dec 0 _); lra.
Qed.

Lemma peak_scale_le_1 (target : R) : target <= 0 -> peak_scale target <= 1.
Proof.
  intros H. unfold peak_scale, Rpower.
  rewrite <- exp_0.
  assert (Hln : 0 < ln 10).
  { rewrite <- ln_1. apply ln_increasing; lra. }
  destruct (Req_dec target 0) as [-> | Hne].
  - right. f_equal. lra.
  - left. apply exp_increasing. nra.
Qed.

(** A callback that continues playback, taken apart. *)
Lemma callback_continue_inv (file : SoundFile) (fc : Z) (st st' : cb_state)
    (out : chunk) :
  callback_locked integrated_loudness file fc st
  = (Some (Some out, paContinue), st') ->
  exists target gain,
    target <= 0
    /\ out = map (map (fun x => (gain * x * 0.9 + 0.1 * x)
                                 * volume (cb_player st)))
               (zero_fix (window file (current_frame (cb_player st)) fc))
    /\ forall x,
         In x (samples (zero_fix (window file (current_frame (cb_player st))
                                    fc))) ->
         Rabs (gain * x) <= peak_scale target.
Proof.
  intros H.
  assert (Ha : callback_audio integrated_loudness file fc (cb_player st)
               = Some (Some out, paContinue)).
  { rewrite <- callback_locked_audio, H. reflexivity. }
  unfold callback_audio in Ha.
  destruct (sf_seek file (current_frame (cb_player st))) as [pos |] eqn:Es;
    [| discriminate].
  destruct (sf_seek_some _ _ _ Es) as [-> _].
  destruct (find_target_loudness integrated_loudness _ default_params _)
    as [target |] eqn:Eft; [| discriminate].
  destruct (length _ =? 0)%nat; [discriminate |].
  destruct (normalize_peak _ target) as [normalized |] eqn:En; [| discriminate].
  injection Ha as Hout.
  destruct (normalize_peak_spec _ _ _ En (zero_fix_nonzero _))
    as (gain & -> & Hg).
  exists target, gain.
  split; [apply (find_target_loudness_nonpos _ _ _ _ Eft) |].
  split; [| exact Hg].
  rewrite <- Hout, blend_of_scaled. unfold scale. rewrite map_map.
  apply map_ext. intros fr. rewrite map_map. reflexivity.
Qed.

Lemma In_skipn {A : Type} (n : nat) (l : list A) (x : A) :
  In x (skipn n l) -> In x l.
Proof.
  revert l. induction n as [| n IH]; intros [| a l]; simpl; auto.
Qed.

Lemma In_firstn' {A : Type} (n : nat) (l : list A) (x : A) :
  In x (firstn n l) -> In x l.
Proof.
  revert l. induction n as [| n IH]; intros [| a l]; simpl; auto.
  - intros [].
  - intros [-> | H]; auto.
Qed.

Lemma window_frames (file : SoundFile) (pos k : Z) (fr : frame) :
  In fr (window file pos k) -> In fr (sf_data file).
Proof.
  unfold window, sf_read. cbn [fst].
  destruct (k <? 0)%Z; intros H.
  - apply (In_skipn _ _ _ H).
  - apply (In_skipn (Z.to_nat pos)). apply (In_firstn' _ _ _ H).
Qed.

Lemma zero_fix_unit_range (data : chunk) :
  Forall (fun x => -1 <= x <= 1) (samples data) ->
  Forall (fun x => -1 <= x <= 1) (samples (zero_fix data)).
Proof.
  intros H. rewrite Forall_forall in *. intros x Hx.
  unfold samples, zero_fix in Hx. apply in_concat in Hx.
  destruct Hx as (fr' & Hfr & Hx).
  apply in_map_iff in Hfr. destruct Hfr as (fr & <- & Hfr).
  apply in_map_iff in Hx. destruct Hx as (y & <- & Hy).
  destruct (Req_dec_T y 0); [lra |].
  apply H. unfold samples. apply in_concat. exists fr. split; assumption.
Qed.

(** X6: when every sample of the file lies in [-1, 1] and the volume lies
    in [0, 1], every sample the callback hands to the device lies in
    [-1, 1]: normalization, blend and volume never push the output out of
    the range of the device format. *)
Theorem callback_output_stays_in_unit_range :
  forall (file : SoundFile) (frame_count : Z) (st st' : cb_state)
         (out : chunk),
    0 <= volume (cb_player st) <= 1 ->
    Forall (fun x => -1 <= x <= 1) (samples (sf_data file)) ->
    callback_locked integrated_loudness file frame_count st
    = (Some (Some out, paContinue), st') ->
    Forall (fun o => -1 <= o <= 1) (samples out).
Proof.
  intros file fc st st' out Hvol Hfile Hres.
  destruct (callback_continue_inv file fc st st' out Hres)
    as (target & gain & Ht & -> & Hg).
  assert (Hwin : Forall (fun x => -1 <= x <= 1)
                   (samples (zero_fix (window file
                                         (current_frame (cb_player st)) fc)))).
  { apply zero_fix_unit_range. rewrite Forall_forall in *. intros x Hx.
    apply Hfile. unfold samples in *. apply in_concat in Hx.
    destruct Hx as (fr & Hfr & Hx). apply in_concat. exists fr.
    split; [apply (window_frames _ _ _ _ Hfr) | exact Hx]. }
  rewrite Forall_forall in *. intros o Ho.
  unfold samples in Ho. apply in_concat in Ho. destruct Ho as (fr' & Hfr & Ho).
  apply in_map_iff in Hfr. destruct Hfr as (fr & <- & Hfr).
  apply in_map_iff in Ho. destruct Ho as (x & <- & Hx).
  assert (Hin : In x (samples (zero_fix (window file
                                           (current_frame (cb_player st)) fc)))).
  { unfold samples. apply in_concat. exists fr. split; assumption. }
  pose proof (Hg x Hin) as Hgx. pose proof (Hwin x Hin) as Hxr.
  pose proof (peak_scale_le_1 target Ht) as HP.
  pose proof (peak_scale_pos target) as HP0.
  assert (Habs : Rabs ((gain * x * 0.9 + 0.1 * x) * volume (cb_player st)) <= 1).
  { assert (Hx1 : Rabs x <= 1) by (apply Rabs_le; lra).
    pose proof (blend_sample_bound gain x (volume (cb_player st))
                  (peak_scale target) Hvol HP0 Hgx) as Hb.
    rewrite Rabs_mult, (Rabs_pos_eq (volume (cb_player st))) by lra.
    pose proof (Rabs_triang (gain * x * 0.9) (0.1 * x)) as Htri.
    rewrite (Rabs_mult (gain * x) 0.9), (Rabs_mult 0.1 x) in Htri.
    rewrite (Rabs_pos_eq 0.9), (Rabs_pos_eq 0.1) in Htri by lra.
    pose proof (Rabs_pos (gain * x * 0.9 + 0.1 * x)) as Hs.
    pose proof (Rabs_pos (gain * x)) as Hgp.
    nra. }
  unfold Rabs in Habs.
  destruct (Rcase_abs ((gain * x * 0.9 + 0.1 * x) * volume (cb_player st)));
    lra.
Qed.

End AudioPath.

(** The first callback on [small_player] continues with [first_chunk_out]. *)
Lemma first_callback_continues :
  callback_locked steady_meter two_frames 2 (mkCbState small_player 0 [])
  = (Some (Some first_chunk_out, paContinue), snd first_chunk_result).
Proof.
  unfold first_chunk_out, first_chunk_result.
  unfold callback_locked, cb_bind, cb_get, cb_tell, cb_seek, cb_modify,
    cb_read, cb_lift, cb_ret, cb_raise.
  cbn [cb_player cb_pos cb_log fst snd]. reflexivity.
Qed.

Lemma two_frames_unit_range :
  Forall (fun x => -1 <= x <= 1) (samples (sf_data two_frames)).
Proof. cbn. repeat constructor; lra. Qed.

Lemma callback_output_stays_in_unit_range_witness :
  0 <= volume (cb_player (mkCbState small_player 0 [])) <= 1
  /\ Forall (fun o => -1 <= o <= 1) (samples first_chunk_out).
Proof.
  assert (Hv : 0 <= volume (cb_player (mkCbState small_player 0 [])) <= 1)
    by (simpl; lra).
  split; [exact Hv |].
  exact (callback_output_stays_in_unit_range steady_meter two_frames 2
           (mkCbState small_player 0 []) (snd first_chunk_result)
           first_chunk_out Hv two_frames_unit_range first_callback_continues).
Defined.

Lemma firstn_plus {A : Type} (n m : nat) (l : list A) :
  firstn (n + m) l = firstn n l ++ firstn m (skipn n l).
Proof.
  revert l. induction n as [| n IH]; intros [| a l]; simpl;
    rewrite ?firstn_nil; try reflexivity.
  rewrite IH. reflexivity.
Qed.

(** Two windows that follow each other make up the window of their joint
    length: nothing is skipped and nothing is played twice. *)
Lemma window_append (file : SoundFile) (pos k k' : Z) :
  (0 <= pos)%Z -> (0 <= k)%Z -> (0 <= k')%Z ->
  window file pos k ++ window file (pos + k) k' = window file pos (k + k').
Proof.
  intros Hp Hk Hk'. unfold window, sf_read. cbn [fst].
  destruct (k <? 0)%Z eqn:E1; [apply Z.ltb_lt in E1; lia |].
  destruct (k' <? 0)%Z eqn:E2; [apply Z.ltb_lt in E2; lia |].
  destruct (k + k' <? 0)%Z eqn:E3; [apply Z.ltb_lt in E3; lia |].
  rewrite !Z2Nat.inj_add by lia.
  rewrite firstn_plus, skipn_skipn.
  rewrite (Nat.add_comm (Z.to_nat k) (Z.to_nat pos)). reflexivity.
Qed.

Section AudioPathMore.

Variable integrated_loudness : Z -> R -> chunk -> meter_result.

(** The first three steps of a callback whose seek is accepted. *)
Lemma callback_locked_reads_window (file : SoundFile) (fc : Z) (st : cb_state) :
  sf_seek file (current_frame (cb_player st)) <> None ->
  exists rest,
    cb_log (snd (callback_locked integrated_loudness file fc st))
    = cb_log st
      ++ OpSeek (current_frame (cb_player st)) :: OpAdvance fc
         :: OpRead (window file (current_frame (cb_player st)) fc) :: rest.
Proof.
  intros Hs. unfold window.
  destruct (callback_locked_result integrated_loudness file fc st Hs)
    as [s1 rd _ | target s1 rd _ _ | target s2 pos2 shown res s1 rd _ _ _ _ _];
    subst rd; cbn [snd cb_log]; eexists; reflexivity.
Qed.

(** X7: successive callbacks play successive windows of the file.  A
    callback that continues reads the [frame_count] frames that start at
    the cursor and moves the cursor by [frame_count]; the next callback
    seeks to that cursor and reads the window that follows, wherever the
    look-ahead for the display has left the file position; and the two
    windows together are the window of twice the length. *)
Theorem callbacks_play_consecutive_windows :
  forall (file : SoundFile) (frame_count : Z) (st st1 : cb_state)
         (out : option chunk),
    (0 <= frame_count)%Z ->
    callback_locked integrated_loudness file frame_count st
    = (Some (out, paContinue), st1) ->
    let cf := current_frame (cb_player st) in
    let second := callback_locked integrated_loudness file frame_count st1 in
    (exists rest,
        cb_log st1
        = cb_log st ++ OpSeek cf :: OpAdvance frame_count
                       :: OpRead (window file cf frame_count) :: rest)
    /\ current_frame (cb_player st1) = (cf + frame_count)%Z
    /\ (exists rest,
           cb_log (snd second)
           = cb_log st1 ++ OpSeek (cf + frame_count) :: rest
           /\ (sf_seek file (cf + frame_count) <> None ->
               exists rest',
                 rest = OpAdvance frame_count
                        :: OpRead (window file (cf + frame_count) frame_count)
                        :: rest'))
    /\ window file cf frame_count ++ window file (cf + frame_count) frame_count
       = window file cf (frame_count + frame_count).
Proof.
  intros file fc st st1 out Hfc Hres cf second. subst cf second.
  assert (Hs : sf_seek file (current_frame (cb_player st)) <> None).
  { intros Hn.
    rewrite (callback_locked_seek_refused integrated_loudness file fc st Hn)
      in Hres. discriminate. }
  assert (Hcf : current_frame (cb_player st1)
                = (current_frame (cb_player st) + fc)%Z).
  { pose proof (callback_locked_advances integrated_loudness file fc st Hs) as H.
    rewrite Hres in H. exact H. }
  split.
  { destruct (callback_locked_reads_window file fc st Hs) as (rest & Hlog).
    rewrite Hres in Hlog. exists rest. exact Hlog. }
  split; [exact Hcf |]. split.
  - destruct (sf_seek file (current_frame (cb_player st1))) as [p |] eqn:Es1.
    + assert (Hs1 : sf_seek file (current_frame (cb_player st1)) <> None)
        by congruence.
      destruct (callback_locked_reads_window file fc st1 Hs1) as (rest & Hlog).
      rewrite Hcf in Hlog. eexists. split; [exact Hlog |].
      intros _. eexists. reflexivity.
    + rewrite (callback_locked_seek_refused integrated_loudness file fc st1 Es1).
      cbn [snd cb_log]. rewrite Hcf. exists []. split; [reflexivity |].
      intros Hne. rewrite Hcf in Es1. contradiction.
  - apply window_append; try assumption.
    destruct (sf_seek file (current_frame (cb_player st))) as [p |] eqn:Es;
      [| contradiction Hs; reflexivity].
    apply sf_seek_some in Es. lia.
Qed.

(** X8: a callback whose seek is accepted, whose meter returns and whose
    window holds at least one sample continues playback: it returns a
    buffer of as many frames as it read. *)
Theorem callback_continues_on_data :
  forall (file : SoundFile) (frame_count : Z) (st : cb_state) (lp : R),
    sf_seek file (current_frame (cb_player st)) <> None ->
    samples (window file (current_frame (cb_player st)) frame_count) <> [] ->
    audio_sample_rate (cb_player st) <> 0%Z ->
    loudness_point default_params
      (integrated_loudness (audio_sample_rate (cb_player st))
         (INR (length (window file (current_frame (cb_player st))
                         frame_count))
          / IZR (audio_sample_rate (cb_player st)))
         (window file (current_frame (cb_player st)) frame_count))
    = Some lp ->
    exists out,
      fst (callback_locked integrated_loudness file frame_count st)
      = Some (Some out, paContinue)
      /\ length out
         = length (window file (current_frame (cb_player st)) frame_count).
Proof.
  intros file fc st lp Hs Hdata Hrate Hlp.
  rewrite callback_locked_audio. unfold callback_audio.
  destruct (sf_seek file (current_frame (cb_player st))) as [pos |] eqn:Es;
    [| contradiction Hs; reflexivity].
  destruct (sf_seek_some _ _ _ Es) as [-> _].
  set (data := window file (current_frame (cb_player st)) fc) in *.
  unfold find_target_loudness. cbn [audio_sample_rate set_current_frame].
  destruct (audio_sample_rate (cb_player st) =? 0)%Z eqn:E0;
    [apply Z.eqb_eq in E0; contradiction |].
  rewrite Hlp.
  destruct data as [| fr rest] eqn:Ed; [contradiction Hdata; reflexivity |].
  cbn [length Nat.eqb].
  unfold normalize_peak.
  destruct (np_max (map Rabs (samples (zero_fix (fr :: rest))))) as [peak |]
    eqn:Ep.
  - eexists. split; [reflexivity |].
    unfold scale, blend. rewrite length_map.
    rewrite zip_with_map_same. rewrite length_map, length_zero_fix.
    reflexivity.
  - exfalso. unfold np_max in Ep.
    destruct (map Rabs (samples (zero_fix (fr :: rest)))) eqn:Em;
      [| discriminate].
    apply map_eq_nil in Em. apply Hdata.
    unfold samples, zero_fix in Em |- *.
    clear - Em. revert Em. generalize (fr :: rest).
    induction l as [| a l IH]; [reflexivity |].
    cbn. intros H. apply app_eq_nil in H. destruct H as [Ha Hl].
    apply map_eq_nil in Ha. subst a. cbn. apply IH. exact Hl.
Qed.

(** X9: with the keyword defaults of [find_target_loudness] and samples in
    [-1, 1], the target loudness lies between -50 and -9.18 dB whatever the
    meter reports, so it is never clamped at 0. *)
Theorem default_target_loudness_range :
  forall (s : AudioPlayer) (audio_data : chunk) (target : R),
    Forall (fun x => -1 <= x <= 1) (samples audio_data) ->
    find_target_loudness integrated_loudness s default_params audio_data
    = Some target ->
    -50 <= target <= -9.18.
Proof.
  intros s data target Hunit Hft.
  unfold find_target_loudness in Hft.
  destruct (audio_sample_rate s =? 0)%Z; [discriminate |].
  destruct (loudness_point default_params _) as [lp |] eqn:Elp;
    [| discriminate].
  injection Hft as <-.
  assert (Hlp : -70 <= lp <= 0).
  { destruct (integrated_loudness _ _ _) as [| | l]; cbn in Elp.
    - discriminate.
    - injection Elp as <-. lra.
    - injection Elp as <-. unfold py_max, py_min.
      repeat match goal with
             | |- context [Rlt_dec ?a ?b] => destruct (Rlt_dec a b)
             end; lra. }
  assert (Hm : 0.975 <= audio_std_target_loudness default_params data <= 1).
  { split.
    - unfold audio_std_target_loudness.
      cbn [default_params std__compression_max std_compression_factor
           expected_std_max].
      pose proof (py_pow_nonneg (audio_std data) 0.8) as H1.
      pose proof (py_pow_nonneg 3.5 (Ropp 0.8)) as H2.
      assert (H3 : 0 <= py_pow (audio_std data) 0.8 * py_pow 3.5 (Ropp 0.8))
        by (apply Rmult_le_pos; assumption).
      nra.
    - unfold audio_std_target_loudness.
      cbn [default_params std__compression_max std_compression_factor
           expected_std_max].
      pose proof (py_pow_ratio_le_1 (audio_std data) 3.5 0.8) as Hr.
      assert (Hstd : audio_std data <= 1) by (apply audio_std_unit_range; exact Hunit).
      pose proof (audio_std_nonneg data) as H0.
      specialize (Hr ltac:(lra) ltac:(lra) ltac:(lra)). nra. }
  assert (Hlt : loudness_point_target_loudness default_params lp
                = 40 * (lp + 70) / 69 - 50).
  { unfold loudness_point_target_loudness.
    cbn [default_params input_range target_dynamic_range
         loudness_compression_factor loudness_upper_limit].
    assert (H1 : py_pow (lp + 70) (1 / 1) = lp + 70).
    { unfold py_pow. replace (1 / 1) with 1 by lra.
      destruct (Req_dec_T (lp + 70) 0) as [E | E].
      - destruct (Req_dec_T 1 0); lra.
      - apply Rpower_1. lra. }
    assert (H2 : py_pow (70 - 1) ((-1) / 1) = / 69).
    { unfold py_pow. destruct (Req_dec_T (70 - 1) 0); [lra |].
      replace ((-1) / 1) with (- (1)) by lra.
      rewrite Rpower_Ropp, Rpower_1 by lra. f_equal. lra. }
    rewrite H1, H2. field. }
  rewrite Hlt.
  set (m := audio_std_target_loudness default_params data) in *.
  assert (Hneg : 40 * (lp + 70) / 69 - 50 <= -650 / 69) by lra.
  assert (Hlow : -50 <= 40 * (lp + 70) / 69 - 50) by lra.
  set (t := 40 * (lp + 70) / 69 - 50) in *.
  unfold py_min. destruct (Rlt_dec 0 (t * m)); nra.
Qed.

End AudioPathMore.

Lemma callback_continues_on_data_witness :
  sf_seek two_frames (current_frame (cb_player (mkCbState small_player 0 [])))
  <> None
  /\ samples (window two_frames 0 2) <> []
  /\ audio_sample_rate small_player <> 0%Z
  /\ exists out,
       fst (callback_locked steady_meter two_frames 2
              (mkCbState small_player 0 []))
       = Some (Some out, paContinue)
       /\ length out = length (window two_frames 0 2).
Proof.
  assert (H1 : sf_seek two_frames
                 (current_frame (cb_player (mkCbState small_player 0 [])))
               <> None) by discriminate.
  assert (H2 : samples (window two_frames 0 2) <> []) by discriminate.
  assert (H3 : audio_sample_rate small_player <> 0%Z) by discriminate.
  split; [exact H1 |]. split; [exact H2 |]. split; [exact H3 |].
  apply (callback_continues_on_data steady_meter two_frames 2
           (mkCbState small_player 0 [])
           (py_max (py_min (-23) 0) (- input_range default_params))
           H1 H2 H3).
  reflexivity.
Defined.

Lemma callbacks_play_consecutive_windows_witness :
  (0 <= 2)%Z
  /\ current_frame (cb_player (snd first_chunk_result)) = (0 + 2)%Z
  /\ window two_frames 0 2 ++ window two_frames (0 + 2) 2
     = window two_frames 0 (2 + 2).
Proof.
  assert (H : (0 <= 2)%Z) by lia.
  split; [exact H |].
  destruct (callbacks_play_consecutive_windows steady_meter two_frames 2
              (mkCbState small_player 0 []) (snd first_chunk_result)
              (Some first_chunk_out) H first_callback_continues)
    as (_ & Hcf & _ & Hwin).
  split; [exact Hcf | exact Hwin].
Defined.

Lemma default_target_loudness_range_witness :
  exists target,
    find_target_loudness steady_meter small_player default_params
      (sf_data two_frames) = Some target
    /\ -50 <= target <= -9.18.
Proof.
  destruct (find_target_loudness steady_meter small_player default_params
              (sf_data two_frames)) as [target |] eqn:E.
  - exists target. split; [reflexivity |].
    exact (default_target_loudness_range steady_meter small_player
             (sf_data two_frames) target two_frames_unit_range E).
  - unfold find_target_loudness in E. cbn in E. discriminate E.
Defined.

(** ** The bars and buttons of the main window *)

Lemma set_progress_range (value : R) (b : ProgressBar) :
  0 <= pb_progress (set_progress value b) <= 1.
Proof.
  cbn [pb_progress set_progress]. unfold py_min, py_max.
  destruct (Rlt_dec value 0); destruct (Rlt_dec 1 _); lra.
Qed.

Lemma set_progress_id (value : R) (b : ProgressBar) :
  0 <= value <= 1 -> pb_progress (set_progress value b) = value.
Proof.
  intros H. cbn [pb_progress set_progress]. unfold py_min, py_max.
  destruct (Rlt_dec value 0); destruct (Rlt_dec 1 _); lra.
Qed.

Lemma seek_percentage_range (p : R) (s : AudioPlayer) :
  0 <= p <= 1 ->
  (0 <= current_frame s <= audio_frames s)%Z ->
  (0 <= current_frame (seek p true s) <= audio_frames (seek p true s))%Z.
Proof.
  intros Hp Hcf. unfold seek.
  destruct (0 <? audio_frames s)%Z eqn:E; [| exact Hcf].
  apply Z.ltb_lt in E. cbn [current_frame audio_frames set_current_frame].
  apply py_int_range.
  assert (H : 0 < IZR (audio_frames s)) by (apply IZR_lt; exact E).
  nra.
Qed.

(** X10: a click on the progress bar always seeks inside the file.  With
    the callback of [Main_player.py] registered and a bar of non-zero
    length, [handle_mouse] returns; the progress it stores lies in [0, 1];
    it changes nothing of the player but the cursor; a cursor inside the
    file stays inside the file; and a held click over the bar of a loaded
    file puts the cursor at [int(audio_frames * progress)]. *)
Theorem progress_click_seeks_inside_file :
  forall (mouse_position : R * R) (held_left : bool) (b : ProgressBar)
         (s : AudioPlayer),
    pb_on_progress_click b = Some on_progress_click ->
    pb_length b <> 0 ->
    (0 <= current_frame s <= audio_frames s)%Z ->
    exists b' s' hovered,
      pb_handle_mouse mouse_position held_left b s = Some (b', s', hovered)
      /\ pb_is_hovered b' = hovered
      /\ (0 <= pb_progress b <= 1 -> 0 <= pb_progress b' <= 1)
      /\ set_current_frame (current_frame s) s' = s
      /\ (0 <= current_frame s' <= audio_frames s')%Z
      /\ (hovered = true -> held_left = true -> (0 < audio_frames s)%Z ->
          current_frame s'
          = py_int (IZR (audio_frames s) * pb_progress b'))
      /\ (hovered && held_left = false -> s' = s /\ pb_progress b' = pb_progress b).
Proof.
  intros mp held b s Hclick Hlen Hcf.
  unfold pb_handle_mouse. cbv zeta.
  destruct (_ && _ && _ && _)%bool.
  - destruct held.
    + destruct (Req_dec_T (pb_length b) 0) as [E | _]; [contradiction |].
      set (b2 := set_progress _ (set_is_hovered true b)).
      change (pb_on_progress_click b2) with (pb_on_progress_click b).
      rewrite Hclick.
      eexists. eexists. eexists. split; [reflexivity |].
      assert (Hp : 0 <= pb_progress b2 <= 1) by apply set_progress_range.
      set (p := pb_progress b2) in *.
      split; [reflexivity |]. split; [intros _; exact Hp |].
      split.
      { unfold on_progress_click, seek.
        destruct (0 <? audio_frames s)%Z; destruct s; reflexivity. }
      split; [apply (seek_percentage_range p s Hp Hcf) |].
      split.
      { intros _ _ Hf. apply Z.ltb_lt in Hf.
        unfold on_progress_click, seek. rewrite Hf. reflexivity. }
      intros H. discriminate H.
    + eexists. eexists. eexists. split; [reflexivity |].
      cbn [pb_is_hovered pb_progress set_is_hovered].
      split; [reflexivity |]. split; [tauto |].
      split; [destruct s; reflexivity |]. split; [exact Hcf |].
      split; [intros _ H; discriminate H |]. intros _. split; reflexivity.
  - eexists. eexists. eexists. split; [reflexivity |].
    cbn [pb_is_hovered pb_progress set_is_hovered].
    split; [reflexivity |]. split; [tauto |].
    split; [destruct s; reflexivity |]. split; [exact Hcf |].
    split; [intros H; discriminate H |]. intros _. split; reflexivity.
Qed.

Lemma progress_click_seeks_inside_file_witness :
  exists b' s',
    pb_handle_mouse (50, 0) true
      (mkProgressBar 4 8 100 (0, 0) 0 false 5 0 (Some on_progress_click))
      loaded_player
    = Some (b', s', true)
    /\ (0 <= current_frame s' <= audio_frames s')%Z.
Proof.
  assert (Hlen : pb_length
                   (mkProgressBar 4 8 100 (0, 0) 0 false 5 0
                      (Some on_progress_click)) <> 0)
    by (cbn [pb_length]; lra).
  assert (Hcf : (0 <= current_frame loaded_player
                 <= audio_frames loaded_player)%Z) by (cbn; lia).
  destruct (progress_click_seeks_inside_file (50, 0) true
              (mkProgressBar 4 8 100 (0, 0) 0 false 5 0
                 (Some on_progress_click))
              loaded_player eq_refl Hlen Hcf)
    as (b' & s' & hovered & Hrun & _ & _ & _ & Hin & _).
  assert (Hh : hovered = true).
  { unfold pb_handle_mouse in Hrun. cbv zeta in Hrun.
    cbn [fst snd pb_position pb_drag_tolerance pb_length
         pb_vert_drag_tolerance pb_hover_thickness] in Hrun.
    unfold Rleb in Hrun.
    repeat match type of Hrun with
           | context [Rle_dec ?a ?c] =>
               destruct (Rle_dec a c); [| exfalso; lra]
           end.
    cbn [andb] in Hrun.
    destruct (Req_dec_T _ 0); [discriminate Hrun |].
    cbn [pb_on_progress_click set_progress set_is_hovered] in Hrun.
    congruence. }
  subst hovered. exists b', s'. split; [exact Hrun | exact Hin].
Defined.

(** X11: seeking by a click and showing the cursor again is a round trip up
    to one frame.  After the click callback ran with a progress [p] in
    [0, 1] on a loaded file, the main loop sets the bar to
    [current_frame / audio_frames], which is at most [p] and less than one
    frame's worth below it. *)
Theorem shown_progress_follows_click :
  forall (p : R) (s : AudioPlayer) (b : ProgressBar),
    0 <= p <= 1 ->
    (0 < audio_frames s)%Z ->
    let shown := pb_progress (show_playback_progress (on_progress_click p s) b) in
    shown = IZR (current_frame (on_progress_click p s)) / IZR (audio_frames s)
    /\ p - 1 / IZR (audio_frames s) < shown <= p.
Proof.
  intros p s b Hp Hf shown. subst shown.
  assert (Hn : 0 < IZR (audio_frames s)) by (apply IZR_lt; exact Hf).
  pose proof Hf as Hfb. apply Z.ltb_lt in Hfb.
  unfold on_progress_click, seek, show_playback_progress. rewrite Hfb.
  cbn [audio_frames current_frame set_current_frame]. rewrite Hfb.
  set (n := IZR (audio_frames s)) in *.
  assert (Hx : 0 <= n * p) by nra.
  unfold py_int. destruct (Rle_dec 0 (n * p)) as [_ | Hneg]; [| contradiction].
  destruct (base_Int_part (n * p)) as [Hfloor Hfrac].
  assert (H0 : 0 <= IZR (Int_part (n * p))).
  { apply IZR_le. assert (H : (-1 < Int_part (n * p))%Z) by (apply lt_IZR; lra).
    lia. }
  assert (Hq : IZR (Int_part (n * p)) / n <= p).
  { apply Rmult_le_reg_r with n; [exact Hn |]. unfold Rdiv.
    rewrite Rmult_assoc, Rinv_l by lra. lra. }
  assert (Hq0 : 0 <= IZR (Int_part (n * p)) / n).
  { unfold Rdiv. apply Rmult_le_pos; [exact H0 |].
    left. apply Rinv_0_lt_compat. exact Hn. }
  rewrite set_progress_id by lra.
  split; [reflexivity |]. split; [| exact Hq].
  apply Rmult_lt_reg_r with n; [exact Hn |]. unfold Rdiv.
  rewrite Rmult_minus_distr_r, !Rmult_assoc, Rinv_l by lra. lra.
Qed.

Lemma shown_progress_follows_click_witness :
  0 <= 1 / 2 <= 1
  /\ pb_progress
       (show_playback_progress (on_progress_click (1 / 2) loaded_player)
          (mkProgressBar 4 8 100 (0, 0) 0 false 5 0 None))
     <= 1 / 2.
Proof.
  assert (Hp : 0 <= 1 / 2 <= 1) by lra.
  assert (Hf : (0 < audio_frames loaded_player)%Z) by (cbn; lia).
  split; [exact Hp |].
  apply (shown_progress_follows_click (1 / 2) loaded_player
           (mkProgressBar 4 8 100 (0, 0) 0 false 5 0 None) Hp Hf).
Defined.

(** X12: the volume the main loop installs is the volume bar's progress:
    the clamp of the bar's setter and the clamp of [set_volume] agree, so
    whatever value the bar was given, the player's volume equals what the
    bar shows. *)
Theorem volume_follows_volume_bar :
  forall (value : R) (b : ProgressBar) (s : AudioPlayer),
    volume (apply_volume_bar (set_progress value b) s)
    = pb_progress (set_progress value b)
    /\ set_volume_field (volume s) (apply_volume_bar (set_progress value b) s)
       = s.
Proof.
  intros value b s. split.
  - unfold apply_volume_bar, set_volume. cbn [volume set_volume_field].
    pose proof (set_progress_range value b) as H.
    set (q := pb_progress (set_progress value b)) in *. clearbody q.
    unfold py_min, py_max.
    destruct (Rlt_dec 0 q); destruct (Rlt_dec 1 _); lra.
  - destruct s; reflexivity.
Qed.

(** X13: the pause button and the player can fall out of step.
    [toggle_pause] of [Main_player.py] swaps each of the four images of the
    playback button with its counterpart, so two calls restore the image,
    and with a file loaded they restore the player too; with no file loaded
    the player ignores the call while the image still changes. *)
Theorem main_toggle_pause_swaps_image :
  forall (display_image : String.string) (s : AudioPlayer),
    let once := main_toggle_pause display_image s in
    let twice := main_toggle_pause (fst once) (snd once) in
    fst twice = display_image
    /\ ((0 < audio_frames s)%Z ->
        snd twice = s
        /\ is_playback_unpaused (snd once) = negb (is_playback_unpaused s))
    /\ ((audio_frames s <= 0)%Z -> snd once = s)
    /\ (In display_image
          [Images.default; Images.hover; Images.toggle; Images.hover_toggle] ->
        fst once <> display_image).
Proof.
  intros img s once twice. subst twice once.
  assert (Himg :
            fst (main_toggle_pause
                   (fst (main_toggle_pause img s))
                   (snd (main_toggle_pause img s))) = img
            /\ (In img [Images.default; Images.hover; Images.toggle;
                        Images.hover_toggle] ->
                fst (main_toggle_pause img s) <> img)).
  { unfold main_toggle_pause. cbv zeta.
    destruct (String.eqb_spec img Images.default) as [-> | N1].
    { split; [reflexivity | intros _; discriminate]. }
    destruct (String.eqb_spec img Images.hover) as [-> | N2].
    { split; [reflexivity | intros _; discriminate]. }
    destruct (String.eqb_spec img Images.toggle) as [-> | N3].
    { split; [reflexivity | intros _; discriminate]. }
    destruct (String.eqb_spec img Images.hover_toggle) as [-> | N4].
    { split; [reflexivity | intros _; discriminate]. }
    cbn [fst snd].
    destruct (String.eqb_spec img Images.default); [contradiction |].
    destruct (String.eqb_spec img Images.hover); [contradiction |].
    destruct (String.eqb_spec img Images.toggle); [contradiction |].
    destruct (String.eqb_spec img Images.hover_toggle); [contradiction |].
    split; [reflexivity |].
    intros [H | [H | [H | [H | []]]]]; congruence. }
  destruct Himg as [H1 H2]. split; [exact H1 |].
  assert (Hs : forall i s0, snd (main_toggle_pause i s0) = toggle_pause s0).
  { intros i s0. unfold main_toggle_pause. cbv zeta.
    repeat match goal with
           | |- context [String.eqb ?a ?c] => destruct (String.eqb a c)
           end; reflexivity. }
  rewrite !Hs. split; [| split; [| exact H2]].
  - intros Hf. apply Z.ltb_lt in Hf.
    unfold toggle_pause, pause_audio, unpause_audio.
    destruct s as [vol nmax nmin nbias apath chans frames rate unp stp nal foc
                     disp skip ratio cf].
    cbn in Hf |- *. rewrite Hf. destruct unp; cbn; rewrite Hf; cbn;
      rewrite ?Hf; split; reflexivity.
  - intros Hf. unfold toggle_pause, pause_audio, unpause_audio.
    destruct (0 <? audio_frames s)%Z eqn:E;
      [apply Z.ltb_lt in E; lia |].
    destruct (is_playback_unpaused s); reflexivity.
Qed.

Lemma main_toggle_pause_swaps_image_witness :
  (audio_frames (init_with_volume 1) <= 0)%Z
  /\ snd (main_toggle_pause Images.default (init_with_volume 1))
     = init_with_volume 1
  /\ fst (main_toggle_pause Images.default (init_with_volume 1))
     <> Images.default.
Proof.
  assert (H : (audio_frames (init_with_volume 1) <= 0)%Z) by (cbn; lia).
  split; [exact H |].
  destruct (main_toggle_pause_swaps_image Images.default (init_with_volume 1))
    as (_ & _ & Hs & Hi).
  split; [exact (Hs H) | apply Hi; left; reflexivity].
Defined.

(** ** [YoutubeManager] *)

(** X14: the download mode is always one of the three supported modes.
    Whatever mode the constructor is asked for and whatever [set_mode]
    calls follow, the mode is [full], [audio] or [video] (the last
    supported request, or [full] when none was), so
    [create_youtube_streams] never drops both streams; in [video] mode it
    returns no audio stream. *)
Theorem youtube_mode_always_supported :
  forall (target_mode : String.string) (requests : list String.string)
         (S : Type) (a v : S),
    let m := fold_left (fun m t => ym_set_mode t m) requests
               (ym_init target_mode) in
    In (mode m) (supported_modes m)
    /\ supported_modes m = [Modes.full; Modes.audio; Modes.video]
    /\ create_youtube_streams (Some a) (Some v) m <> (None, None)
    /\ (mode m = Modes.video ->
        create_youtube_streams (Some a) (Some v) m = (None, Some v))
    /\ (mode m = Modes.audio ->
        create_youtube_streams (Some a) (Some v) m = (Some a, None)).
Proof.
  intros target requests S a v m.
  assert (Hset : forall t m0,
             supported_modes m0 = [Modes.full; Modes.audio; Modes.video] ->
             In (mode m0) (supported_modes m0) ->
             supported_modes (ym_set_mode t m0)
             = [Modes.full; Modes.audio; Modes.video]
             /\ In (mode (ym_set_mode t m0)) (supported_modes (ym_set_mode t m0))).
  { intros t m0 Hsup Hin. unfold ym_set_mode.
    destruct (existsb (String.eqb t) (supported_modes m0)) eqn:E.
    - cbn [supported_modes mode]. split; [exact Hsup |].
      apply existsb_exists in E. destruct E as (x & Hx & Heq).
      apply String.eqb_eq in Heq. subst x. exact Hx.
    - split; assumption. }
  assert (Hinv : supported_modes m = [Modes.full; Modes.audio; Modes.video]
                 /\ In (mode m) (supported_modes m)).
  { subst m.
    assert (H0 : supported_modes (ym_init target)
                 = [Modes.full; Modes.audio; Modes.video]
                 /\ In (mode (ym_init target))
                      (supported_modes (ym_init target))).
    { unfold ym_init. apply Hset; [reflexivity | left; reflexivity]. }
    revert H0. generalize (ym_init target).
    induction requests as [| t ts IH]; intros m0 H0; [exact H0 |].
    cbn [fold_left]. apply IH. apply Hset; tauto. }
  destruct Hinv as [Hsup Hin]. split; [exact Hin |]. split; [exact Hsup |].
  rewrite Hsup in Hin. unfold create_youtube_streams.
  destruct Hin as [H | [H | [H | []]]]; rewrite <- H; cbn;
    (split; [discriminate |]); split; intros E;
    first [reflexivity | discriminate E].
Qed.

Lemma youtube_mode_always_supported_witness :
  mode (fold_left (fun m t => ym_set_mode t m) [Modes.video]
          (ym_init Modes.audio)) = Modes.video
  /\ create_youtube_streams (Some 1%nat) (Some 2%nat)
       (fold_left (fun m t => ym_set_mode t m) [Modes.video]
          (ym_init Modes.audio))
     = (None, Some 2%nat).
Proof.
  assert (H : mode (fold_left (fun m t => ym_set_mode t m) [Modes.video]
                      (ym_init Modes.audio)) = Modes.video) by reflexivity.
  split; [exact H |].
  destruct (youtube_mode_always_supported Modes.audio [Modes.video] nat
              1%nat 2%nat) as (_ & _ & _ & Hv & _).
  exact (Hv H).
Defined.

(** X15: the download progress is the fraction of the file received.  For a
    stream of positive size and a remainder between 0 and the size,
    [progress_callback] stores a value in [0, 1], which is 1 exactly when
    nothing remains; a stream that reports size 0 makes it raise. *)
Theorem download_progress_is_a_fraction :
  forall (filesize bytes_remaining : Z) (m : YoutubeManager),
    (0 < filesize)%Z ->
    (0 <= bytes_remaining <= filesize)%Z ->
    exists m',
      progress_callback filesize bytes_remaining m = Some m'
      /\ 0 <= check_download_progress m' <= 1
      /\ (check_download_progress m' = 1 <-> bytes_remaining = 0%Z)
      /\ mode m' = mode m
      /\ progress_callback 0 bytes_remaining m = None.
Proof.
  intros filesize rem m Hsize Hrem.
  unfold progress_callback.
  destruct (filesize =? 0)%Z eqn:E; [apply Z.eqb_eq in E; lia |].
  eexists. split; [reflexivity |].
  unfold check_download_progress. cbn [download_progress mode].
  assert (Hn : 0 < IZR filesize) by (apply IZR_lt; exact Hsize).
  assert (Hr : 0 <= IZR rem <= IZR filesize)
    by (split; apply IZR_le; lia).
  rewrite minus_IZR.
  assert (Hq : (IZR filesize - IZR rem) / IZR filesize
               = 1 - IZR rem / IZR filesize) by (field; lra).
  assert (Hd : 0 <= IZR rem / IZR filesize <= 1).
  { split.
    - unfold Rdiv. apply Rmult_le_pos; [lra |].
      left. apply Rinv_0_lt_compat. exact Hn.
    - apply Rmult_le_reg_r with (IZR filesize); [exact Hn |]. unfold Rdiv.
      rewrite Rmult_assoc, Rinv_l by lra. lra. }
  rewrite Hq. split; [lra |]. split; [| split; reflexivity].
  split.
  - intros H. assert (H0 : IZR rem / IZR filesize = 0) by lra.
    apply eq_IZR.
    apply Rmult_eq_compat_r with (r := IZR filesize) in H0.
    unfold Rdiv in H0. rewrite Rmult_assoc, Rinv_l in H0 by lra. lra.
  - intros ->. unfold Rdiv. lra.
Qed.

Lemma download_progress_is_a_fraction_witness :
  (0 < 4)%Z
  /\ exists m',
       progress_callback 4 1 (ym_init Modes.audio) = Some m'
       /\ 0 <= check_download_progress m' <= 1.
Proof.
  assert (H1 : (0 < 4)%Z) by lia.
  assert (H2 : (0 <= 1 <= 4)%Z) by lia.
  split; [exact H1 |].
  destruct (download_progress_is_a_fraction 4 1 (ym_init Modes.audio) H1 H2)
    as (m' & Hrun & Hrange & _).
  exists m'. split; [exact Hrun | exact Hrange].
Defined.

Local Close Scope R_scope.

(** ** Starting, stopping and ending a stream *)

(** X16: with no stream active ([no_audio_loaded] set, as the constructor
    leaves it) [start_audio_playback] runs its nine statements without
    blocking and spawns exactly one thread; it installs the path if one is
    given, leaves the pause state, the cursor, the volume and the frame
    count as they were, and returns with [is_stopped] and [no_audio_loaded]
    clear. *)
Theorem start_completes_when_idle :
  forall (audio_path_arg : option String.string) (chunk_size : Z)
         (s : AudioPlayer),
    no_audio_loaded s = true ->
    let call := controller_run 9 (start_call audio_path_arg chunk_size) s in
    let s1 := snd (fst call) in
    c_pc (fst (fst call)) = CReturned
    /\ snd call = [new_stream_thread chunk_size]
    /\ is_playback_unpaused s1 = is_playback_unpaused s
    /\ is_stopped s1 = false
    /\ no_audio_loaded s1 = false
    /\ audio_path s1
       = match audio_path_arg with
         | Some path => Some path
         | None => audio_path s
         end
    /\ current_frame s1 = current_frame s
    /\ volume s1 = volume s
    /\ audio_frames s1 = audio_frames s.
Proof.
  intros arg chunk_size s Hnal call s1. subst s1 call.
  rewrite controller_run_open_barrier by exact Hnal.
  cbn [fst snd c_pc].
  destruct arg; destruct (is_playback_unpaused s) eqn:E; cbn;
    rewrite ?E; repeat split.
Qed.

Lemma start_completes_when_idle_witness :
  no_audio_loaded (init_with_volume 1) = true
  /\ c_pc (fst (fst (controller_run 9 (start_call (Some Paths.a_wav) 2048)
                       (init_with_volume 1)))) = CReturned
  /\ snd (controller_run 9 (start_call (Some Paths.a_wav) 2048)
            (init_with_volume 1)) = [new_stream_thread 2048].
Proof.
  split; [reflexivity |].
  destruct (start_completes_when_idle (Some Paths.a_wav) 2048
              (init_with_volume 1) eq_refl) as (H1 & H2 & _).
  split; [exact H1 | exact H2].
Defined.

Section StreamLife.

Variable integrated_loudness : Z -> R -> chunk -> meter_result.
Variable fs : String.string -> option SoundFile.

(** Inside the loop and the [finally] block no step depends on the outcome
    of an external call. *)
Lemma stream_step_loop_env (e e' : env) (t : stream_thread) (s : AudioPlayer) :
  prior_pc_ok (st_pc t) = true ->
  stream_step integrated_loudness fs e t s
  = stream_step integrated_loudness fs e' t s.
Proof.
  unfold stream_step.
  destruct (st_pc t) as [| | | | | | | [| |] | | | | | |];
    try discriminate; reflexivity.
Qed.

(** The [finally] block from the loop's exit, whatever the environment. *)
Lemma stream_leaves_from_L174 (es : list env) (t : stream_thread)
    (s : AudioPlayer) :
  st_pc t = L174 -> st_p t <> HUnbound -> (4 <= length es)%nat ->
  stream_run integrated_loudness fs es t s
  = (at_pc LExit (with_p HTerminated t),
     set_current_frame 0 (set_no_audio_loaded true s)).
Proof.
  intros Hpc Hp Hlen.
  destruct es as [| e1 [| e2 [| e3 [| e4 es]]]]; cbn in Hlen; try lia.
  destruct t as [pc p file info pos size log]. cbn in Hpc, Hp. subst pc.
  cbn [stream_run]. unfold stream_step at 1. cbn [st_pc at_pc].
  unfold stream_step at 1. cbn [st_pc at_pc st_p].
  destruct p; [contradiction Hp; reflexivity | |];
    cbn [stream_step st_pc at_pc with_p];
    apply (stream_run_blocked integrated_loudness fs es EnvOk); reflexivity.
Qed.

Lemma stop_run_shape (t : stream_thread) (s : AudioPlayer) (cb : cb_pc)
    (es : list env) :
  st_pc t = L172 cb -> st_p t <> HUnbound ->
  is_stopped s = true -> is_playback_unpaused s = true ->
  (7 <= length es)%nat ->
  exists t' s',
    stream_run integrated_loudness fs es t s = (t', s')
    /\ st_pc t' = LExit
    /\ st_p t' = HTerminated
    /\ no_audio_loaded s' = true
    /\ current_frame s' = 0%Z
    /\ audio_path s' = audio_path s
    /\ (cb <> CbLocked -> st_log t' = st_log t).
Proof.
  intros Hpc Hp Hstop Hunp Hlen.
  assert (Hcheck : forall es' t' s',
             st_pc t' = L172 CbCheck -> st_p t' <> HUnbound ->
             is_stopped s' = true -> (5 <= length es')%nat ->
             stream_run integrated_loudness fs es' t' s'
             = (at_pc LExit (with_p HTerminated (at_pc L174 t')),
                set_current_frame 0 (set_no_audio_loaded true s'))).
  { intros es' t' s' Hpc' Hp' Hs' Hl'.
    destruct es' as [| e1 es']; cbn in Hl'; [lia |].
    cbn [stream_run]. unfold stream_step at 1. rewrite Hpc', Hs'.
    rewrite (stream_leaves_from_L174 es' (at_pc L174 t') s'); try reflexivity.
    - destruct t'; exact Hp'.
    - lia. }
  assert (Hwait : forall es' t' s',
             st_pc t' = L172 CbWait -> st_p t' <> HUnbound ->
             is_stopped s' = true -> is_playback_unpaused s' = true ->
             (6 <= length es')%nat ->
             stream_run integrated_loudness fs es' t' s'
             = (at_pc LExit
                  (with_p HTerminated (at_pc L174 (at_pc (L172 CbCheck) t'))),
                set_current_frame 0 (set_no_audio_loaded true s'))).
  { intros es' t' s' Hpc' Hp' Hs' Hu' Hl'.
    destruct es' as [| e1 es']; cbn in Hl'; [lia |].
    cbn [stream_run]. unfold stream_step at 1. rewrite Hpc', Hu'.
    rewrite (Hcheck es' (at_pc (L172 CbCheck) t') s'); try reflexivity.
    - destruct t'; exact Hp'.
    - exact Hs'.
    - lia. }
  destruct cb.
  - rewrite (Hwait es t s Hpc Hp Hstop Hunp) by lia.
    eexists. eexists. split; [reflexivity |].
    destruct t; cbn. repeat split.
  - rewrite (Hcheck es t s Hpc Hp Hstop) by lia.
    eexists. eexists. split; [reflexivity |].
    destruct t; cbn. repeat split.
  - destruct es as [| e1 es]; cbn in Hlen; [lia |].
    cbn [stream_run]. unfold stream_step at 1. rewrite Hpc.
    destruct (st_file t) as [file |] eqn:Ef.
    + pose proof (callback_locked_frame integrated_loudness file
                    (st_chunk_size t) (mkCbState s (st_pos t) (st_log t)))
        as [Hsame _].
      apply same_but_cursor_display_fields in Hsame.
      destruct Hsame as (_ & Hpath & _ & _ & Hu & Hs & _).
      cbn [cb_player] in Hpath, Hu, Hs.
      destruct (callback_locked integrated_loudness file (st_chunk_size t)
                  (mkCbState s (st_pos t) (st_log t)))
        as [[[o [|]] |] st'] eqn:Ecb; cbn [snd cb_player] in Hpath, Hu, Hs.
      * rewrite Hwait; try lia; try congruence;
          [| reflexivity | destruct t; exact Hp].
        eexists. eexists. split; [reflexivity |].
        destruct t; cbn in *.
        repeat split; try congruence;
          try (intros Hne; exfalso; apply Hne; reflexivity).
      * rewrite stream_leaves_from_L174; try lia;
          [| reflexivity | destruct t; exact Hp].
        eexists. eexists. split; [reflexivity |].
        destruct t; cbn in *.
        repeat split; try congruence;
          try (intros Hne; exfalso; apply Hne; reflexivity).
      * rewrite stream_leaves_from_L174; try lia;
          [| reflexivity | destruct t; exact Hp].
        eexists. eexists. split; [reflexivity |].
        destruct t; cbn in *.
        repeat split; try congruence;
          try (intros Hne; exfalso; apply Hne; reflexivity).
    + destruct es as [| e2 [| e3 [| e4 es]]]; cbn in Hlen; try lia.
      destruct t as [pc p file info pos size log]. cbn in Hpc, Hp, Ef.
      subst pc file.
      cbn [stream_run]. unfold stream_step at 1. cbn [st_pc at_pc st_p].
      destruct p; [contradiction Hp; reflexivity | |];
        cbn [stream_step st_pc at_pc with_p];
        rewrite (stream_run_blocked integrated_loudness fs es EnvOk)
          by reflexivity;
        (eexists; eexists; split; [reflexivity |]);
        cbn; repeat split; try congruence;
        try (intros Hne; exfalso; apply Hne; reflexivity).
Qed.

(** X17: a stop request is honoured within one chunk.  A stream whose
    callback is anywhere in its cycle, with [is_stopped] and the unpaused
    signal set, leaves through its [finally] block within seven steps: the
    handle is terminated, [no_audio_loaded] is set and the cursor is 0; a
    callback that had not yet taken the lock reads nothing more. *)
Theorem stop_request_ends_stream :
  forall (t : stream_thread) (s : AudioPlayer) (cb : cb_pc) (es : list env),
    st_pc t = L172 cb -> st_p t <> HUnbound ->
    is_stopped s = true -> is_playback_unpaused s = true ->
    (7 <= length es)%nat ->
    let r := stream_run integrated_loudness fs es t s in
    st_pc (fst r) = LExit
    /\ st_p (fst r) = HTerminated
    /\ no_audio_loaded (snd r) = true
    /\ current_frame (snd r) = 0%Z
    /\ audio_path (snd r) = audio_path s
    /\ (cb <> CbLocked -> st_log (fst r) = st_log t).
Proof.
  intros t s cb es Hpc Hp Hstop Hunp Hlen r. subst r.
  destruct (stop_run_shape t s cb es Hpc Hp Hstop Hunp Hlen)
    as (t' & s' & -> & H).
  exact H.
Qed.

(** X18: when the file at the stored path cannot be opened, the new stream
    plays nothing and leaves through its [finally] block: the handle is
    terminated, [no_audio_loaded] is set again and the cursor is 0; the
    stored path stays, and so do the frame count and the sample rate of the
    file loaded before. *)
Theorem unopenable_file_ends_stream :
  forall (chunk_size : Z) (s : AudioPlayer) (e2 : env) (es : list env),
    open_path fs s = None ->
    (3 <= length es)%nat ->
    stream_run integrated_loudness fs (EnvOk :: e2 :: es)
      (new_stream_thread chunk_size) s
    = (mkStreamThread LExit HTerminated None None 0 chunk_size [],
       set_current_frame 0 (set_no_audio_loaded true s)).
Proof.
  intros chunk_size s e2 es Hopen Hlen.
  destruct es as [| e3 [| e4 [| e5 es]]]; cbn in Hlen; try lia.
  cbn [stream_run]. unfold stream_step at 1. cbn [st_pc new_stream_thread].
  unfold stream_step at 1. cbn [st_pc at_pc]. rewrite Hopen.
  assert (Hgo : (match e2 with
                 | EnvOk => Some (at_pc L177
                                    (at_pc L135
                                       (with_p HLive
                                          (new_stream_thread chunk_size))), s)
                 | EnvRaise => Some (at_pc L177
                                       (at_pc L135
                                          (with_p HLive
                                             (new_stream_thread chunk_size))),
                                     s)
                 end)
                = Some (at_pc L177
                          (at_pc L135
                             (with_p HLive (new_stream_thread chunk_size))), s))
    by (destruct e2; reflexivity).
  rewrite Hgo. cbn [stream_step st_pc at_pc st_p with_p new_stream_thread].
  destruct es as [| e6 es]; reflexivity.
Qed.

End StreamLife.

Lemma stop_request_ends_stream_witness :
  let t := mkStreamThread (L172 CbWait) HLive (Some two_frames)
             (Some two_frames) 0 2 [] in
  let s := set_stopped true (set_no_audio_loaded false small_player) in
  let r := stream_run steady_meter two_files (repeat EnvOk 7) t s in
  is_stopped s = true
  /\ st_pc (fst r) = LExit
  /\ no_audio_loaded (snd r) = true
  /\ st_log (fst r) = [].
Proof.
  intros t s r. split; [reflexivity |].
  destruct (stop_request_ends_stream steady_meter two_files t s CbWait
              (repeat EnvOk 7) eq_refl) as (H1 & _ & H3 & _ & _ & H6).
  - discriminate.
  - reflexivity.
  - reflexivity.
  - cbn. lia.
  - split; [exact H1 |]. split; [exact H3 |]. apply H6. discriminate.
Defined.

Lemma unopenable_file_ends_stream_witness :
  open_path two_files (init_with_volume 1) = None
  /\ stream_run steady_meter two_files (repeat EnvOk 5) (new_stream_thread 2)
       (init_with_volume 1)
     = (mkStreamThread LExit HTerminated None None 0 2 [],
        set_current_frame 0 (set_no_audio_loaded true (init_with_volume 1))).
Proof.
  split; [reflexivity |].
  apply (unopenable_file_ends_stream steady_meter two_files 2
           (init_with_volume 1) EnvOk [EnvOk; EnvOk; EnvOk]).
  - reflexivity.
  - cbn. lia.
Defined.

(** ** Every stream ends *)

Section PlaybackEnds.

Variable integrated_loudness : Z -> R -> chunk -> meter_result.
Variable fs : String.string -> option SoundFile.

(** One turn of the loop of line 172 with playback unpaused and no stop
    requested: the callback runs, and the loop goes on exactly when it
    returns [paContinue]. *)
Lemma loop_iteration (t : stream_thread) (s : AudioPlayer) (file : SoundFile)
    (e1 e2 e3 : env) :
  st_pc t = L172 CbWait -> st_file t = Some file ->
  is_playback_unpaused s = true -> is_stopped s = false ->
  stream_run integrated_loudness fs [e1; e2; e3] t s
  = let r := callback_locked integrated_loudness file (st_chunk_size t)
               (mkCbState s (st_pos t) (st_log t)) in
    (at_pc match fst r with
           | Some (_, paContinue) => L172 CbWait
           | _ => L174
           end (with_cb (cb_pos (snd r)) (cb_log (snd r)) t),
     cb_player (snd r)).
Proof.
  intros Hpc Hfile Hunp Hstop.
  destruct t as [pc p f info pos size log]. cbn in Hpc, Hfile. subst pc f.
  cbn [stream_run]. unfold stream_step at 1. cbn [st_pc]. rewrite Hunp.
  unfold stream_step at 1. cbn [st_pc at_pc]. rewrite Hstop.
  unfold stream_step at 1.
  cbn [st_pc at_pc st_file st_chunk_size st_pos st_log].
  destruct (callback_locked integrated_loudness file size
              (mkCbState s pos log)) as [[[o [|]] |] st']; reflexivity.
Qed.

Lemma repeat_plus {A : Type} (x : A) (n m : nat) :
  repeat x (n + m) = repeat x n ++ repeat x m.
Proof. induction n as [| n IH]; simpl; [| rewrite IH]; reflexivity. Qed.

(** From the start of the loop a stream leaves within [3 * (n + 1) + 4]
    steps when fewer than [n] windows of the file lie ahead of the
    cursor. *)
Lemma loop_ends_within (file : SoundFile) (n : nat) :
  forall (t : stream_thread) (s : AudioPlayer),
    st_pc t = L172 CbWait -> st_file t = Some file -> st_p t <> HUnbound ->
    is_playback_unpaused s = true -> is_stopped s = false ->
    (0 < st_chunk_size t)%Z ->
    (sf_frames file - current_frame s < Z.of_nat n * st_chunk_size t)%Z ->
    exists t' s',
      stream_run integrated_loudness fs (repeat EnvOk (3 * (n + 1) + 4)) t s
      = (t', s')
      /\ st_pc t' = LExit /\ st_p t' = HTerminated
      /\ no_audio_loaded s' = true /\ current_frame s' = 0%Z
      /\ audio_frames s' = audio_frames s
      /\ audio_sample_rate s' = audio_sample_rate s
      /\ audio_path s' = audio_path s.
Proof.
  induction n as [| n IH]; intros t s Hpc Hfile Hp Hunp Hstop Hchunk Hleft.
  - (* the cursor is past the end: the seek is refused *)
    change (repeat EnvOk (3 * (0 + 1) + 4))
      with ([EnvOk; EnvOk; EnvOk] ++ repeat EnvOk 4).
    rewrite stream_run_app, (loop_iteration t s file) by assumption.
    cbv zeta. cbn [fst snd].
    assert (Hs : sf_seek file (current_frame s) = None).
    { unfold sf_seek. destruct (0 <=? current_frame s)%Z; [| reflexivity].
      destruct (current_frame s <=? sf_frames file)%Z eqn:E; [| reflexivity].
      apply Z.leb_le in E. lia. }
    rewrite (callback_locked_seek_refused integrated_loudness file
               (st_chunk_size t) (mkCbState s (st_pos t) (st_log t)) Hs).
    cbn [fst snd cb_player cb_pos cb_log].
    rewrite stream_leaves_from_L174;
      [| reflexivity | destruct t; exact Hp | cbn; lia].
    eexists. eexists. split; [reflexivity |].
    destruct t; cbn. repeat split.
  - replace (3 * (S n + 1) + 4)%nat with (3 + (3 * (n + 1) + 4))%nat by lia.
    rewrite repeat_plus.
    change (repeat EnvOk 3) with [EnvOk; EnvOk; EnvOk].
    rewrite stream_run_app, (loop_iteration t s file) by assumption.
    cbv zeta. cbn [fst snd].
    pose proof (callback_locked_frame integrated_loudness file
                  (st_chunk_size t) (mkCbState s (st_pos t) (st_log t)))
      as [Hsame _].
    apply same_but_cursor_display_fields in Hsame.
    destruct Hsame as (_ & Hpath & Hfr & Hrate & Hu & Hst & _).
    cbn [cb_player] in Hpath, Hfr, Hrate, Hu, Hst.
    destruct (sf_seek file (current_frame s)) as [p0 |] eqn:Es.
    + assert (Hs : sf_seek file (current_frame (cb_player
                                   (mkCbState s (st_pos t) (st_log t))))
                   <> None) by (cbn [cb_player]; congruence).
      pose proof (callback_locked_advances integrated_loudness file
                    (st_chunk_size t) _ Hs) as Hadv.
      cbn [cb_player] in Hadv.
      destruct (callback_locked integrated_loudness file (st_chunk_size t)
                  (mkCbState s (st_pos t) (st_log t)))
        as [[[o [|]] |] st'] eqn:Ecb;
        cbn [fst snd cb_player] in Hpath, Hfr, Hrate, Hu, Hst, Hadv |- *.
      * destruct (IH (at_pc (L172 CbWait)
                        (with_cb (cb_pos st') (cb_log st') t))
                    (cb_player st'))
          as (t' & s' & Hrun & H1 & H2 & H3 & H4 & H5 & H6 & H7).
        -- reflexivity.
        -- destruct t; exact Hfile.
        -- destruct t; exact Hp.
        -- congruence.
        -- congruence.
        -- destruct t; exact Hchunk.
        -- replace (st_chunk_size (at_pc (L172 CbWait)
                                     (with_cb (cb_pos st') (cb_log st') t)))
             with (st_chunk_size t) by (destruct t; reflexivity).
           rewrite Hadv. lia.
        -- exists t', s'. split; [exact Hrun |].
           repeat split; congruence.
      * rewrite stream_leaves_from_L174;
          [| reflexivity | destruct t; exact Hp
           | rewrite repeat_length; lia].
        eexists. eexists. split; [reflexivity |].
        destruct t; cbn. repeat split; congruence.
      * rewrite stream_leaves_from_L174;
          [| reflexivity | destruct t; exact Hp
           | rewrite repeat_length; lia].
        eexists. eexists. split; [reflexivity |].
        destruct t; cbn. repeat split; congruence.
    + rewrite (callback_locked_seek_refused integrated_loudness file
                 (st_chunk_size t) (mkCbState s (st_pos t) (st_log t)) Es).
      cbn [fst snd cb_player cb_pos cb_log].
      rewrite stream_leaves_from_L174;
        [| reflexivity | destruct t; exact Hp | rewrite repeat_length; lia].
      eexists. eexists. split; [reflexivity |].
      destruct t; cbn. repeat split.
Qed.

(** A new thread whose external calls succeed opens the file, publishes its
    sample rate and frame count and enters the loop. *)
Lemma new_stream_starts (s : AudioPlayer) (file : SoundFile) (chunk_size : Z) :
  open_path fs s = Some file ->
  stream_run integrated_loudness fs (repeat EnvOk 7)
    (new_stream_thread chunk_size) s
  = (mkStreamThread (L172 CbWait) HLive (Some file) (Some file) 0
       chunk_size [],
     set_audio_frames (sf_frames file)
       (set_audio_sample_rate (sf_samplerate file) s)).
Proof.
  intros Hopen.
  cbn [repeat stream_run].
  unfold stream_step at 1. cbn [st_pc new_stream_thread].
  unfold stream_step at 1. cbn [st_pc at_pc]. rewrite Hopen.
  unfold stream_step at 1. cbn [st_pc at_pc]. rewrite Hopen.
  unfold stream_step at 1. cbn [st_pc at_pc st_info with_info].
  unfold stream_step at 1. cbn [st_pc at_pc st_info with_info].
  unfold stream_step at 1. cbn [st_pc at_pc].
  unfold stream_step at 1. cbn [st_pc at_pc].
  reflexivity.
Qed.

(** X19: every stream ends.  A new stream whose file opens and whose
    external calls succeed, with playback unpaused, no stop requested and a
    positive chunk size, publishes the frame count and sample rate of the
    file, plays, and leaves through its [finally] block within
    [7 + 3 * (n + 1) + 4] steps, where fewer than [n] chunks lie between
    the cursor and the end of the file; it leaves [no_audio_loaded] set and
    the cursor at 0. *)
Theorem playback_ends :
  forall (file : SoundFile) (s : AudioPlayer) (chunk_size : Z) (n : nat),
    open_path fs s = Some file ->
    is_playback_unpaused s = true -> is_stopped s = false ->
    (0 < chunk_size)%Z ->
    (sf_frames file - current_frame s < Z.of_nat n * chunk_size)%Z ->
    let r :=
      stream_run integrated_loudness fs (repeat EnvOk (7 + (3 * (n + 1) + 4)))
        (new_stream_thread chunk_size) s in
    st_pc (fst r) = LExit
    /\ st_p (fst r) = HTerminated
    /\ no_audio_loaded (snd r) = true
    /\ current_frame (snd r) = 0%Z
    /\ audio_frames (snd r) = sf_frames file
    /\ audio_sample_rate (snd r) = sf_samplerate file
    /\ audio_path (snd r) = audio_path s.
Proof.
  intros file s chunk_size n Hopen Hunp Hstop Hchunk Hleft r. subst r.
  rewrite repeat_plus, stream_run_app, (new_stream_starts s file chunk_size Hopen).
  cbn [fst snd].
  destruct (loop_ends_within file n
              (mkStreamThread (L172 CbWait) HLive (Some file) (Some file) 0
                 chunk_size [])
              (set_audio_frames (sf_frames file)
                 (set_audio_sample_rate (sf_samplerate file) s)))
    as (t' & s' & -> & H1 & H2 & H3 & H4 & H5 & H6 & H7);
    try reflexivity; try assumption; try discriminate.
  cbn [fst snd]. destruct s; cbn in H5, H6, H7 |- *.
  repeat split; assumption.
Qed.

End PlaybackEnds.

Lemma playback_ends_witness :
  open_path two_files small_player = Some two_frames
  /\ (sf_frames two_frames - current_frame small_player < Z.of_nat 2 * 2)%Z
  /\ st_pc (fst (stream_run steady_meter two_files
                   (repeat EnvOk (7 + (3 * (2 + 1) + 4)))
                   (new_stream_thread 2) small_player)) = LExit.
Proof.
  assert (H1 : open_path two_files small_player = Some two_frames)
    by reflexivity.
  assert (H2 : (sf_frames two_frames - current_frame small_player
                < Z.of_nat 2 * 2)%Z) by (cbn; lia).
  split; [exact H1 |]. split; [exact H2 |].
  apply (playback_ends steady_meter two_files two_frames small_player 2 2 H1
           eq_refl eq_refl eq_refl H2).
Defined.

(** ** Where a new stream starts *)

Section StaleCursor.

Variable integrated_loudness : Z -> R -> chunk -> meter_result.
Variable fs : String.string -> option SoundFile.

(** X20: [start_audio_playback] does not touch the cursor, so a stream
    started while no other is active begins at whatever the cursor holds:
    its first callback seeks there and reads the window that starts
    there. *)
Theorem new_stream_starts_at_stored_cursor :
  forall (s : AudioPlayer) (path : String.string) (file : SoundFile)
         (chunk_size : Z),
    no_audio_loaded s = true ->
    is_playback_unpaused s = true ->
    fs path = Some file ->
    let call := controller_run 9 (start_call (Some path) chunk_size) s in
    let play :=
      stream_run integrated_loudness fs (repeat EnvOk 10)
        (new_stream_thread chunk_size) (snd (fst call)) in
    snd call = [new_stream_thread chunk_size]
    /\ (exists rest,
           st_log (fst play) = OpSeek (current_frame s) :: rest
           /\ (sf_seek file (current_frame s) <> None ->
               exists rest',
                 rest = OpAdvance chunk_size
                        :: OpRead (window file (current_frame s) chunk_size)
                        :: rest'))
    /\ (sf_seek file (current_frame s) <> None ->
        current_frame (snd play) = (current_frame s + chunk_size)%Z).
Proof.
  intros s path file chunk_size Hnal Hunp Hfile call play. subst play call.
  rewrite controller_run_open_barrier by exact Hnal.
  cbn [fst snd]. split; [reflexivity |].
  rewrite Hunp. cbn [negb].
  set (s1 := set_stopped false _).
  assert (Hcf : current_frame s1 = current_frame s)
    by (subst s1; destruct s; reflexivity).
  change (repeat EnvOk 10) with (repeat EnvOk 9 ++ [EnvOk]).
  rewrite stream_run_app.
  rewrite (new_stream_reaches_callback integrated_loudness fs s1 path file
             chunk_size);
    [| subst s1; destruct s; reflexivity | exact Hfile
     | subst s1; destruct s; reflexivity | subst s1; destruct s; reflexivity].
  cbn [fst snd stream_run]. unfold stream_step.
  cbn [st_pc st_file st_pos st_log st_chunk_size].
  set (s2 := set_audio_frames _ _).
  assert (Hcf2 : current_frame s2 = current_frame s)
    by (subst s2; rewrite <- Hcf; destruct s1; reflexivity).
  set (st := mkCbState s2 0 []).
  assert (Hlog : exists rest,
             cb_log (snd (callback_locked integrated_loudness file chunk_size
                            st))
             = OpSeek (current_frame s) :: rest
             /\ (sf_seek file (current_frame s) <> None ->
                 exists rest',
                   rest = OpAdvance chunk_size
                          :: OpRead (window file (current_frame s) chunk_size)
                          :: rest')).
  { destruct (sf_seek file (current_frame s)) as [p |] eqn:Es.
    - assert (Hs : sf_seek file (current_frame (cb_player st)) <> None)
        by (subst st; cbn [cb_player]; rewrite Hcf2; congruence).
      destruct (callback_locked_reads_window integrated_loudness file
                  chunk_size st Hs) as (rest & Hl).
      subst st. cbn [cb_player cb_log app] in Hl. rewrite Hcf2 in Hl.
      eexists. split; [exact Hl |]. intros _. eexists. reflexivity.
    - rewrite (callback_locked_seek_refused integrated_loudness file
                 chunk_size st)
        by (subst st; cbn [cb_player]; rewrite Hcf2; exact Es).
      subst st. cbn [snd cb_log cb_player app]. rewrite Hcf2.
      eexists. split; [reflexivity |]. intros Hne. contradiction. }
  assert (Hadv : sf_seek file (current_frame s) <> None ->
                 current_frame
                   (cb_player (snd (callback_locked integrated_loudness file
                                      chunk_size st)))
                 = (current_frame s + chunk_size)%Z).
  { intros Hs. rewrite callback_locked_advances
      by (subst st; cbn [cb_player]; rewrite Hcf2; exact Hs).
    subst st. cbn [cb_player]. rewrite Hcf2. reflexivity. }
  destruct (callback_locked integrated_loudness file chunk_size st)
    as [[[o [|]] |] st'];
    cbn [fst snd st_log with_cb at_pc] in *; split; assumption.
Qed.

End StaleCursor.

Lemma new_stream_starts_at_stored_cursor_witness :
  let s := set_current_frame 1 (set_no_audio_loaded true small_player) in
  no_audio_loaded s = true
  /\ exists rest,
       st_log (fst (stream_run steady_meter two_files (repeat EnvOk 10)
                      (new_stream_thread 1)
                      (snd (fst (controller_run 9
                                   (start_call (Some Paths.b_wav) 1) s)))))
       = OpSeek 1 :: rest.
Proof.
  intros s. split; [reflexivity |].
  destruct (new_stream_starts_at_stored_cursor steady_meter two_files s
              Paths.b_wav two_frames 1 eq_refl eq_refl eq_refl)
    as (_ & (rest & Hlog & _) & _).
  exists rest. exact Hlog.
Defined.

Section LateReset.

Variable integrated_loudness : Z -> R -> chunk -> meter_result.
Variable fs : String.string -> option SoundFile.

Lemma sys_exec_app (chs1 chs2 : list choice) (tr : list event) (sys : system) :
  sys_exec integrated_loudness fs (chs1 ++ chs2) tr sys
  = match sys_exec integrated_loudness fs chs1 tr sys with
    | Some (tr', sys') => sys_exec integrated_loudness fs chs2 tr' sys'
    | None => None
    end.
Proof.
  revert tr sys. induction chs1 as [| ch chs1 IH]; intros tr sys.
  - reflexivity.
  - cbn [app sys_exec].
    destruct (sys_step integrated_loudness fs ch sys) as [[ev sys1] |];
      [apply IH | reflexivity].
Qed.

(** The leaving thread opens the barrier, the caller returns and the new
    thread reaches its first callback, the cursor untouched. *)
Lemma late_reset_prefix (s : AudioPlayer) (t : stream_thread)
    (path : String.string) (file : SoundFile) (chunk_size : Z) :
  st_pc t = L178 ->
  is_playback_unpaused s = true ->
  fs path = Some file ->
  sys_exec integrated_loudness fs
    (ChStream 0 EnvOk :: repeat ChCtrl 6 ++ repeat (ChStream 1 EnvOk) 9) []
    (mkSystem s (mkController C122 (Some path) chunk_size true) [t])
  = Some ([EvStream 0 L178; EvCtrl C122; EvCtrl C124; EvCtrl C126;
           EvCtrl C129; EvCtrl C130; EvCtrl C181;
           EvStream 1 L134; EvStream 1 L135; EvStream 1 L136;
           EvStream 1 L137; EvStream 1 L138; EvStream 1 L165;
           EvStream 1 L171; EvStream 1 (L172 CbWait);
           EvStream 1 (L172 CbCheck)],
          mkSystem
            (set_audio_frames (sf_frames file)
               (set_audio_sample_rate (sf_samplerate file)
                  (set_stopped false
                     (set_no_audio_loaded false
                        (set_audio_path (Some path) s)))))
            (mkController CReturned (Some path) chunk_size true)
            [at_pc L179 t;
             mkStreamThread (L172 CbLocked) HLive (Some file) (Some file) 0
               chunk_size []]).
Proof.
  intros Hpc Hunp Hfile.
  destruct t as [pc p f info pos size log]. cbn in Hpc. subst pc.
  destruct s as [vol nmax nmin nbias apath chans frames rate unp stp nal foc
                   disp skip ratio cf].
  cbn in Hunp. subst unp.
  cbn. rewrite Hfile. cbn. rewrite Hfile. reflexivity.
Qed.

(** X21: the cursor reset of a leaving thread is not ordered before the
    next stream.  The leaving thread opens the barrier at line 178 and
    resets the cursor only at line 180; in between, the caller can return
    and the new thread can run its first callback, which then seeks to the
    cursor of the previous file; the reset that follows rewinds the new
    file to frame 0. *)
Theorem late_reset_rewinds_new_stream :
  forall (s : AudioPlayer) (t : stream_thread) (path : String.string)
         (file : SoundFile) (chunk_size : Z),
    st_pc t = L178 ->
    is_playback_unpaused s = true ->
    fs path = Some file ->
    exists sys' t_new rest,
      sys_exec integrated_loudness fs late_reset_schedule []
        (mkSystem s (mkController C122 (Some path) chunk_size true) [t])
      = Some ([EvStream 0 L178; EvCtrl C122; EvCtrl C124; EvCtrl C126;
               EvCtrl C129; EvCtrl C130; EvCtrl C181;
               EvStream 1 L134; EvStream 1 L135; EvStream 1 L136;
               EvStream 1 L137; EvStream 1 L138; EvStream 1 L165;
               EvStream 1 L171; EvStream 1 (L172 CbWait);
               EvStream 1 (L172 CbCheck); EvStream 1 (L172 CbLocked);
               EvStream 0 L179], sys')
      /\ c_pc (sys_ctrl sys') = CReturned
      /\ sys_threads sys' = [at_pc LExit t; t_new]
      /\ st_log t_new = OpSeek (current_frame s) :: rest
      /\ current_frame (sys_player sys') = 0%Z
      /\ no_audio_loaded (sys_player sys') = false.
Proof.
  intros s t path file chunk_size Hpc Hunp Hfile.
  change late_reset_schedule
    with ((ChStream 0 EnvOk :: repeat ChCtrl 6 ++ repeat (ChStream 1 EnvOk) 9)
          ++ [ChStream 1 EnvOk; ChStream 0 EnvOk]).
  rewrite sys_exec_app,
    (late_reset_prefix s t path file chunk_size Hpc Hunp Hfile).
  set (s1 := set_audio_frames _ _).
  assert (Hcf : current_frame s1 = current_frame s)
    by (subst s1; destruct s; reflexivity).
  assert (Hn : no_audio_loaded s1 = false)
    by (subst s1; destruct s; reflexivity).
  clearbody s1.
  cbn [sys_exec]. unfold sys_step at 1.
  cbn [sys_threads sys_player sys_ctrl nth_error update_nth].
  unfold stream_step at 1.
  cbn [st_pc st_file st_chunk_size st_pos st_log].
  pose proof (callback_locked_frame integrated_loudness file chunk_size
                (mkCbState s1 0 [])) as [Hsame [rest Hlog]].
  apply same_but_cursor_display_fields in Hsame.
  destruct Hsame as (_ & _ & _ & _ & _ & _ & Hnal).
  cbn [cb_player cb_log app] in Hlog, Hnal. rewrite Hcf in Hlog.
  rewrite Hn in Hnal.
  destruct t as [pc p f info pos size log]. cbn in Hpc. subst pc.
  destruct (callback_locked integrated_loudness file chunk_size
              (mkCbState s1 0 [])) as [[[o [|]] |] st'];
    cbn [snd cb_log cb_player] in Hlog, Hnal;
    unfold sys_step;
    cbn [sys_threads sys_player sys_ctrl nth_error update_nth stream_step
         st_pc at_pc app];
    (eexists; eexists; exists rest); (split; [reflexivity |]);
    cbn [sys_ctrl c_pc sys_threads sys_player st_log with_cb at_pc
         current_frame set_current_frame st_p st_file st_info st_pos
         st_chunk_size];
    (split; [reflexivity |]); (split; [reflexivity |]);
    (split; [exact Hlog |]); (split; [reflexivity |]);
    destruct (cb_player st'); exact Hnal.
Qed.

End LateReset.

Lemma late_reset_rewinds_new_stream_witness :
  exists sys',
    sys_exec steady_meter two_files late_reset_schedule []
      (mkSystem (set_current_frame 2 small_player)
         (mkController C122 (Some Paths.b_wav) 2 true)
         [mkStreamThread L178 HTerminated (Some two_frames)
            (Some two_frames) 2 2 []])
    = Some ([EvStream 0 L178; EvCtrl C122; EvCtrl C124; EvCtrl C126;
             EvCtrl C129; EvCtrl C130; EvCtrl C181;
             EvStream 1 L134; EvStream 1 L135; EvStream 1 L136;
             EvStream 1 L137; EvStream 1 L138; EvStream 1 L165;
             EvStream 1 L171; EvStream 1 (L172 CbWait);
             EvStream 1 (L172 CbCheck); EvStream 1 (L172 CbLocked);
             EvStream 0 L179], sys')
    /\ current_frame (sys_player sys') = 0%Z.
Proof.
  destruct (late_reset_rewinds_new_stream steady_meter two_files
              (set_current_frame 2 small_player)
              (mkStreamThread L178 HTerminated (Some two_frames)
                 (Some two_frames) 2 2 [])
              Paths.b_wav two_frames 2 eq_refl eq_refl eq_refl)
    as (sys' & t_new & rest & Hrun & _ & _ & _ & Hcf & _).
  exists sys'. split; [exact Hrun | exact Hcf].
Defined.

(** ** Restarting the current file *)

Section RestartRace.

Variable integrated_loudness : Z -> R -> chunk -> meter_result.
Variable fs : String.string -> option SoundFile.

(** One step of a schedule, evaluated. *)
Ltac sys_exec_step :=
  unfold sys_step at 1;
  cbn [sys_threads sys_player sys_ctrl controller_step c_pc ctrl_at
       c_audio_path c_chunk_size c_is_unpaused negb app start_call
       nth_error update_nth stream_step st_pc st_p st_file st_info st_pos
       st_chunk_size st_log at_pc with_p with_file with_info
       new_stream_thread open_path
       is_playback_unpaused is_stopped no_audio_loaded audio_path
       set_audio_path set_no_audio_loaded set_stopped set_unpaused
       set_audio_frames set_audio_sample_rate set_current_frame].

(** The restart up to the new thread's first callback: the playing thread
    has seen the stop request and opened the barrier, the caller has
    returned, the path and the cursor are as they were. *)
Lemma restart_race_prefix (s : AudioPlayer) (t : stream_thread)
    (path : String.string) (file : SoundFile) (chunk_size : Z) :
  st_pc t = L172 CbWait -> st_p t = HLive ->
  is_playback_unpaused s = true ->
  audio_path s = Some path -> fs path = Some file ->
  sys_exec integrated_loudness fs
    (repeat ChCtrl 3 ++ repeat (ChStream 0 EnvOk) 5 ++ repeat ChCtrl 6
     ++ repeat (ChStream 1 EnvOk) 9) []
    (mkSystem s (start_call None chunk_size) [t])
  = Some ([EvCtrl C117; EvCtrl C119; EvCtrl C120;
           EvStream 0 (L172 CbWait); EvStream 0 (L172 CbCheck);
           EvStream 0 L174; EvStream 0 L177; EvStream 0 L178;
           EvCtrl C122; EvCtrl C124; EvCtrl C126; EvCtrl C129; EvCtrl C130;
           EvCtrl C181;
           EvStream 1 L134; EvStream 1 L135; EvStream 1 L136;
           EvStream 1 L137; EvStream 1 L138; EvStream 1 L165;
           EvStream 1 L171; EvStream 1 (L172 CbWait);
           EvStream 1 (L172 CbCheck)],
          mkSystem
            (set_audio_frames (sf_frames file)
               (set_audio_sample_rate (sf_samplerate file)
                  (set_stopped false (set_no_audio_loaded false s))))
            (mkController CReturned None chunk_size true)
            [at_pc L179 (with_p HTerminated t);
             mkStreamThread (L172 CbLocked) HLive (Some file) (Some file) 0
               chunk_size []]).
Proof.
  intros Hpc Hp Hunp Hpath Hfile.
  destruct t as [pc p f info pos size log]. cbn in Hpc, Hp. subst pc p.
  destruct s as [vol nmax nmin nbias apath chans frames rate unp stp nal foc
                   disp skip ratio cf].
  cbn in Hunp, Hpath. subst unp apath.
  cbn [repeat app sys_exec].
  do 16 sys_exec_step. rewrite Hfile. sys_exec_step. rewrite Hfile.
  do 6 sys_exec_step.
  reflexivity.
Qed.

(** With the prior stream's exit complete (the barrier open and the cursor
    reset), [start_audio_playback(None)] restarts the stored file from its
    first frame: the new thread opens the file at the stored path and its
    first callback reads the window at frame 0. *)
Lemma restart_after_exit_starts_at_frame_0 (s : AudioPlayer)
    (path : String.string) (file : SoundFile) (chunk_size : Z) :
  no_audio_loaded s = true -> current_frame s = 0%Z ->
  is_playback_unpaused s = true ->
  audio_path s = Some path -> fs path = Some file ->
  let call := controller_run 9 (start_call None chunk_size) s in
  let play :=
    stream_run integrated_loudness fs (repeat EnvOk 10)
      (new_stream_thread chunk_size) (snd (fst call)) in
  snd call = [new_stream_thread chunk_size]
  /\ audio_path (snd (fst call)) = Some path
  /\ st_file (fst play) = Some file
  /\ (exists rest,
         st_log (fst play)
         = OpSeek 0 :: OpAdvance chunk_size
           :: OpRead (window file 0 chunk_size) :: rest)
  /\ current_frame (snd play) = chunk_size.
Proof.
  intros Hnal Hcf0 Hunp Hpath Hfile call play. subst play call.
  rewrite controller_run_open_barrier by exact Hnal.
  cbn [fst snd]. split; [reflexivity |].
  rewrite Hunp. cbn [negb].
  set (s1 := set_stopped false _).
  assert (Hcf : current_frame s1 = 0%Z)
    by (subst s1; destruct s; exact Hcf0).
  assert (Hp1 : audio_path s1 = Some path)
    by (subst s1; destruct s; exact Hpath).
  split; [exact Hp1 |].
  change (repeat EnvOk 10) with (repeat EnvOk 9 ++ [EnvOk]).
  rewrite stream_run_app.
  rewrite (new_stream_reaches_callback integrated_loudness fs s1 path file
             chunk_size);
    [| exact Hp1 | exact Hfile
     | subst s1; destruct s; reflexivity | subst s1; destruct s; reflexivity].
  cbn [fst snd stream_run]. unfold stream_step.
  cbn [st_pc st_file st_pos st_log st_chunk_size].
  set (s2 := set_audio_frames _ _).
  assert (Hcf2 : current_frame s2 = 0%Z)
    by (subst s2; rewrite <- Hcf; destruct s1; reflexivity).
  set (st := mkCbState s2 0 []).
  assert (Hs : sf_seek file (current_frame (cb_player st)) <> None).
  { subst st. cbn [cb_player]. rewrite Hcf2. unfold sf_seek.
    assert (H : (0 <=? sf_frames file)%Z = true)
      by (apply Z.leb_le; unfold sf_frames; lia).
    cbn [Z.leb Z.compare andb]. rewrite H. discriminate. }
  destruct (callback_locked_reads_window integrated_loudness file chunk_size
              st Hs) as (rest & Hlog).
  pose proof (callback_locked_advances integrated_loudness file chunk_size
                st Hs) as Hadv.
  subst st. cbn [cb_player cb_log app] in Hlog, Hadv.
  rewrite Hcf2 in Hlog, Hadv. cbn [Z.add] in Hadv.
  destruct (callback_locked integrated_loudness file chunk_size
              (mkCbState s2 0 [])) as [[[o [|]] |] st'];
    cbn [fst snd st_log st_file with_cb at_pc] in *;
    (split; [reflexivity |]); (split; [exists rest; exact Hlog | exact Hadv]).
Qed.

(** C10: [start_audio_playback(None)] keeps the stored path, and the thread
    it spawns opens the file at that path; but the cursor is reset by the
    thread that leaves, at line 180, after that thread has opened the
    barrier at line 178.  Called while the file plays, the caller can
    return and the new thread can run its first callback in between: that
    callback seeks to the cursor the old stream had reached and plays the
    window there, not the one at frame 0, and the reset that follows
    rewinds the restarted stream. *)
Theorem restart_while_playing_starts_at_stale_cursor :
  forall (s : AudioPlayer) (t : stream_thread) (path : String.string)
         (file : SoundFile) (chunk_size : Z),
    st_pc t = L172 CbWait -> st_p t = HLive ->
    is_playback_unpaused s = true ->
    audio_path s = Some path -> fs path = Some file ->
    exists sys' t_new rest,
      sys_exec integrated_loudness fs restart_race_schedule []
        (mkSystem s (start_call None chunk_size) [t])
      = Some ([EvCtrl C117; EvCtrl C119; EvCtrl C120;
               EvStream 0 (L172 CbWait); EvStream 0 (L172 CbCheck);
               EvStream 0 L174; EvStream 0 L177; EvStream 0 L178;
               EvCtrl C122; EvCtrl C124; EvCtrl C126; EvCtrl C129;
               EvCtrl C130; EvCtrl C181;
               EvStream 1 L134; EvStream 1 L135; EvStream 1 L136;
               EvStream 1 L137; EvStream 1 L138; EvStream 1 L165;
               EvStream 1 L171; EvStream 1 (L172 CbWait);
               EvStream 1 (L172 CbCheck); EvStream 1 (L172 CbLocked);
               EvStream 0 L179], sys')
      /\ c_pc (sys_ctrl sys') = CReturned
      /\ audio_path (sys_player sys') = Some path
      /\ sys_threads sys' = [at_pc LExit (with_p HTerminated t); t_new]
      /\ st_file t_new = Some file
      /\ st_log t_new = OpSeek (current_frame s) :: rest
      /\ (sf_seek file (current_frame s) <> None ->
          exists rest',
            rest = OpAdvance chunk_size
                   :: OpRead (window file (current_frame s) chunk_size)
                   :: rest')
      /\ current_frame (sys_player sys') = 0%Z.
Proof.
  intros s t path file chunk_size Hpc Hp Hunp Hpath Hfile.
  change restart_race_schedule
    with ((repeat ChCtrl 3 ++ repeat (ChStream 0 EnvOk) 5 ++ repeat ChCtrl 6
           ++ repeat (ChStream 1 EnvOk) 9)
          ++ [ChStream 1 EnvOk; ChStream 0 EnvOk]).
  rewrite sys_exec_app,
    (restart_race_prefix s t path file chunk_size Hpc Hp Hunp Hpath Hfile).
  set (s1 := set_audio_frames _ _).
  assert (Hcf : current_frame s1 = current_frame s)
    by (subst s1; destruct s; reflexivity).
  assert (Hap : audio_path s1 = Some path)
    by (subst s1; destruct s; exact Hpath).
  clearbody s1.
  cbn [sys_exec]. unfold sys_step at 1.
  cbn [sys_threads sys_player sys_ctrl nth_error update_nth].
  unfold stream_step at 1.
  cbn [st_pc st_file st_chunk_size st_pos st_log].
  pose proof (callback_locked_frame integrated_loudness file chunk_size
                (mkCbState s1 0 [])) as [Hsame [rest Hlog]].
  apply same_but_cursor_display_fields in Hsame.
  destruct Hsame as (_ & Hpath' & _).
  cbn [cb_player cb_log app] in Hlog, Hpath'. rewrite Hcf in Hlog.
  rewrite Hap in Hpath'.
  assert (Hread : sf_seek file (current_frame s) <> None ->
                  exists rest',
                    rest = OpAdvance chunk_size
                           :: OpRead (window file (current_frame s) chunk_size)
                           :: rest').
  { intros Hs.
    destruct (callback_locked_reads_window integrated_loudness file chunk_size
                (mkCbState s1 0 [])) as (rest2 & Hl2).
    - cbn [cb_player]. rewrite Hcf. exact Hs.
    - cbn [cb_player cb_log app] in Hl2. rewrite Hcf in Hl2.
      rewrite Hlog in Hl2. injection Hl2 as ->. exists rest2. reflexivity. }
  destruct t as [pc p f info pos size log]. cbn in Hpc, Hp. subst pc p.
  destruct (callback_locked integrated_loudness file chunk_size
              (mkCbState s1 0 [])) as [[[o [|]] |] st'];
    cbn [snd cb_log cb_player] in Hlog, Hpath';
    unfold sys_step;
    cbn [sys_threads sys_player sys_ctrl nth_error update_nth stream_step
         st_pc at_pc with_p app];
    (eexists; eexists; exists rest); (split; [reflexivity |]);
    cbn [sys_ctrl c_pc sys_threads sys_player st_log st_file with_cb at_pc
         with_p current_frame set_current_frame st_p st_info st_pos
         st_chunk_size];
    (split; [reflexivity |]);
    (split; [destruct (cb_player st'); exact Hpath' |]);
    (split; [reflexivity |]); (split; [reflexivity |]);
    (split; [exact Hlog |]); (split; [exact Hread |]); reflexivity.
Qed.

End RestartRace.

Lemma restart_while_playing_starts_at_stale_cursor_witness :
  is_playback_unpaused playing_player = true
  /\ current_frame playing_player = 1%Z
  /\ exists sys' t_new rest',
       sys_exec steady_meter two_files restart_race_schedule []
         (mkSystem playing_player (start_call None 1) [playing_thread])
       = Some ([EvCtrl C117; EvCtrl C119; EvCtrl C120;
                EvStream 0 (L172 CbWait); EvStream 0 (L172 CbCheck);
                EvStream 0 L174; EvStream 0 L177; EvStream 0 L178;
                EvCtrl C122; EvCtrl C124; EvCtrl C126; EvCtrl C129;
                EvCtrl C130; EvCtrl C181;
                EvStream 1 L134; EvStream 1 L135; EvStream 1 L136;
                EvStream 1 L137; EvStream 1 L138; EvStream 1 L165;
                EvStream 1 L171; EvStream 1 (L172 CbWait);
                EvStream 1 (L172 CbCheck); EvStream 1 (L172 CbLocked);
                EvStream 0 L179], sys')
       /\ sys_threads sys'
          = [at_pc LExit (with_p HTerminated playing_thread); t_new]
       /\ st_log t_new
          = OpSeek 1 :: OpAdvance 1 :: OpRead (window two_frames 1 1) :: rest'
       /\ window two_frames 1 1 <> window two_frames 0 1
       /\ current_frame (sys_player sys') = 0%Z.
Proof.
  split; [reflexivity |]. split; [reflexivity |].
  destruct (restart_while_playing_starts_at_stale_cursor steady_meter
              two_files playing_player playing_thread Paths.a_wav two_frames 1
              eq_refl eq_refl eq_refl eq_refl eq_refl)
    as (sys' & t_new & rest & Hrun & _ & _ & Hth & _ & Hlog & Hread & Hcf).
  destruct Hread as (rest' & ->); [discriminate |].
  exists sys', t_new, rest'.
  split; [exact Hrun |]. split; [exact Hth |]. split; [exact Hlog |].
  split; [| exact Hcf].
  cbn. intros H. injection H as H.
  apply (f_equal (fun x => x + 0.25)%R) in H. lra.
Defined.


(** ** The display buffer *)

Section DisplayBuffer.

Variable integrated_loudness : Z -> R -> chunk -> meter_result.
Variable fs : String.string -> option SoundFile.

(** With the window unfocused the callback skips the look-ahead: it moves
    the cursor and nothing else, and the file position stays just behind
    the window it played. *)
Lemma callback_locked_unfocused (file : SoundFile) (fc : Z) (st : cb_state) :
  is_window_focused (cb_player st) = false ->
  sf_seek file (current_frame (cb_player st)) <> None ->
  cb_player (snd (callback_locked integrated_loudness file fc st))
  = set_current_frame (current_frame (cb_player st) + fc) (cb_player st)
  /\ cb_pos (snd (callback_locked integrated_loudness file fc st))
     = snd (sf_read file (current_frame (cb_player st)) fc)
  /\ ~ In OpDisplay
         (skipn (length (cb_log st))
            (cb_log (snd (callback_locked integrated_loudness file fc st)))).
Proof.
  intros Hfoc Hseek.
  unfold callback_locked, cb_bind, cb_get, cb_tell, cb_seek, cb_modify,
    cb_read, cb_lift, cb_ret, cb_raise.
  cbn [cb_player cb_pos cb_log].
  destruct (sf_seek file (current_frame (cb_player st))) as [pos |] eqn:Eseek;
    [| congruence].
  destruct (sf_seek_some _ _ _ Eseek) as [-> _].
  cbn [cb_player cb_pos cb_log].
  destruct (sf_read file (current_frame (cb_player st)) fc) as [data pos1] eqn:Erd.
  cbn [cb_player cb_pos cb_log snd].
  destruct (find_target_loudness integrated_loudness _ default_params data)
    as [target |] eqn:Eft; cbn [cb_player cb_pos cb_log snd].
  - destruct (length (zero_fix data) =? 0)%nat eqn:Elen;
      cbn [cb_player cb_pos cb_log snd].
    + repeat rewrite <- app_assoc. rewrite skipn_app, skipn_all, Nat.sub_diag.
      cbn. repeat split. intros [H | [H | [H | [H | [H | [H | []]]]]]];
        discriminate H.
    + cbn [is_window_focused set_current_frame]. rewrite Hfoc.
      cbn [cb_player cb_pos cb_log snd].
      destruct (normalize_peak (zero_fix data) target) as [n |];
        cbn [cb_player cb_pos cb_log snd];
        repeat rewrite <- app_assoc; rewrite skipn_app, skipn_all, Nat.sub_diag;
        cbn; repeat split;
        intros [H | [H | [H | [H | [H | [H | [H | []]]]]]]]; discriminate H.
  - repeat rewrite <- app_assoc. rewrite skipn_app, skipn_all, Nat.sub_diag.
    cbn. repeat split. intros [H | [H | [H | [H | []]]]]; discriminate H.
Qed.

Lemma stream_step_unfocused (e : env) (t t' : stream_thread)
    (s s' : AudioPlayer) :
  is_window_focused s = false ->
  stream_step integrated_loudness fs e t s = Some (t', s') ->
  display_frame_data s' = display_frame_data s
  /\ is_window_focused s' = false.
Proof.
  intros Hfoc H.
  destruct (st_pc t) as [| | | | | | | [| |] | | | | | |] eqn:Epc.
  10: {
    unfold stream_step in H. rewrite Epc in H. cbv beta iota in H.
    destruct (st_file t) as [file |].
    2: { injection H as <- <-. split; [reflexivity | exact Hfoc]. }
    destruct (sf_seek file (current_frame s)) as [p |] eqn:Es.
    - assert (Hs : sf_seek file (current_frame
                                   (cb_player (mkCbState s (st_pos t) (st_log t))))
                   <> None) by (cbn [cb_player]; congruence).
      destruct (callback_locked_unfocused file (st_chunk_size t)
                  (mkCbState s (st_pos t) (st_log t)) Hfoc Hs) as (Hp & _).
      cbn [cb_player] in Hp.
      destruct (callback_locked integrated_loudness file (st_chunk_size t)
                  (mkCbState s (st_pos t) (st_log t))) as [[[o [|]] |] st'];
        cbn [snd] in Hp; injection H as <- <-; rewrite Hp;
        (split; [reflexivity | exact Hfoc]).
    - rewrite (callback_locked_seek_refused integrated_loudness file
                 (st_chunk_size t) (mkCbState s (st_pos t) (st_log t)) Es) in H.
      injection H as <- <-. split; [reflexivity | exact Hfoc]. }
  all: apply stream_step_player in H; rewrite Epc in H;
    try (destruct H as (n & [-> | ->])); try subst s';
    (split; [reflexivity | exact Hfoc]).
Qed.

(** X22: a stream that runs while the window is unfocused never touches the
    display buffer: whatever it plays and however it ends, the buffer the
    visualizer reads is the one it read before, so the visualizer shows the
    last frame it was given. *)
Theorem unfocused_stream_keeps_display :
  forall (es : list env) (t : stream_thread) (s : AudioPlayer),
    is_window_focused s = false ->
    let r := stream_run integrated_loudness fs es t s in
    display_frame_data (snd r) = display_frame_data s
    /\ is_window_focused (snd r) = false
    /\ (audio_frames (snd r) = audio_frames s ->
        get_display_frames (snd r) = get_display_frames s).
Proof.
  intros es t s Hfoc r. subst r.
  assert (H : display_frame_data
                (snd (stream_run integrated_loudness fs es t s))
              = display_frame_data s
              /\ is_window_focused
                   (snd (stream_run integrated_loudness fs es t s)) = false).
  { revert t s Hfoc. induction es as [| e es IH]; intros t s Hfoc.
    - split; [reflexivity | exact Hfoc].
    - cbn [stream_run].
      destruct (stream_step integrated_loudness fs e t s) as [[t' s'] |] eqn:E.
      + destruct (stream_step_unfocused e t t' s s' Hfoc E) as [Hd Hf].
        destruct (IH t' s' Hf) as [Hd' Hf'].
        split; [congruence | exact Hf'].
      + split; [reflexivity | exact Hfoc]. }
  destruct H as [Hd Hf]. split; [exact Hd |]. split; [exact Hf |].
  intros Hfr. unfold get_display_frames. rewrite Hfr, Hd. reflexivity.
Qed.

End DisplayBuffer.

Lemma unfocused_stream_keeps_display_witness :
  is_window_focused small_player = false
  /\ display_frame_data
       (snd (stream_run steady_meter two_files (repeat EnvOk 17)
               (new_stream_thread 2) small_player))
     = display_frame_data small_player.
Proof.
  assert (H : is_window_focused small_player = false) by reflexivity.
  split; [exact H |].
  exact (proj1 (unfocused_stream_keeps_display steady_meter two_files
                  (repeat EnvOk 17) (new_stream_thread 2) small_player H)).
Defined.

(** ** Moving on to the next file *)

Lemma update_nth_middle {A : Type} (l1 : list A) (a x : A) (l2 : list A) :
  update_nth (length l1) x (l1 ++ a :: l2) = l1 ++ x :: l2.
Proof. induction l1 as [| b l1 IH]; cbn; [| rewrite IH]; reflexivity. Qed.

Lemma nth_error_middle {A : Type} (l1 : list A) (a : A) (l2 : list A) :
  nth_error (l1 ++ a :: l2) (length l1) = Some a.
Proof. induction l1 as [| b l1 IH]; cbn; [reflexivity | exact IH]. Qed.

Lemma set_image_middle (l1 : sorted_buttons) (k img img' : String.string)
    (l2 : sorted_buttons) :
  set_image (length l1) img' (l1 ++ (k, img) :: l2) = l1 ++ (k, img') :: l2.
Proof.
  unfold set_image. rewrite nth_error_middle. apply update_nth_middle.
Qed.

Lemma toggled_keys_app (l1 l2 : sorted_buttons) :
  toggled_keys (l1 ++ l2) = toggled_keys l1 ++ toggled_keys l2.
Proof. unfold toggled_keys. rewrite filter_app, map_app. reflexivity. Qed.

Lemma toggled_keys_cons (k img : String.string) (l : sorted_buttons) :
  toggled_keys ((k, img) :: l)
  = if String.eqb img Images.toggle then k :: toggled_keys l
    else toggled_keys l.
Proof.
  unfold toggled_keys. cbn [filter snd].
  destruct (String.eqb img Images.toggle); reflexivity.
Qed.

Lemma find_toggled_split (bs : sorted_buttons) :
  forall i j,
    find_toggled i bs = Some j ->
    exists l1 k l2,
      bs = l1 ++ (k, Images.toggle) :: l2
      /\ j = (i + length l1)%nat /\ toggled_keys l1 = [].
Proof.
  induction bs as [| [k img] bs IH]; intros i j H; [discriminate |].
  cbn [find_toggled] in H.
  destruct (String.eqb_spec img Images.toggle) as [-> | Hne].
  - injection H as <-. exists [], k, bs. cbn. split; [reflexivity |].
    split; [lia | reflexivity].
  - destruct (IH (S i) j H) as (l1 & k' & l2 & -> & -> & Hnil).
    exists ((k, img) :: l1), k', l2. cbn [app length].
    split; [reflexivity |]. split; [lia |].
    rewrite toggled_keys_cons.
    destruct (String.eqb_spec img Images.toggle); [contradiction | exact Hnil].
Qed.

Lemma find_toggled_none (bs : sorted_buttons) :
  forall i, find_toggled i bs = None -> toggled_keys bs = [].
Proof.
  induction bs as [| [k img] bs IH]; intros i H; [reflexivity |].
  cbn [find_toggled] in H. rewrite toggled_keys_cons.
  destruct (String.eqb img Images.toggle); [discriminate | apply (IH _ H)].
Qed.

(** What [sequential_toggle] does to a list with at most one toggled
    button. *)
Lemma sequential_toggle_spec (bs : sorted_buttons) :
  bs <> [] ->
  (length (toggled_keys bs) <= 1)%nat ->
  exists bs' key,
    sequential_toggle bs = Some (bs', key)
    /\ map fst bs' = map fst bs
    /\ toggled_keys bs' = [key]
    /\ nth_error (map fst bs)
         match find_toggled 0 bs with
         | Some index => Nat.modulo (index + 1) (length bs)
         | None => 0%nat
         end = Some key.
Proof.
  intros Hne Hone. unfold sequential_toggle.
  destruct (find_toggled 0 bs) as [j |] eqn:Ef.
  - destruct (find_toggled_split bs 0 j Ef) as (l1 & k & l2 & -> & -> & Hnil).
    cbn [Nat.add].
    rewrite toggled_keys_app, Hnil, toggled_keys_cons in Hone.
    cbn [app] in Hone. rewrite String.eqb_refl in Hone. cbn [length] in Hone.
    assert (Hnil2 : toggled_keys l2 = []).
    { destruct (toggled_keys l2); [reflexivity | cbn in Hone; lia]. }
    rewrite set_image_middle.
    destruct l2 as [| [k2 i2] l2'].
    + (* the toggled button is the last: wrap around *)
      replace (length (l1 ++ [(k, Images.toggle)]))
        with (length l1 + 1)%nat by (rewrite length_app; reflexivity).
      rewrite Nat.Div0.mod_same.
      destruct l1 as [| [k0 i0] l1'].
      * exists [(k, Images.toggle)], k. cbn. repeat split.
      * cbn [app nth_error]. exists ((k0, Images.toggle) :: l1' ++ [(k, Images.default)]), k0.
        split; [reflexivity |]. split.
        { cbn [map fst]. rewrite !map_app. reflexivity. }
        split; [| reflexivity].
        rewrite toggled_keys_cons, String.eqb_refl.
        rewrite toggled_keys_cons in Hnil.
        destruct (String.eqb i0 Images.toggle); [discriminate Hnil |].
        rewrite toggled_keys_app, Hnil. reflexivity.
    + assert (Hlen : (length l1 + 1 < length (l1 ++ (k, Images.toggle)
                                                :: (k2, i2) :: l2'))%nat)
        by (rewrite length_app; cbn [length]; lia).
      rewrite (Nat.mod_small _ _ Hlen).
      assert (Hsplit : forall img,
                 l1 ++ (k, img) :: (k2, i2) :: l2'
                 = (l1 ++ [(k, img)]) ++ (k2, i2) :: l2')
        by (intros img; rewrite <- app_assoc; reflexivity).
      assert (Hl : forall img, length (l1 ++ [(k, img)]) = (length l1 + 1)%nat)
        by (intros img; rewrite length_app; reflexivity).
      rewrite (Hsplit Images.toggle), <- (Hl Images.toggle), nth_error_middle.
      rewrite (Hsplit Images.default).
      replace (length (l1 ++ [(k, Images.toggle)]))
        with (length (l1 ++ [(k, Images.default)]))
        by (rewrite !Hl; reflexivity).
      rewrite set_image_middle.
      eexists. eexists. split; [reflexivity |]. split.
      { rewrite !map_app. reflexivity. }
      split.
      * rewrite !toggled_keys_app, Hnil, !toggled_keys_cons, String.eqb_refl.
        rewrite toggled_keys_cons in Hnil2.
        destruct (String.eqb i2 Images.toggle); [discriminate Hnil2 |].
        rewrite Hnil2. reflexivity.
      * rewrite map_app. cbn [map fst].
        replace (length (l1 ++ [(k, Images.default)]))
          with (length (map fst (l1 ++ [(k, Images.toggle)])))
          by (rewrite length_map, !Hl; reflexivity).
        apply nth_error_middle.
  - destruct bs as [| [k0 i0] rest]; [contradiction Hne; reflexivity |].
    exists ((k0, Images.toggle) :: rest), k0.
    split; [reflexivity |]. split; [reflexivity |].
    split; [| reflexivity].
    pose proof (find_toggled_none _ _ Ef) as Hnil.
    rewrite toggled_keys_cons in Hnil |- *. rewrite String.eqb_refl.
    destruct (String.eqb i0 Images.toggle); [discriminate Hnil |].
    rewrite Hnil. reflexivity.
Qed.

(** X23: [sequential_toggle] moves the selection to the next button.  On a
    non-empty list with at most one toggled button it keeps the keys and
    their order, leaves exactly one button toggled, and hands to
    [on_button_toggle] the key of that button: the one after the button
    toggled before, wrapping around at the end, or the first when none was
    toggled.  On an empty list it raises. *)
Theorem sequential_toggle_selects_next :
  forall bs : sorted_buttons,
    bs <> [] ->
    (length (toggled_keys bs) <= 1)%nat ->
    exists bs' key,
      sequential_toggle bs = Some (bs', key)
      /\ map fst bs' = map fst bs
      /\ toggled_keys bs' = [key]
      /\ nth_error (map fst bs)
           match find_toggled 0 bs with
           | Some index => Nat.modulo (index + 1) (length bs)
           | None => 0%nat
           end = Some key
      /\ sequential_toggle [] = None.
Proof.
  intros bs Hne Hone.
  destruct (sequential_toggle_spec bs Hne Hone)
    as (bs' & key & H1 & H2 & H3 & H4).
  exists bs', key. repeat split; assumption.
Qed.

Lemma sequential_toggle_selects_next_witness :
  exists bs',
    sequential_toggle [(Paths.a_wav, Images.default);
                       (Paths.b_wav, Images.toggle)]
    = Some (bs', Paths.a_wav)
    /\ toggled_keys bs' = [Paths.a_wav].
Proof.
  destruct (sequential_toggle_selects_next
              [(Paths.a_wav, Images.default); (Paths.b_wav, Images.toggle)])
    as (bs' & key & Hrun & _ & Htog & Hkey & _).
  - discriminate.
  - cbn. lia.
  - cbn in Hkey. injection Hkey as <-. exists bs'. split; assumption.
Defined.

(** X24: the main loop moves on to the next file exactly once.  When
    nothing plays and a file has been loaded before, the loop toggles the
    next button and calls [start_audio_playback] with its key and a chunk
    size of 2048: one thread is spawned, the key is the stored path,
    [no_audio_loaded] is clear and the cursor is as it was; in the next
    pass of the loop the condition is false, so nothing is toggled or
    started again while that stream is loaded. *)
Theorem auto_advance_starts_next_once :
  forall (bs : sorted_buttons) (s : AudioPlayer),
    bs <> [] ->
    (length (toggled_keys bs) <= 1)%nat ->
    no_audio_loaded s = true ->
    (0 < audio_frames s)%Z ->
    exists bs' key s',
      sequential_toggle bs = Some (bs', key)
      /\ auto_advance bs s = Some (bs', s', [new_stream_thread 2048])
      /\ audio_path s' = Some key
      /\ no_audio_loaded s' = false
      /\ is_stopped s' = false
      /\ current_frame s' = current_frame s
      /\ auto_advance bs' s' = Some (bs', s', []).
Proof.
  intros bs s Hne Hone Hnal Hf.
  destruct (sequential_toggle_spec bs Hne Hone) as (bs' & key & Hrun & _).
  apply Z.ltb_lt in Hf.
  unfold auto_advance at 1. rewrite Hnal, Hf, Hrun. cbn [andb].
  rewrite controller_run_open_barrier by exact Hnal.
  eexists. eexists. eexists. split; [reflexivity |].
  split; [reflexivity |].
  destruct s as [vol nmax nmin nbias apath chans frames rate unp stp nal foc
                   disp skip ratio cf].
  unfold auto_advance. destruct unp; cbn; repeat split.
Qed.

Lemma auto_advance_starts_next_once_witness :
  exists bs' s',
    auto_advance [(Paths.a_wav, Images.toggle); (Paths.b_wav, Images.default)]
      (set_no_audio_loaded true small_player)
    = Some (bs', s', [new_stream_thread 2048])
    /\ audio_path s' = Some Paths.b_wav.
Proof.
  destruct (auto_advance_starts_next_once
              [(Paths.a_wav, Images.toggle); (Paths.b_wav, Images.default)]
              (set_no_audio_loaded true small_player))
    as (bs' & key & s' & Hseq & Hrun & Hpath & _).
  - discriminate.
  - cbn. lia.
  - reflexivity.
  - cbn. lia.
  - exists bs', s'. split; [exact Hrun |].
    cbn in Hseq. injection Hseq as _ <-. exact Hpath.
Defined.
